(** * Issue-bot: linked-issue extraction, reopen/activity bots, stale-PR bot

    A shallow embedding of [openwisp_utils/pr_reopen_bot.py] and
    [openwisp_utils/stale_pr_bot.py], followed by the properties the
    specification states of them and by further properties of the code.

    Conventions of the embedding.
    - The body of a pull request, which the regular expression reads, is the
      sequence of its code points; [\s], [\d] and [re.IGNORECASE] are those
      of [re] on [str], with the tables of Unicode 14.0 (CPython 3.11).
    - The texts the bots write, and the comments they scan for their own
      ASCII markers, are strings of bytes (an emoji is its UTF-8 encoding);
      [str.lower] acts on the ASCII letters there.
    - [int] raises [ValueError] beyond 4300 digits, the default limit of the
      interpreter.  The order in which a [set] is listed is the
      interpreter's: it is a component of the world, and [CPython.set_order]
      is the one of CPython 3.11 for non-negative integers.
    - Python integers are [Z]; timestamps are [Z] microseconds since the epoch.
    - The issue tracker is an explicit [World], read and written through the
      operations of the client library.  Every call of the library consumes
      one entry of a schedule of outcomes, so that any remote call may raise;
      the writes that reach the tracker are also recorded in order.
    - An object of the library ([pr], [issue]) is a snapshot: its attributes
      are those read when it was fetched, its methods go to the tracker.
    - Output written with [print] is not modelled. *)

From Stdlib Require Import ZArith Ascii String List Lia Bool DecimalString.
From stdpp Require Import base decidable option list gmap strings.

Local Open Scope Z_scope.

(** ** Strings of bytes *)

Module Text.

Definition text := list ascii.

Definition of_string (s : string) : text := list_ascii_of_string s.

Definition code (c : ascii) : N := N_of_ascii c.

(** [str.lower()] on one character. *)
Definition lower_char (c : ascii) : ascii :=
  if ((65 <=? code c) && (code c <=? 90))%N
  then ascii_of_N (code c + 32) else c.

Definition lower (s : text) : text := map lower_char s.

Fixpoint starts_with (p s : text) : bool :=
  match p, s with
  | [], _ => true
  | a :: p', b :: s' => Ascii.eqb a b && starts_with p' s'
  | _ :: _, [] => false
  end.

(** [needle in hay] *)
Fixpoint contains (needle hay : text) : bool :=
  starts_with needle hay ||
  match hay with
  | [] => false
  | _ :: hay' => contains needle hay'
  end.

End Text.


(** ** Strings of code points *)

Module Unicode.

(** A [str] as the regular expression sees it. *)
Definition text := list N.

(** The code points of a literal written in ASCII. *)
Definition of_string (s : string) : text :=
  map N_of_ascii (list_ascii_of_string s).

(** [\s] on [str]: the white space of Unicode. *)
Definition spaces : list N :=
  [
   9; 10; 11; 12; 13; 28; 29; 30; 31; 32;
   133; 160; 5760; 8192; 8193; 8194; 8195; 8196; 8197; 8198;
   8199; 8200; 8201; 8202; 8232; 8233; 8239; 8287; 12288
  ]%N.

Definition is_space (c : N) : bool := existsb (N.eqb c) spaces.

(** [\d] on [str]: the decimal digits of Unicode come in blocks of ten (or
    of a multiple of ten), each starting with a zero; a block is given by
    its first code point and its length. *)
Definition digit_blocks : list (N * N) :=
  [
   (48, 10); (1632, 10); (1776, 10); (1984, 10); (2406, 10);
   (2534, 10); (2662, 10); (2790, 10); (2918, 10); (3046, 10);
   (3174, 10); (3302, 10); (3430, 10); (3558, 10); (3664, 10);
   (3792, 10); (3872, 10); (4160, 10); (4240, 10); (6112, 10);
   (6160, 10); (6470, 10); (6608, 10); (6784, 10); (6800, 10);
   (6992, 10); (7088, 10); (7232, 10); (7248, 10); (42528, 10);
   (43216, 10); (43264, 10); (43472, 10); (43504, 10); (43600, 10);
   (44016, 10); (65296, 10); (66720, 10); (68912, 10); (69734, 10);
   (69872, 10); (69942, 10); (70096, 10); (70384, 10); (70736, 10);
   (70864, 10); (71248, 10); (71360, 10); (71472, 10); (71904, 10);
   (72016, 10); (72784, 10); (73040, 10); (73120, 10); (92768, 10);
   (92864, 10); (93008, 10); (120782, 50); (123200, 10); (123632, 10);
   (125264, 10); (130032, 10)
  ]%N.

Definition block_of (c : N) : option (N * N) :=
  List.find (fun b : N * N => (fst b <=? c) && (c <? fst b + snd b))%N digit_blocks.

Definition is_digit (c : N) : bool :=
  match block_of c with
  | Some _ => true
  | None => false
  end.

(** The value [int] gives a digit. *)
Definition digit_value (c : N) : Z :=
  match block_of c with
  | Some b => Z.of_N ((c - fst b) mod 10)%N
  | None => 0
  end.

(** The number a string of digits writes in base ten. *)
Definition value (s : text) : Z :=
  fold_left (fun acc c => 10 * acc + digit_value c) s 0.

(** [sys.get_int_max_str_digits()], by default. *)
Definition int_max_str_digits : nat := 4300.

(** What [re.IGNORECASE] compares: a character of the text matches a
    character of the pattern when both have the same image.  Besides the
    ASCII letters, [re] lets U+0130 and U+0131 match [i], U+017F match [s]
    and U+212A match [k]; this is exact for the characters of an ASCII
    pattern. *)
Definition fold (c : N) : N :=
  if ((65 <=? c) && (c <=? 90))%N then (c + 32)%N
  else if ((c =? 304) || (c =? 305))%N then 105%N
  else if (c =? 383)%N then 115%N
  else if (c =? 8490)%N then 107%N
  else c.

Definition folded (s : text) : text := map fold s.

End Unicode.
(** ** The fragment of [re] used by the bots *)

Module Re.
Import Unicode.

Inductive atom :=
| Lit (c : N)                (* a literal character *)
| OneOf (cs : list N)        (* [...] *)
| Space                      (* \s *)
| Digit.                     (* \d *)

Inductive regex :=
| Eps
| Atom (a : atom)
| Cat (r1 r2 : regex)
| Alt (r1 r2 : regex)        (* r1|r2 *)
| Opt (r : regex)            (* (?:r)? , greedy *)
| Plus (a : atom)            (* a+ , greedy *)
| Group (r : regex).         (* (r) , the capturing group *)

(** A literal word, character by character. *)
Fixpoint word (s : text) : regex :=
  match s with
  | [] => Eps
  | c :: s' => Cat (Atom (Lit c)) (word s')
  end.

(** One character against an atom, under [re.IGNORECASE]. *)
Definition atom_ok (a : atom) (c : N) : bool :=
  match a with
  | Lit x => N.eqb (fold c) (fold x)
  | OneOf cs => existsb (fun x => N.eqb (fold c) (fold x)) cs
  | Space => is_space c
  | Digit => is_digit c
  end.

Section Matcher.
Context {X : Type}.

(** [a+]: take as many characters as possible, give back one at a time. *)
Fixpoint plus_atom (a : atom) (s : text) (k : text -> option X) : option X :=
  match s with
  | c :: s' =>
      if atom_ok a c then
        match plus_atom a s' k with
        | Some x => Some x
        | None => k s'
        end
      else None
  | [] => None
  end.

(** Backtracking matcher anchored at the head of [s]; [g] is the text of
    the capturing group so far, [k] the continuation. *)
Fixpoint rmatch (r : regex) (g : option text) (s : text)
         (k : option text -> text -> option X) : option X :=
  match r with
  | Eps => k g s
  | Atom a =>
      match s with
      | c :: s' => if atom_ok a c then k g s' else None
      | [] => None
      end
  | Cat r1 r2 => rmatch r1 g s (fun g' s' => rmatch r2 g' s' k)
  | Alt r1 r2 =>
      match rmatch r1 g s k with
      | Some x => Some x
      | None => rmatch r2 g s k
      end
  | Opt r1 =>
      match rmatch r1 g s k with
      | Some x => Some x
      | None => k g s
      end
  | Plus a => plus_atom a s (k g)
  | Group r1 =>
      rmatch r1 g s
        (fun _ s' => k (Some (take (length s - length s') s)) s')
  end.
End Matcher.

(** A match at the head of [s]: the captured group and the rest. *)
Definition match_here (r : regex) (s : text) : option (text * text) :=
  rmatch r None s (fun g rest => Some (default [] g, rest)).

(** [re.findall] for a pattern with one group: the captures of the
    non-overlapping matches, scanning from the left.  After a match the scan
    resumes where the match ended (one character further after an empty
    match); [fuel] bounds the number of positions tried. *)
Fixpoint findall_from (fuel : nat) (r : regex) (s : text) : list text :=
  match fuel with
  | O => []
  | S n =>
      match match_here r s with
      | Some (cap, rest) =>
          cap :: (if (length rest <? length s)%nat
                  then findall_from n r rest
                  else match s with
                       | [] => []
                       | _ :: s' => findall_from n r s'
                       end)
      | None =>
          match s with
          | [] => []
          | _ :: s' => findall_from n r s'
          end
      end
  end.

Definition findall (r : regex) (s : text) : list text :=
  findall_from (S (length s)) r s.

End Re.

(** ** The issue tracker *)

Module Tracker.

Record User := { login : string; utype : string }.

Record Comment := {
  c_user : User;
  c_body : string;
  c_created_at : Z
}.

Record Review := { r_state : string; r_submitted_at : Z }.

(** [cm_author] is [commit.author] (the account, possibly absent),
    [cm_date] is [commit.commit.author.date]. *)
Record Commit := { cm_author : option User; cm_date : Z }.

(** A pull request as the tracker holds it; [pr_commits] is what
    [repo.get_commits(sha=pr.head.sha)] lists. *)
Record PullRequest := {
  pr_user : User;
  pr_body : option Unicode.text;
  pr_state : string;
  pr_labels : list string;
  pr_reviews : list Review;
  pr_commits : list Commit;
  pr_comments : list Comment
}.

(** A [PullRequest] object of the client library: its attributes were read
    when it was fetched, its methods query the tracker by number. *)
Record Pull := { pr_number : Z; fetched : PullRequest }.

(** [i_assignees] holds the logins of [issue.assignees]. *)
Record Issue := {
  i_pull_request : bool;
  i_assignees : list string;
  i_comments : list Comment
}.

(** The exceptions the bots meet: an error answer of the tracker, and the
    [ValueError] of [int]. *)
Inductive exn := GithubException (status : Z) | ValueError.

(** The writes a bot can make. *)
Inductive Mutation :=
| PrComment (n : Z) (body : string)        (* pr.create_issue_comment *)
| PrEdit (n : Z) (state : string)          (* pr.edit(state=..) *)
| PrAddLabel (n : Z) (l : string)          (* pr.add_to_labels *)
| PrRemoveLabel (n : Z) (l : string)       (* pr.remove_from_labels *)
| IssueComment (n : Z) (body : string)     (* issue.create_comment *)
| AddAssignee (n : Z) (who : string)       (* issue.add_to_assignees *)
| RemoveAssignee (n : Z) (who : string).   (* issue.remove_from_assignees *)

(** [faults] schedules the outcome of the coming remote calls ([Some e]:
    the call raises [e]); [log] records the writes in order; [hash_order]
    is the order of the interpreter on sets of integers: the list it
    proposes for a set built from the given numbers, one after the other. *)
Record World := {
  pulls : gmap Z PullRequest;
  issues : gmap Z Issue;
  now : Z;
  me : User;
  faults : list (option exn);
  log : list Mutation;
  hash_order : list Z -> list Z
}.

Definition set_pulls (f : gmap Z PullRequest -> gmap Z PullRequest) (w : World) : World :=
  {| pulls := f (pulls w); issues := issues w; now := now w; me := me w;
     faults := faults w; log := log w; hash_order := hash_order w |}.
Definition set_issues (f : gmap Z Issue -> gmap Z Issue) (w : World) : World :=
  {| pulls := pulls w; issues := f (issues w); now := now w; me := me w;
     faults := faults w; log := log w; hash_order := hash_order w |}.
Definition set_now (t : Z) (w : World) : World :=
  {| pulls := pulls w; issues := issues w; now := t; me := me w;
     faults := faults w; log := log w; hash_order := hash_order w |}.
Definition set_faults (fs : list (option exn)) (w : World) : World :=
  {| pulls := pulls w; issues := issues w; now := now w; me := me w;
     faults := fs; log := log w; hash_order := hash_order w |}.
Definition record (m : Mutation) (w : World) : World :=
  {| pulls := pulls w; issues := issues w; now := now w; me := me w;
     faults := faults w; log := log w ++ [m]; hash_order := hash_order w |}.

(** *** Computations that read and write the tracker and may raise *)

Inductive Res (A : Type) := Ok (a : A) | Raise (e : exn).
Arguments Ok {A} a.
Arguments Raise {A} e.

Definition M (A : Type) : Type := World -> Res A * World.

Definition ret {A} (a : A) : M A := fun w => (Ok a, w).
Definition raise {A} (e : exn) : M A := fun w => (Raise e, w).
Definition bind {A B} (m : M A) (k : A -> M B) : M B :=
  fun w => match m w with
           | (Ok a, w') => k a w'
           | (Raise e, w') => (Raise e, w')
           end.
(** [try: m  except Exception as e: h e] *)
Definition try_except {A} (m : M A) (h : exn -> M A) : M A :=
  fun w => match m w with
           | (Ok a, w') => (Ok a, w')
           | (Raise e, w') => h e w'
           end.

(** [for x in xs], with the loop-carried variables as accumulator. *)
Fixpoint for_each {X S} (xs : list X) (s : S) (body : S -> X -> M S) : M S :=
  match xs with
  | [] => ret s
  | x :: xs' => bind (body s x) (fun s' => for_each xs' s' body)
  end.

Declare Scope tracker_scope.
Delimit Scope tracker_scope with M.
Notation "'let*' x ':=' m 'in' k" := (bind m (fun x => k))
  (at level 10, x name, m at level 100, k at level 200) : tracker_scope.

(** One remote call: the next entry of the schedule decides whether it
    raises before reaching the tracker. *)
Definition remote {A} (op : M A) : M A :=
  fun w => match faults w with
           | Some e :: fs => (Raise e, set_faults fs w)
           | None :: fs => op (set_faults fs w)
           | [] => op w
           end.

Definition not_found : exn := GithubException 404.

Definition with_pull {A} (n : Z) (f : PullRequest -> M A) : M A :=
  fun w => match pulls w !! n with
           | Some pr => f pr w
           | None => (Raise not_found, w)
           end.
Definition with_issue {A} (n : Z) (f : Issue -> M A) : M A :=
  fun w => match issues w !! n with
           | Some i => f i w
           | None => (Raise not_found, w)
           end.
Definition write (m : Mutation) : M unit := fun w => (Ok tt, record m w).
Definition update_pull (n : Z) (pr : PullRequest) : M unit :=
  fun w => (Ok tt, set_pulls (insert n pr) w).
Definition update_issue (n : Z) (i : Issue) : M unit :=
  fun w => (Ok tt, set_issues (insert n i) w).

Definition set_pr_state (s : string) (pr : PullRequest) : PullRequest :=
  {| pr_user := pr_user pr; pr_body := pr_body pr;
     pr_state := s; pr_labels := pr_labels pr; pr_reviews := pr_reviews pr;
     pr_commits := pr_commits pr; pr_comments := pr_comments pr |}.
Definition set_pr_labels (ls : list string) (pr : PullRequest) : PullRequest :=
  {| pr_user := pr_user pr; pr_body := pr_body pr;
     pr_state := pr_state pr; pr_labels := ls; pr_reviews := pr_reviews pr;
     pr_commits := pr_commits pr; pr_comments := pr_comments pr |}.
Definition set_pr_comments (cs : list Comment) (pr : PullRequest) : PullRequest :=
  {| pr_user := pr_user pr; pr_body := pr_body pr;
     pr_state := pr_state pr; pr_labels := pr_labels pr; pr_reviews := pr_reviews pr;
     pr_commits := pr_commits pr; pr_comments := cs |}.
Definition set_i_assignees (l : list string) (i : Issue) : Issue :=
  {| i_pull_request := i_pull_request i;
     i_assignees := l; i_comments := i_comments i |}.
Definition set_i_comments (cs : list Comment) (i : Issue) : Issue :=
  {| i_pull_request := i_pull_request i;
     i_assignees := i_assignees i; i_comments := cs |}.

Definition new_comment (body : string) (w : World) : Comment :=
  {| c_user := me w; c_body := body; c_created_at := now w |}.

Local Open Scope tracker_scope.

(** *** Reads *)

(** [repo.get_issue(n)] *)
Definition get_issue (n : Z) : M Issue := remote (with_issue n ret).
(** [repo.get_pull(n)] *)
Definition get_pull (n : Z) : M Pull :=
  remote (with_pull n (fun pr => ret {| pr_number := n; fetched := pr |})).
(** [list(repo.get_pulls(state='open'))] *)
Definition get_pulls_open : M (list Pull) :=
  remote (fun w =>
    (Ok (map (fun p : Z * PullRequest => {| pr_number := fst p; fetched := snd p |})
             (filter (fun p : Z * PullRequest => pr_state (snd p) = "open"%string)
                     (map_to_list (pulls w)))), w)).
(** [list(pr.get_labels())], as names *)
Definition get_labels (n : Z) : M (list string) :=
  remote (with_pull n (fun pr => ret (pr_labels pr))).
(** [list(pr.get_reviews())] *)
Definition get_reviews (n : Z) : M (list Review) :=
  remote (with_pull n (fun pr => ret (pr_reviews pr))).
(** [list(pr.get_issue_comments())] *)
Definition get_issue_comments (n : Z) : M (list Comment) :=
  remote (with_pull n (fun pr => ret (pr_comments pr))).
(** [list(repo.get_commits(sha=pr.head.sha))] *)
Definition get_commits (n : Z) : M (list Commit) :=
  remote (with_pull n (fun pr => ret (pr_commits pr))).

(** *** Writes *)

(** [pr.create_issue_comment(body)] *)
Definition create_issue_comment (n : Z) (body : string) : M unit :=
  remote (with_pull n (fun pr w =>
    (let* _ := update_pull n
                 (set_pr_comments (pr_comments pr ++ [new_comment body w]) pr) in
     write (PrComment n body)) w)).
(** [pr.edit(state=s)] *)
Definition edit_state (n : Z) (s : string) : M unit :=
  remote (with_pull n (fun pr =>
    let* _ := update_pull n (set_pr_state s pr) in
    write (PrEdit n s))).
(** [pr.add_to_labels(l)] *)
Definition add_to_labels (n : Z) (l : string) : M unit :=
  remote (with_pull n (fun pr =>
    let* _ := update_pull n (set_pr_labels
                (if bool_decide (l ∈ pr_labels pr) then pr_labels pr
                 else pr_labels pr ++ [l]) pr) in
    write (PrAddLabel n l))).
(** [pr.remove_from_labels(l)]; the tracker answers 404 for a label the
    pull request does not carry. *)
Definition remove_from_labels (n : Z) (l : string) : M unit :=
  remote (with_pull n (fun pr =>
    if bool_decide (l ∈ pr_labels pr) then
      let* _ := update_pull n
                  (set_pr_labels (filter (fun x => x ≠ l) (pr_labels pr)) pr) in
      write (PrRemoveLabel n l)
    else raise not_found)).
(** [issue.create_comment(body)] *)
Definition create_comment (n : Z) (body : string) : M unit :=
  remote (with_issue n (fun i w =>
    (let* _ := update_issue n
                 (set_i_comments (i_comments i ++ [new_comment body w]) i) in
     write (IssueComment n body)) w)).
(** [issue.add_to_assignees(who)] *)
Definition add_to_assignees (n : Z) (who : string) : M unit :=
  remote (with_issue n (fun i =>
    let* _ := update_issue n (set_i_assignees
                (if bool_decide (who ∈ i_assignees i) then i_assignees i
                 else i_assignees i ++ [who]) i) in
    write (AddAssignee n who))).
(** [issue.remove_from_assignees(who)] *)
Definition remove_from_assignees (n : Z) (who : string) : M unit :=
  remote (with_issue n (fun i =>
    let* _ := update_issue n
                (set_i_assignees (filter (fun x => x ≠ who) (i_assignees i)) i) in
    write (RemoveAssignee n who))).

(** *** Clock *)

(** [datetime.now(timezone.utc)] *)
Definition utcnow : M Z := fun w => (Ok (now w), w).
(** [time.sleep], in microseconds *)
Definition sleep (us : Z) : M unit := fun w => (Ok tt, set_now (now w + us) w).

(** [str(n)] for an integer *)
Definition str (n : Z) : string := DecimalString.NilZero.string_of_int (Z.to_int n).

End Tracker.


(** ** The order of a set of integers in CPython 3.11 *)

Module CPython.

(** [hash(n)] for a non-negative integer. *)
Definition hash (n : Z) : Z := n mod (2 ^ 61 - 1).

Definition LINEAR_PROBES : nat := 9.
Definition PERTURB_SHIFT : Z := 5.
Definition PySet_MINSIZE : Z := 8.

(** The slots of the hash table of a set; the mask is their number less one. *)
Definition table := list (option Z).

Definition mask_of (t : table) : Z := Z.of_nat (length t) - 1.

Inductive slot :=
| Unused (j : nat)   (* the key goes to the free slot [j] *)
| Active.            (* the key is in the table already *)

(** The slots [j], [j+1], ... looked at before the next jump: one, and
    [probes] more. *)
Fixpoint linear (t : table) (key : Z) (j : nat) (probes : nat) : option slot :=
  match t !! j with
  | Some None => Some (Unused j)
  | Some (Some k) =>
      if (k =? key) then Some Active
      else match probes with
           | O => None
           | S probes' => linear t key (S j) probes'
           end
  | None => None
  end.

(** The search of [set_add_entry]; [fuel] bounds the number of jumps. *)
Fixpoint probe (fuel : nat) (t : table) (key : Z) (i perturb : Z) : option slot :=
  match fuel with
  | O => None
  | S fuel' =>
      let mask := mask_of t in
      let probes := if (i + Z.of_nat LINEAR_PROBES <=? mask) then LINEAR_PROBES else O in
      match linear t key (Z.to_nat i) probes with
      | Some s => Some s
      | None =>
          let perturb := Z.shiftr perturb PERTURB_SHIFT in
          probe fuel' t key (Z.land (i * 5 + 1 + perturb) mask) perturb
      end
  end.

Definition find_slot (t : table) (key : Z) : option slot :=
  probe (length t + 16) t key (Z.land (hash key) (mask_of t)) (hash key).

(** [set_insert_clean] *)
Definition insert_clean (t : table) (key : Z) : table :=
  match find_slot t key with
  | Some (Unused j) => <[j := Some key]> t
  | _ => t
  end.

(** The size after [set_table_resize]: the first power of two from
    [PySet_MINSIZE] that exceeds [minused]. *)
Fixpoint new_size (fuel : nat) (newsize minused : Z) : Z :=
  match fuel with
  | O => newsize
  | S fuel' =>
      if (newsize <=? minused) then new_size fuel' (2 * newsize) minused
      else newsize
  end.

(** [set_table_resize]: the keys go to the new table in the order of
    their slots. *)
Definition resize (t : table) (minused : Z) : table :=
  fold_left (fun t' entry =>
               match entry with
               | Some key => insert_clean t' key
               | None => t'
               end)
            t (replicate (Z.to_nat (new_size 64 PySet_MINSIZE minused)) None).

(** [set_add_entry] on a table with [fill] keys and no key deleted. *)
Definition add (so : table * Z) (key : Z) : table * Z :=
  let '(t, fill) := so in
  match find_slot t key with
  | Some (Unused j) =>
      let t := <[j := Some key]> t in
      let fill := fill + 1 in
      if (fill * 5 <? mask_of t * 3) then (t, fill)
      else (resize t (if (50000 <? fill) then fill * 2 else fill * 4), fill)
  | _ => so
  end.

(** [list(set(x for x in numbers))], for non-negative integers. *)
Definition set_order (numbers : list Z) : list Z :=
  omap id (fst (fold_left add numbers (replicate (Z.to_nat PySet_MINSIZE) None, 0))).

End CPython.

(** ** Linked issues

    [extract_linked_issues] is defined three times in the source, with the
    same body: [PRReopenBot] (pr_reopen_bot.py, lines 39-46), [PRActivityBot]
    (lines 184-192) and [StalePRBot] (stale_pr_bot.py, lines 98-105). *)

Module Linked.
Import Unicode Re Tracker.
Local Open Scope tracker_scope.

(** [r'(?:fix(?:es)?|close[sd]?|resolve[sd]?)\s+#(\d+)'] *)
Definition issue_pattern : regex :=
  Cat (Alt (Cat (word (of_string "fix")) (Opt (word (of_string "es"))))
      (Alt (Cat (word (of_string "close")) (Opt (Atom (OneOf (of_string "sd")))))
           (Cat (word (of_string "resolve")) (Opt (Atom (OneOf (of_string "sd")))))))
      (Cat (Plus Space)
      (Cat (Atom (Lit 35%N))
           (Group (Plus Digit)))).

(** [int(match)] for a match of [\d+]. *)
Definition int (s : text) : M Z :=
  if (int_max_str_digits <? length s)%nat then raise ValueError
  else ret (value s).

(** The distinct elements of [numbers], listed as [order] proposes.  What
    [order] proposes besides them is dropped, and those it leaves out
    follow in the order of their first occurrence, so that any [order]
    lists exactly the distinct elements. *)
Definition arrange (order : list Z -> list Z) (numbers : list Z) : list Z :=
  let proposed := remove_dups (filter (fun x => x ∈ numbers) (order numbers)) in
  proposed ++ filter (fun x => x ∉ proposed) (remove_dups numbers).

(** [list(set(numbers))] *)
Definition list_of_set (numbers : list Z) : M (list Z) :=
  fun w => (Ok (arrange (hash_order w) numbers), w).

(** Lines 39-46. *)
Definition extract_linked_issues (pr_body : option text) : M (list Z) :=
  match pr_body with
  | None => ret []
  | Some [] => ret []
  | Some body =>
      let matches := findall issue_pattern body in
      let* numbers := for_each matches [] (fun numbers m =>
                        let* n := int m in
                        ret (numbers ++ [n])%list) in
      list_of_set numbers
  end.

End Linked.
(** ** Event payloads and bot objects of [pr_reopen_bot.py] *)

Module Event.

(** The entries of the payload the bots read; [None] is an entry that is
    missing (or null), which [dict.get] turns into its default. *)
Record PullRequestEntry := {
  number : option Z;          (* payload['pull_request']['number'] *)
  user_login : option string; (* payload['pull_request']['user']['login'] *)
  body : option Unicode.text  (* payload['pull_request']['body'] *)
}.

Record Payload := {
  pull_request : option PullRequestEntry;
  issue_number : option Z;            (* payload['issue']['number'] *)
  comment_user_login : option string  (* payload['comment']['user']['login'] *)
}.

(** The fields of [self] set by [__init__] and [load_event_payload]:
    [client] tells whether [self.github] and [self.repo] are set;
    [event_payload] is [None] for a payload that is [None] or empty. *)
Record Bot := {
  client : bool;
  event_name : option string;
  event_payload : option Payload
}.

Definition no_pull_request : PullRequestEntry :=
  {| number := None; user_login := None; body := None |}.

End Event.

(** ** [class PRReopenBot] *)

Module PRReopenBot.
Import Linked Tracker Event.
Local Open Scope tracker_scope.
Local Open Scope string_scope.

(** The f-string of line 74. *)
Definition welcome_message (pr_author : string) (pr_number : Z) : string :=
  "Welcome back, @" ++ pr_author
  ++ "! ðŸŽ‰ This issue has been reassigned to you as you've reopened PR #"
  ++ str pr_number ++ ".".

(** Lines 48-87. *)
Definition reassign_issues_to_author
    (pr_number : Z) (pr_author : string) (pr_body : option Unicode.text) :
    M (list Z) :=
  try_except
    (let* linked_issues := extract_linked_issues pr_body in
     match linked_issues with
     | [] => ret []
     | _ =>
       for_each linked_issues [] (fun reassigned_issues issue_number =>
         try_except
           (let* issue := get_issue issue_number in
            if i_pull_request issue then ret reassigned_issues
            else
              let current_assignees := i_assignees issue in
              if negb (bool_decide (current_assignees = []))
                 && negb (bool_decide (pr_author ∈ current_assignees))
              then ret reassigned_issues
              else if negb (bool_decide (pr_author ∈ current_assignees)) then
                let* _ := add_to_assignees issue_number pr_author in
                let reassigned_issues := (reassigned_issues ++ [issue_number])%list in
                (* the number is already appended when the comment is sent *)
                try_except
                  (let* _ := create_comment issue_number
                               (welcome_message pr_author pr_number) in
                   ret reassigned_issues)
                  (fun _ => ret reassigned_issues)
              else ret reassigned_issues)
           (fun _ => ret reassigned_issues))
     end)
    (fun _ => ret []).

(** Lines 89-105. *)
Definition remove_stale_label (pr_number : Z) : M bool :=
  try_except
    (let* pr := get_pull pr_number in
     let* labels := get_labels (Tracker.pr_number pr) in
     if bool_decide ("stale" ∈ labels) then
       let* _ := remove_from_labels (Tracker.pr_number pr) "stale" in
       ret true
     else ret false)
    (fun _ => ret false).

(** Lines 107-136; [all([pr_number, pr_author])] holds when the number is
    present and not 0 and the login is present and not empty. *)
Definition handle_pr_reopen (self : Bot) : M bool :=
  match event_payload self with
  | None => ret false
  | Some payload =>
    try_except
      (let pr := default no_pull_request (pull_request payload) in
       let pr_number := number pr in
       let pr_author := default "" (user_login pr) in
       let pr_body := body pr in
       match pr_number with
       | Some pr_number =>
         if negb (pr_number =? 0)%Z && negb (bool_decide (pr_author = "")) then
           let* reassigned := reassign_issues_to_author pr_number pr_author pr_body in
           let* _ := remove_stale_label pr_number in
           ret (0 <? length reassigned)%nat
         else ret false
       | None => ret false
       end)
      (fun _ => ret false)
  end.

(** Lines 138-157. *)
Definition run (self : Bot) : M bool :=
  if negb (client self) then ret false
  else
    try_except
      (if bool_decide (event_name self = Some "pull_request_target")
       then handle_pr_reopen self
       else ret false)
      (fun _ => ret false).

End PRReopenBot.

(** ** [class PRActivityBot] *)

Module PRActivityBot.
Import Linked Tracker Event.
Local Open Scope tracker_scope.
Local Open Scope string_scope.

(** The f-string of line 249. *)
Definition encouragement_message (commenter : string) : string :=
  "Thanks for following up, @" ++ commenter
  ++ "! ðŸ™Œ The stale status has been removed and the linked issue(s) have been reassigned to you. Looking forward to your updates!".

(** Lines 194-257. *)
Definition handle_contributor_activity (self : Bot) : M bool :=
  match event_payload self with
  | None => ret false
  | Some payload =>
    try_except
      (let pr_number := issue_number payload in
       let commenter := default "" (comment_user_login payload) in
       match pr_number with
       | Some pr_number =>
         if negb (pr_number =? 0)%Z && negb (bool_decide (commenter = "")) then
           let* pr := get_pull pr_number in
           if negb (bool_decide (commenter = login (pr_user (fetched pr)))) then ret false
           else
             let* labels := get_labels (Tracker.pr_number pr) in
             if negb (bool_decide ("stale" ∈ labels)) then ret false
             else
               let* _ := try_except
                           (remove_from_labels (Tracker.pr_number pr) "stale")
                           (fun _ => ret tt) in
               let* linked_issues :=
                 extract_linked_issues (Some (default [] (pr_body (fetched pr)))) in
               let* reassigned_count :=
                 for_each linked_issues 0%Z (fun reassigned_count issue_number =>
                   try_except
                     (let* issue := get_issue issue_number in
                      if i_pull_request issue then ret reassigned_count
                      else
                        let current_assignees := i_assignees issue in
                        if bool_decide (current_assignees = []) then
                          let* _ := add_to_assignees issue_number commenter in
                          ret (reassigned_count + 1)%Z
                        else ret reassigned_count)
                     (fun _ => ret reassigned_count)) in
               let* _ := create_issue_comment (Tracker.pr_number pr)
                           (encouragement_message commenter) in
               ret true
         else ret false
       | None => ret false
       end)
      (fun _ => ret false)
  end.

(** Lines 259-278. *)
Definition run (self : Bot) : M bool :=
  if negb (client self) then ret false
  else
    try_except
      (if bool_decide (event_name self = Some "issue_comment")
       then handle_contributor_activity self
       else ret false)
      (fun _ => ret false).

End PRActivityBot.

(** ** [class StalePRBot] *)

Module StalePRBot.
Import Text Linked Tracker.
Local Open Scope tracker_scope.
Local Open Scope string_scope.

(** [client] tells whether [self.github] and [self.repo] are set. *)
Record Self := { client : bool }.

Definition DAYS_BEFORE_STALE_WARNING : Z := 7.
Definition DAYS_BEFORE_UNASSIGN : Z := 14.
Definition DAYS_BEFORE_CLOSE : Z := 60.

(** [timedelta.days]: whole days, rounded towards minus infinity. *)
Definition days (microseconds : Z) : Z := (microseconds / 86400000000)%Z.

(** The running maximum kept in [last_author_activity]. *)
Definition later (date : Z) (last_author_activity : option Z) : option Z :=
  match last_author_activity with
  | None => Some date
  | Some last => if (last <? date)%Z then Some date else Some last
  end.

(** Lines 35-65. *)
Definition get_days_since_activity
    (pr : Pull) (last_changes_requested : option Z) : M Z :=
  match last_changes_requested with
  | None => ret 0%Z
  | Some last_changes_requested =>
    try_except
      (let pr_author := login (pr_user (fetched pr)) in
       let last_author_activity : option Z := None in
       let* commits := get_commits (pr_number pr) in
       let last_author_activity :=
         fold_left (fun last_author_activity commit =>
           let commit_date := cm_date commit in
           if (last_changes_requested <? commit_date)%Z then
             match cm_author commit with
             | Some author =>
                 if bool_decide (login author = pr_author)
                 then later commit_date last_author_activity
                 else last_author_activity
             | None => last_author_activity
             end
           else last_author_activity) commits last_author_activity in
       let* comments := get_issue_comments (pr_number pr) in
       let last_author_activity :=
         fold_left (fun last_author_activity comment =>
           if bool_decide (login (c_user comment) = pr_author) then
             let comment_date := c_created_at comment in
             if (last_changes_requested <? comment_date)%Z
             then later comment_date last_author_activity
             else last_author_activity
           else last_author_activity) comments last_author_activity in
       let reference_date := default last_changes_requested last_author_activity in
       let* now := utcnow in
       ret (days (now - reference_date)))
      (fun _ => ret 0%Z)
  end.

(** [list.sort(key=lambda r: r.submitted_at, reverse=True)]: stable,
    latest first. *)
Fixpoint insert_review (r : Review) (l : list Review) : list Review :=
  match l with
  | [] => [r]
  | x :: l' =>
      if (r_submitted_at x <=? r_submitted_at r)%Z then r :: l
      else x :: insert_review r l'
  end.
Definition sort_latest_first (l : list Review) : list Review :=
  foldr insert_review [] l.

(** Lines 67-85. *)
Definition get_last_changes_requested (pr : Pull) : M (option Z) :=
  try_except
    (let* reviews := get_reviews (pr_number pr) in
     let changes_requested_reviews :=
       filter (fun r => r_state r = "CHANGES_REQUESTED") reviews in
     match changes_requested_reviews with
     | [] => ret None
     | _ =>
       let changes_requested_reviews := sort_latest_first changes_requested_reviews in
       ret (r_submitted_at <$> head changes_requested_reviews)
     end)
    (fun _ => ret None).

(** Lines 87-96. *)
Definition has_bot_comment (pr : Pull) (comment_type : string) : M bool :=
  try_except
    (let* comments := get_issue_comments (pr_number pr) in
     ret (existsb (fun comment =>
            bool_decide (utype (c_user comment) = "Bot")
            && contains (lower (of_string comment_type))
                        (lower (of_string (c_body comment)))) comments))
    (fun _ => ret false).

(** Lines 107-133. *)
Definition unassign_linked_issues (pr : Pull) : M Z :=
  try_except
    (let* linked_issues :=
       extract_linked_issues (Some (default [] (pr_body (fetched pr)))) in
     let pr_author := login (pr_user (fetched pr)) in
     for_each linked_issues 0%Z (fun unassigned_count issue_number =>
       try_except
         (let* issue := get_issue issue_number in
          if i_pull_request issue then ret unassigned_count
          else
            let assignees := i_assignees issue in
            if bool_decide (pr_author ∈ assignees) then
              let* _ := remove_from_assignees issue_number pr_author in
              ret (unassigned_count + 1)%Z
            else ret unassigned_count)
         (fun _ => ret unassigned_count)))
    (fun _ => ret 0%Z).

(** The f-string of lines 140-153. *)
Definition close_message (pr_author : string) (days_inactive : Z) : string :=
  "Hi @"
  ++ pr_author
  ++ " 👋,

This pull request has been automatically closed due to **"
  ++ str days_inactive
  ++ " days of inactivity** after changes were requested.

We understand that life gets busy, and we appreciate your initial contribution! 💙

**The door is always open** for you to come back:
- You can **reopen this PR** at any time if you'd like to continue working on it
- Feel free to push new commits addressing the requested changes
- If you reopen the PR, the linked issue will be reassigned to you

If you have any questions or need help, don't hesitate to reach out. We're here to support you!

Thank you for your interest in contributing to OpenWISP! 🙏".

(** Lines 135-166. *)
Definition close_stale_pr (pr : Pull) (days_inactive : Z) : M bool :=
  try_except
    (let pr_author := login (pr_user (fetched pr)) in
     let* _ := create_issue_comment (pr_number pr)
                 (close_message pr_author days_inactive) in
     let* _ := edit_state (pr_number pr) "closed" in
     let* unassigned_count := unassign_linked_issues pr in
     ret true)
    (fun _ => ret false).

(** The f-string of lines 173-185. *)
Definition unassign_message (pr_author : string) (days_inactive : Z) : string :=
  "Hi @"
  ++ pr_author
  ++ " 👋,

This pull request has been marked as **stale** due to **"
  ++ str days_inactive
  ++ " days of inactivity** after changes were requested.

As a result, **the linked issue(s) have been unassigned** from you to allow other contributors to work on it.

However, **you can still continue working on this PR**! If you push new commits or respond to the review feedback:
- The issue will be reassigned to you
- Your contribution is still very welcome

If you need more time or have questions about the requested changes, please let us know. We're happy to help! 🤝

If there's no further activity within **"
  ++ str (DAYS_BEFORE_CLOSE - days_inactive)
  ++ " more days**, this PR will be automatically closed (but can be reopened anytime).".

(** Lines 168-200. *)
Definition mark_pr_stale (pr : Pull) (days_inactive : Z) : M bool :=
  try_except
    (let pr_author := login (pr_user (fetched pr)) in
     let* _ := create_issue_comment (pr_number pr)
                 (unassign_message pr_author days_inactive) in
     let* unassigned_count := unassign_linked_issues pr in
     let* _ := try_except (add_to_labels (pr_number pr) "stale")
                          (fun _ => ret tt) in
     ret true)
    (fun _ => ret false).

(** The f-string of lines 207-220. *)
Definition warning_message (pr_author : string) (days_inactive : Z) : string :=
  "Hi @"
  ++ pr_author
  ++ " 👋,

This is a friendly reminder that this pull request has had **no activity for "
  ++ str days_inactive
  ++ " days** since changes were requested.

We'd love to see this contribution merged! Please take a moment to:
- Address the review feedback
- Push your changes
- Let us know if you have any questions or need clarification

If you're busy or need more time, no worries! Just leave a comment to let us know you're still working on it.

**Note:** If there's no activity within **"
  ++ str (DAYS_BEFORE_UNASSIGN - days_inactive)
  ++ " more days**, the linked issue will be unassigned to allow other contributors to work on it.

Thank you for your contribution! 🙏".

(** Lines 202-228. *)
Definition send_stale_warning (pr : Pull) (days_inactive : Z) : M bool :=
  try_except
    (let pr_author := login (pr_user (fetched pr)) in
     let* _ := create_issue_comment (pr_number pr)
                 (warning_message pr_author days_inactive) in
     ret true)
    (fun _ => ret false).

(** [if tier(...): processed_count += 1] *)
Definition count (processed_count : Z) (done : bool) : Z :=
  if done then (processed_count + 1)%Z else processed_count.

(** The body of the loop of [process_stale_prs] (lines 243-273);
    the result is the new [processed_count]. *)
Definition process_pr (processed_count : Z) (pr : Pull) : M Z :=
  try_except
    (let* last_changes_requested := get_last_changes_requested pr in
     match last_changes_requested with
     | None => ret processed_count   (* continue *)
     | Some _ =>
       let* days_inactive := get_days_since_activity pr last_changes_requested in
       let* processed_count :=
         if (DAYS_BEFORE_CLOSE <=? days_inactive)%Z then
           let* done := close_stale_pr pr days_inactive in
           ret (count processed_count done)
         else if (DAYS_BEFORE_UNASSIGN <=? days_inactive)%Z then
           let* stale := has_bot_comment pr "stale" in
           if stale then ret processed_count
           else
             let* unassigned := has_bot_comment pr "unassigned" in
             if unassigned then ret processed_count
             else
               let* done := mark_pr_stale pr days_inactive in
               ret (count processed_count done)
         else if (DAYS_BEFORE_STALE_WARNING <=? days_inactive)%Z then
           let* reminder := has_bot_comment pr "reminder" in
           if reminder then ret processed_count
           else
             let* warned := has_bot_comment pr "stale warning" in
             if warned then ret processed_count
             else
               let* done := send_stale_warning pr days_inactive in
               ret (count processed_count done)
         else ret processed_count in
       let* _ := sleep 100000 in
       ret processed_count
     end)
    (fun _ => ret processed_count).

(** Lines 230-278. *)
Definition process_stale_prs (self : Self) : M unit :=
  if negb (client self) then ret tt
  else
    try_except
      (let* open_prs := get_pulls_open in
       let* processed_count := for_each open_prs 0%Z process_pr in
       ret tt)
      (fun _ => ret tt).

(** Lines 280-295. *)
Definition run (self : Self) : M bool :=
  if negb (client self) then ret false
  else
    try_except
      (let* _ := process_stale_prs self in ret true)
      (fun _ => ret false).

End StalePRBot.


(** ** Construction of the bots and the scripts' entry points *)

Module Entry.
Import Text Tracker Event.
Local Open Scope tracker_scope.
Local Open Scope string_scope.

(** The environment variables the constructors read with [os.environ.get];
    [None] is a variable that is not set. *)
Record Env := {
  GITHUB_TOKEN : option string;
  REPOSITORY : option string;
  GITHUB_EVENT_NAME : option string
}.

(** [if x:] for what [os.environ.get] returns. *)
Definition truthy (x : option string) : bool :=
  match x with
  | Some s => negb (bool_decide (s = ""))
  | None => false
  end.

(** [self.github.get_repo(name)]: one call to the tracker. *)
Definition get_repo (name : string) : M unit := remote (ret tt).

(** The part the three constructors share (stale_pr_bot.py lines 16-33,
    pr_reopen_bot.py lines 16-33 and 167-178): whether [self.github] and
    [self.repo] end up set. *)
Definition init_client (env : Env) : M bool :=
  if truthy (GITHUB_TOKEN env) && truthy (REPOSITORY env) then
    try_except
      (let* _ := get_repo (default "" (REPOSITORY env)) in
       ret true)
      (fun _ => ret false)
  else ret false.

(** [StalePRBot.__init__] *)
Definition StalePRBot_init (env : Env) : M StalePRBot.Self :=
  let* c := init_client env in
  ret {| StalePRBot.client := c |}.

(** [PRReopenBot.__init__] *)
Definition PRReopenBot_init (env : Env) : M Bot :=
  let* c := init_client env in
  ret {| client := c; event_name := GITHUB_EVENT_NAME env; event_payload := None |}.

(** [PRActivityBot.__init__] *)
Definition PRActivityBot_init (env : Env) : M Bot :=
  let* c := init_client env in
  ret {| client := c; event_name := GITHUB_EVENT_NAME env; event_payload := None |}.

(** [load_event_payload] of both classes. *)
Definition load_event_payload (self : Bot) (event_payload : option Payload) : Bot :=
  {| client := client self; event_name := event_name self;
     event_payload := event_payload |}.

(** The script of stale_pr_bot.py (lines 298-300). *)
Definition stale_pr_bot_main (env : Env) : M unit :=
  let* bot := StalePRBot_init env in
  let* _ := StalePRBot.run bot in
  ret tt.

(** The script of pr_reopen_bot.py (lines 281-300).  [read path] is what
    [json.load] makes of the file at [path], [None] when opening or parsing
    it raises (the bot then keeps the payload it was built with, [None]) or
    when what is loaded is empty. *)
Definition pr_reopen_bot_main
    (argv : list string) (env : Env) (read : string -> option Payload) : M unit :=
  match argv with
  | script :: path :: _ =>
      if contains (of_string "activity") (of_string script) then
        let* bot := PRActivityBot_init env in
        let bot := match read path with
                   | Some event_payload => load_event_payload bot (Some event_payload)
                   | None => bot
                   end in
        let* _ := PRActivityBot.run bot in
        ret tt
      else
        let* bot := PRReopenBot_init env in
        let bot := match read path with
                   | Some event_payload => load_event_payload bot (Some event_payload)
                   | None => bot
                   end in
        let* _ := PRReopenBot.run bot in
        ret tt
  | _ => ret tt
  end.

End Entry.

(** ** What the specification says of linked issues *)

Module LinkedSpec.
Import Unicode Tracker Linked.

(** The closing keywords, in lower case. *)
Definition keywords : list text :=
  map of_string ["fix"; "fixes"; "close"; "closes"; "closed";
                 "resolve"; "resolves"; "resolved"]%string.

(** A keyword in any letter case, as [re.IGNORECASE] compares letters. *)
Definition is_keyword (kw : text) : Prop := folded kw ∈ keywords.

Definition starts_with_digit (s : text) : bool :=
  match s with
  | c :: _ => is_digit c
  | [] => false
  end.

(** [body] holds, somewhere, a keyword (in any case), white space, [#]
    (code point 35) and the digits [ds], all the digits found there. *)
Definition reference_to (body : text) (ds : text) : Prop :=
  ∃ pre kw ws post,
    body = pre ++ kw ++ ws ++ 35%N :: ds ++ post
    ∧ is_keyword kw
    ∧ ws ≠ [] ∧ forallb is_space ws = true
    ∧ ds ≠ [] ∧ forallb is_digit ds = true
    ∧ starts_with_digit post = false.

(** [body] holds a reference to the issue number [n]. *)
Definition reference (body : text) (n : Z) : Prop :=
  ∃ ds, reference_to body ds ∧ n = value ds.

(** The issue number [k] is referred to in [pr_body]. *)
Definition links (pr_body : option text) (k : Z) : Prop :=
  reference (default [] pr_body) k.

(** No reference of [body] is written with more digits than [int] reads. *)
Definition readable (body : text) : Prop :=
  ∀ ds, reference_to body ds -> (length ds <= int_max_str_digits)%nat.

(** The claim of the specification: for every body the extractor returns
    a collection without duplicates of the numbers the body refers to. *)
Definition extracts_as_specified : Prop :=
  ∀ (pr_body : option text) (w : World),
    ∃ l, extract_linked_issues pr_body w = (Ok l, w)
         ∧ NoDup l ∧ ∀ n, n ∈ l ↔ links pr_body n.

End LinkedSpec.

(** ** Auxiliary definitions for the analysis of [issue_pattern] *)

Module PatternParts.
Import Unicode Re Tracker Linked.
Local Open Scope tracker_scope.

(** The two halves of [issue_pattern]: keyword, then white space, [#], number. *)
Definition head_pattern : regex :=
  Alt (Cat (word (of_string "fix")) (Opt (word (of_string "es"))))
 (Alt (Cat (word (of_string "close")) (Opt (Atom (OneOf (of_string "sd")))))
      (Cat (word (of_string "resolve")) (Opt (Atom (OneOf (of_string "sd")))))).

Definition tail_pattern : regex :=
  Cat (Plus Space) (Cat (Atom (Lit 35%N)) (Group (Plus Digit))).

(** The continuation [match_here] ends with. *)
Definition final (g : option text) (rest : text) : option (text * text) :=
  Some (default [] g, rest).

(** The characters a match can begin with. *)
Definition starter (c : N) : bool :=
  existsb (N.eqb (fold c)) (of_string "fcr").

Definition not_starter (c : N) : bool := negb (starter c).

(** The loop that reads the numbers of the matches. *)
Definition read_numbers (matches : list text) (acc : list Z) : M (list Z) :=
  for_each matches acc (fun numbers m =>
    let* n := int m in
    ret (numbers ++ [n])%list).

End PatternParts.

(** ** Vocabulary for statements about runs *)

Module Runs.
Import Tracker.

(** The world once the next [k] scheduled outcomes have been consumed. *)
Definition skip (k : nat) (w : World) : World := set_faults (drop k (faults w)) w.

(** None of the next [k] remote calls is scheduled to raise. *)
Fixpoint calm (k : nat) (fs : list (option exn)) : bool :=
  match k with
  | O => true
  | S k' =>
      match fs with
      | Some _ :: _ => false
      | None :: fs' => calm k' fs'
      | [] => true
      end
  end.

(** [w'] differs from [w] at most by the schedule: nothing was written and
    the clock did not move. *)
Definition untouched (w w' : World) : Prop :=
  pulls w' = pulls w ∧ issues w' = issues w ∧ log w' = log w
  ∧ now w' = now w ∧ me w' = me w.

(** The issue a write is made on, for the writes made on issues. *)
Definition on_issue (m : Mutation) : option Z :=
  match m with
  | IssueComment n _ | AddAssignee n _ | RemoveAssignee n _ => Some n
  | _ => None
  end.

(** The pull request a write is made on, for the writes made on pull requests. *)
Definition on_pull (m : Mutation) : option Z :=
  match m with
  | PrComment n _ | PrEdit n _ | PrAddLabel n _ | PrRemoveLabel n _ => Some n
  | _ => None
  end.

(** The issues a sequence of writes assigns, in order. *)
Definition assigned (l : list Mutation) : list Z :=
  omap (fun m => match m with AddAssignee n _ => Some n | _ => None end) l.

(** Every run of [m] relates the world before to the world after by [R]. *)
Definition keeps {A} (R : World -> World -> Prop) (m : M A) : Prop :=
  ∀ w, R w (snd (m w)).

(** [R] relates a world to what any read, any clock move and any write on
    the pull request [q] makes of it. *)
Record closed_for (q : Z) (R : World -> World -> Prop) : Prop := {
  closed_pre : PreOrder R;
  closed_skip : ∀ w, R w (skip 1 w);
  closed_now : ∀ w t, R w (set_now t w);
  closed_pull : ∀ w pr, R w (set_pulls (insert q pr) w);
  closed_record_pull : ∀ w m, on_pull m = Some q -> R w (record m w)
}.

(** [R] relates a world to what any write on an issue makes of it. *)
Record closed_issues (R : World -> World -> Prop) : Prop := {
  closed_issue : ∀ w k i, R w (set_issues (insert k i) w);
  closed_record_issue : ∀ w m, on_pull m = None -> R w (record m w)
}.

(** The record of writes only grows. *)
Definition log_grows (w w' : World) : Prop := ∃ delta, log w' = log w ++ delta.

(** The pull request [n] is as before and no write on it was recorded. *)
Definition spares (n : Z) (w w' : World) : Prop :=
  pulls w' !! n = pulls w !! n
  ∧ ∃ delta, log w' = log w ++ delta ∧ Forall (fun m => on_pull m ≠ Some n) delta.

(** No issue has changed and no write on an issue was recorded. *)
Definition issue_neutral (w w' : World) : Prop :=
  issues w' = issues w
  ∧ ∃ delta, log w' = log w ++ delta ∧ Forall (fun m => on_issue m = None) delta.

(** The interpreter lists sets as before. *)
Definition same_order (w w' : World) : Prop := hash_order w' = hash_order w.

End Runs.

(** ** What the specification says of the stale-PR bot *)

Module StaleSpec.
Import Text Tracker Runs StalePRBot.

(** The dates of the commits authored by [author] after [t]. *)
Definition commit_dates (author : string) (t : Z) (p : PullRequest) : list Z :=
  cm_date <$>
    List.filter (fun c => (t <? cm_date c)%Z
                          && match cm_author c with
                             | Some u => bool_decide (login u = author)
                             | None => false
                             end) (pr_commits p).

(** The dates of the comments made by [author] after [t]. *)
Definition comment_dates (author : string) (t : Z) (p : PullRequest) : list Z :=
  c_created_at <$>
    List.filter (fun c => bool_decide (login (c_user c) = author)
                          && (t <? c_created_at c)%Z) (pr_comments p).

(** The latest of a list of dates. *)
Fixpoint latest (l : list Z) : option Z :=
  match l with
  | [] => None
  | x :: l' => Some (match latest l' with Some m => Z.max x m | None => x end)
  end.

(** The reference point: the latest activity of the author after the review
    at [t], or [t] itself. *)
Definition reference_point (author : string) (t : Z) (p : PullRequest) : Z :=
  default t (latest (commit_dates author t p ++ comment_dates author t p)).

(** Whole days from the reference point to [now]. *)
Definition days_inactive (now : Z) (author : string) (t : Z) (p : PullRequest) : Z :=
  ((now - reference_point author t p) / 86400000000)%Z.

(** The latest submission among the reviews that request changes. *)
Definition last_changes_requested (p : PullRequest) : option Z :=
  latest (r_submitted_at <$>
            List.filter (fun r => bool_decide (r_state r = "CHANGES_REQUESTED"%string))
                        (pr_reviews p)).

(** [needle] occurs in [hay]. *)
Definition occurs_in (needle hay : text) : Prop :=
  ∃ pre post, hay = pre ++ needle ++ post.

(** Some comment of a bot holds [marker], letter case aside. *)
Definition bot_said (marker : string) (p : PullRequest) : Prop :=
  ∃ c, c ∈ pr_comments p ∧ utype (c_user c) = "Bot"%string
       ∧ occurs_in (lower (of_string marker)) (lower (of_string (c_body c))).

(** The pause between two pull requests. *)
Definition paused (w : World) : World := set_now (now w + 100000) w.

(** The iteration for a pull request ran [tier] from the world [w] and
    nothing else but the pause. *)
Definition fires (tier : Pull -> Z -> M bool) (pr : Pull) (d c : Z)
           (w : World) (outcome : Res Z * World) : Prop :=
  ∃ done w', tier pr d w = (Ok done, w') ∧ outcome = (Ok (count c done), paused w').

(** The iteration wrote nothing. *)
Definition idle (c : Z) (w : World) (outcome : Res Z * World) : Prop :=
  ∃ w', outcome = (Ok c, w')
        ∧ pulls w' = pulls w ∧ issues w' = issues w ∧ log w' = log w.

(** Listing the commits and then the comments of the pull request [n] does
    not go through: one of the two calls is scheduled to raise, or the
    tracker does not know [n]. *)
Definition fetch_fails (n : Z) (w : World) : Prop :=
  (∃ e, head (faults w) = Some (Some e))
  ∨ (∃ e, faults w !! 1%nat = Some (Some e))
  ∨ pulls w !! n = None.

(** An iteration lists the reviews, then the commits, then the comments,
    and lists the comments again for each guard.  Here every listing of the
    comments is scheduled to raise and every other call goes through. *)
Definition comment_listing_fails (w : World) : Prop :=
  ∃ e3 e4 e5, faults w = [None; None; Some e3; Some e4; Some e5].

(** The claim of the specification on a failing retrieval of comments:
    for an open pull request whose inactivity is that of a guarded tier and
    whose comments cannot be listed, the iteration posts the comment of the
    tier, whatever comments the pull request has. *)
Definition guards_bypassed_as_specified : Prop :=
  ∀ (c n : Z) (p : PullRequest) (t d : Z) (w : World),
    pulls w !! n = Some p ->
    last_changes_requested p = Some t ->
    d = days_inactive (now w) (login (pr_user p)) t p ->
    7 <= d < 60 ->
    comment_listing_fails w ->
    ∃ rest,
      log (snd (process_pr c {| pr_number := n; fetched := p |} w))
      = log w ++ PrComment n ((if (14 <=? d)%Z then unassign_message
                               else warning_message) (login (pr_user p)) d) :: rest.

End StaleSpec.

(** ** Auxiliary definitions for the analysis of [process_pr] *)

Module StaleParts.
Import Tracker StalePRBot.
Local Open Scope tracker_scope.
Local Open Scope string_scope.

(** The choice of the tier in [process_pr] (lines 253-266). *)
Definition dispatch (processed_count : Z) (pr : Pull) (days_inactive : Z) : M Z :=
  if (DAYS_BEFORE_CLOSE <=? days_inactive)%Z then
    let* done := close_stale_pr pr days_inactive in
    ret (count processed_count done)
  else if (DAYS_BEFORE_UNASSIGN <=? days_inactive)%Z then
    let* stale := has_bot_comment pr "stale" in
    if stale then ret processed_count
    else
      let* unassigned := has_bot_comment pr "unassigned" in
      if unassigned then ret processed_count
      else
        let* done := mark_pr_stale pr days_inactive in
        ret (count processed_count done)
  else if (DAYS_BEFORE_STALE_WARNING <=? days_inactive)%Z then
    let* reminder := has_bot_comment pr "reminder" in
    if reminder then ret processed_count
    else
      let* warned := has_bot_comment pr "stale warning" in
      if warned then ret processed_count
      else
        let* done := send_stale_warning pr days_inactive in
        ret (count processed_count done)
  else ret processed_count.

End StaleParts.

(** ** What the specification says of the reopen and activity bots *)

Module ReopenSpec.
Import Linked Tracker Event Runs PRReopenBot.

(** The pull request number, author and body a payload provides; [None]
    when the payload is absent or lacks the number or the author. *)
Definition reopened (self : Bot) : option (Z * string * option Unicode.text) :=
  match event_payload self with
  | None => None
  | Some payload =>
      match pull_request payload with
      | None => None
      | Some entry =>
          match number entry, user_login entry with
          | Some n, Some a =>
              if bool_decide (n ≠ 0) && bool_decide (a ≠ ""%string)
              then Some (n, a, body entry) else None
          | _, _ => None
          end
      end
  end.

(** The author of the reopened pull request, as the payload names it. *)
Definition author (self : Bot) : string :=
  match event_payload self with
  | Some payload =>
      default ""%string (user_login (default no_pull_request (pull_request payload)))
  | None => ""%string
  end.

(** The author of the comment, as the payload names it. *)
Definition commenter (self : Bot) : string :=
  match event_payload self with
  | Some payload => default ""%string (comment_user_login payload)
  | None => ""%string
  end.

(** The issue [k] is one the specification has reassigned to [a]: it is
    found, it is not a pull request, and it has no assignee other than [a]. *)
Definition specified (a : string) (w : World) (k : Z) : bool :=
  match issues w !! k with
  | Some i => negb (i_pull_request i)
              && forallb (fun x => bool_decide (x = a)) (i_assignees i)
  | None => false
  end.

(** The issue [k] is found, is not a pull request, and has no assignee. *)
Definition unclaimed (w : World) (k : Z) : bool :=
  match issues w !! k with
  | Some i => negb (i_pull_request i) && bool_decide (i_assignees i = [])
  | None => false
  end.

(** The writes that reassign the issue [k] to [a] on reopening [n]. *)
Definition reassignment (n : Z) (a : string) (k : Z) : list Mutation :=
  [AddAssignee k a; IssueComment k (welcome_message a n)].

(** An issue once reassigned to [a] on reopening [n], in the world [w]. *)
Definition reassigned_issue (n : Z) (a : string) (w : World) (i : Issue) : Issue :=
  set_i_comments (i_comments i ++ [new_comment (welcome_message a n) w])
                 (set_i_assignees [a] i).

(** From [w] to [w'] issues were assigned to [a] only, and only issues that
    had no assignee or [a] as their only one; an issue with an assignee
    other than [a] was not written to. *)
Definition disciplined (a : string) (w w' : World) : Prop :=
  ∃ delta, log w' = log w ++ delta
    ∧ (∀ k who, AddAssignee k who ∈ delta ->
         who = a ∧ ∃ i, issues w !! k = Some i
                        ∧ (i_assignees i = [] ∨ i_assignees i = [a]))
    ∧ (∀ k i other, issues w !! k = Some i -> other ∈ i_assignees i -> other ≠ a ->
         issues w' !! k = Some i ∧ ∀ m, m ∈ delta -> on_issue m ≠ Some k).

(** The claim of the specification: without remote failure,
    [reassign_issues_to_author] returns, of the issues [linked] that the
    body links, those that are found, are not pull requests and have no
    assignee other than the author, having made the author an assignee of
    each and posted the welcome comment. *)
Definition reassigns_as_specified : Prop :=
  ∀ (w : World) (n : Z) (a : string) (pr_body : option Unicode.text) (linked : list Z),
    faults w = [] ->
    extract_linked_issues pr_body w = (Ok linked, w) ->
    ∃ w', reassign_issues_to_author n a pr_body w
          = (Ok (List.filter (specified a w) linked), w')
          ∧ log w' = log w
              ++ flat_map (reassignment n a) (List.filter (specified a w) linked).

End ReopenSpec.

(** ** Auxiliary definitions for the analysis of the loops over linked issues *)

Module ReopenParts.
Import Tracker Runs PRReopenBot.
Local Open Scope tracker_scope.

(** The body of the loop of [reassign_issues_to_author] (lines 59-81). *)
Definition reassign_step (pr_number : Z) (pr_author : string)
    (reassigned_issues : list Z) (issue_number : Z) : M (list Z) :=
  try_except
    (let* issue := get_issue issue_number in
     if i_pull_request issue then ret reassigned_issues
     else
       let current_assignees := i_assignees issue in
       if negb (bool_decide (current_assignees = []))
          && negb (bool_decide (pr_author ∈ current_assignees))
       then ret reassigned_issues
       else if negb (bool_decide (pr_author ∈ current_assignees)) then
         let* _ := add_to_assignees issue_number pr_author in
         let reassigned_issues := (reassigned_issues ++ [issue_number])%list in
         try_except
           (let* _ := create_comment issue_number
                        (welcome_message pr_author pr_number) in
            ret reassigned_issues)
           (fun _ => ret reassigned_issues)
       else ret reassigned_issues)
    (fun _ => ret reassigned_issues).

(** The body of the loop of [handle_contributor_activity] (lines 231-246). *)
Definition activity_step (commenter : string)
    (reassigned_count : Z) (issue_number : Z) : M Z :=
  try_except
    (let* issue := get_issue issue_number in
     if i_pull_request issue then ret reassigned_count
     else
       let current_assignees := i_assignees issue in
       if bool_decide (current_assignees = []) then
         let* _ := add_to_assignees issue_number commenter in
         ret (reassigned_count + 1)%Z
       else ret reassigned_count)
    (fun _ => ret reassigned_count).

(** The issue [k], unassigned in [w], is assigned to [a] in [w']; every
    write from [w] to [w'] is on [k], and nothing else has changed. *)
Definition claims (a : string) (k : Z) (w w' : World) : Prop :=
  ∃ i delta,
    issues w !! k = Some i ∧ i_pull_request i = false ∧ i_assignees i = []
    ∧ (∀ k', k' ≠ k -> issues w' !! k' = issues w !! k')
    ∧ pulls w' = pulls w
    ∧ log w' = log w ++ AddAssignee k a :: delta
    ∧ Forall (fun m => ∃ body, m = IssueComment k body) delta.

(** The world after the issue [k], held as [i], was reassigned. *)
Definition after_reassignment (n : Z) (a : string) (k : Z) (i : Issue) (w : World) : World :=
  record (IssueComment k (welcome_message a n))
    (set_issues (insert k (ReopenSpec.reassigned_issue n a w i))
       (record (AddAssignee k a)
          (set_issues (insert k (set_i_assignees [a] i)) w))).

(** From [w0] to [w] the only issues written to are issues that had no
    assignee in [w0], and the only assignments made are to [a]. *)
Definition careful (a : string) (w0 w : World) : Prop :=
  (∃ delta, log w = log w0 ++ delta
     ∧ Forall (fun m => ∀ k, on_issue m = Some k ->
                 (∃ i, issues w0 !! k = Some i ∧ i_assignees i = [])
                 ∧ (∀ u, m = AddAssignee k u -> u = a)) delta)
  ∧ (∀ k, issues w !! k = issues w0 !! k
          ∨ ∃ i, issues w0 !! k = Some i ∧ i_assignees i = []).

End ReopenParts.

(** ** Sample worlds *)

Module Samples.
Import Tracker Event.
Local Open Scope string_scope.

Definition alice : User := {| login := "alice"; utype := "User" |}.
Definition bob : User := {| login := "bob"; utype := "User" |}.
Definition actions_bot : User := {| login := "github-actions[bot]"; utype := "Bot" |}.

Definition day : Z := 86400000000.

(** Pull request 7 by alice, linked to issue 12, with changes requested at
    time 1000 after an earlier approval. *)
Definition pull7 (labels : list string) (commits : list Commit)
    (comments : list Comment) : PullRequest :=
  {| pr_user := alice; pr_body := Some (Unicode.of_string "Fixes #12"); pr_state := "open";
     pr_labels := labels;
     pr_reviews := [ {| r_state := "APPROVED"; r_submitted_at := 10 |};
                     {| r_state := "CHANGES_REQUESTED"; r_submitted_at := 1000 |};
                     {| r_state := "CHANGES_REQUESTED"; r_submitted_at := 500 |} ];
     pr_commits := commits; pr_comments := comments |}.

(** Pull request 8 by bob, never reviewed. *)
Definition pull8 : PullRequest :=
  {| pr_user := bob; pr_body := Some (Unicode.of_string "closes #12"); pr_state := "open";
     pr_labels := []; pr_reviews := [];
     pr_commits := []; pr_comments := [] |}.

Definition issue12 (assignees : list string) : Issue :=
  {| i_pull_request := false; i_assignees := assignees; i_comments := [] |}.

Definition world (p7 : PullRequest) (assignees : list string) (today : Z)
    (schedule : list (option exn)) : World :=
  {| pulls := {[ 7 := p7; 8 := pull8 ]};
     issues := {[ 12 := issue12 assignees ]};
     now := 1000 + today * day + 5;
     me := actions_bot;
     faults := schedule;
     log := [];
     hash_order := CPython.set_order |}.

Definition pr7 (p7 : PullRequest) : Pull := {| pr_number := 7; fetched := p7 |}.

Definition quiet7 : PullRequest := pull7 [] [] [].

(** A comment of the bot that says the pull request is stale. *)
Definition stale_notice : Comment :=
  {| c_user := actions_bot; c_body := "Marked as STALE."; c_created_at := 2000 |}.

(** Activity of alice three days after the review: a commit and a comment. *)
Definition busy7 : PullRequest :=
  pull7 []
    [ {| cm_author := Some alice; cm_date := 1000 + 2 * day |};
      {| cm_author := Some bob; cm_date := 1000 + 9 * day |};
      {| cm_author := None; cm_date := 1000 + 8 * day |};
      {| cm_author := Some alice; cm_date := 900 |} ]
    [ {| c_user := alice; c_body := "working on it"; c_created_at := 1000 + 3 * day |};
      {| c_user := bob; c_body := "any news?"; c_created_at := 1000 + 7 * day |} ].

Definition reopen_event : Bot :=
  {| client := true; event_name := Some "pull_request_target";
     event_payload := Some {| pull_request :=
                                Some {| number := Some 7; user_login := Some "alice";
                                        body := Some (Unicode.of_string "fixes #12") |};
                              issue_number := None;
                              comment_user_login := None |} |}.

Definition comment_payload (who : string) : Payload :=
  {| pull_request := None; issue_number := Some 7; comment_user_login := Some who |}.

Definition comment_event (who : string) : Bot :=
  {| client := true; event_name := Some "issue_comment";
     event_payload := Some (comment_payload who) |}.

(** A body that refers to two issues, and a world that has both. *)
Definition two_references : Unicode.text :=
  Unicode.of_string "fixes #12 closes #5".

Definition with_issue5 (w : World) : World :=
  set_issues (insert 5 (issue12 [])) w.

(** A body with a no-break space, a full-width digit and a long s. *)
Definition exotic_references : Unicode.text :=
  (Unicode.of_string "Fixes" ++ [160%N] ++ Unicode.of_string "#1" ++ [65298%N]
   ++ Unicode.of_string ", clo" ++ [383%N]
   ++ Unicode.of_string "es #5; fix#4, close # 6, resolved #12")%list.

(** A reference written with 4301 digits. *)
Definition long_reference : Unicode.text :=
  (Unicode.of_string "fixes #" ++ repeat 49%N 4301)%list.

End Samples.

(** ** Vocabulary for the effects of single operations and of the tiers *)

Module Effects.
Import Text Linked Tracker Runs.

(** The pull request [p] with one more comment, posted in the world [w]. *)
Definition with_comment (body : string) (w : World) (p : PullRequest) : PullRequest :=
  set_pr_comments (pr_comments p ++ [new_comment body w]) p.

(** The world once [body] is posted on the pull request [n], held as [p]. *)
Definition commented (n : Z) (body : string) (p : PullRequest) (w : World) : World :=
  record (PrComment n body) (set_pulls (insert n (with_comment body w p)) w).

(** The world once the pull request [n], held as [p], is closed. *)
Definition closed (n : Z) (p : PullRequest) (w : World) : World :=
  record (PrEdit n "closed") (set_pulls (insert n (set_pr_state "closed" p)) w).

Definition with_label (l : string) (p : PullRequest) : PullRequest :=
  set_pr_labels (if bool_decide (l ∈ pr_labels p) then pr_labels p
                 else pr_labels p ++ [l]) p.

(** The world once the label [l] is put on the pull request [n], held as [p]. *)
Definition labelled (n : Z) (l : string) (p : PullRequest) (w : World) : World :=
  record (PrAddLabel n l) (set_pulls (insert n (with_label l p)) w).

Definition without_label (l : string) (p : PullRequest) : PullRequest :=
  set_pr_labels (filter (fun x => x ≠ l) (pr_labels p)) p.

(** The world once the label [l] is taken off the pull request [n], held as [p]. *)
Definition unlabelled (n : Z) (l : string) (p : PullRequest) (w : World) : World :=
  record (PrRemoveLabel n l) (set_pulls (insert n (without_label l p)) w).

(** The issue [k] is found, is not a pull request and has [a] among its
    assignees. *)
Definition held (a : string) (w : World) (k : Z) : bool :=
  match issues w !! k with
  | Some i => negb (i_pull_request i) && bool_decide (a ∈ i_assignees i)
  | None => false
  end.

(** The issue [i] once [a] is no longer an assignee. *)
Definition released (a : string) (i : Issue) : Issue :=
  set_i_assignees (filter (fun x => x ≠ a) (i_assignees i)) i.

(** The world once [a] is removed from the issue [k], held as [i]. *)
Definition unassigned (k : Z) (a : string) (i : Issue) (w : World) : World :=
  record (RemoveAssignee k a) (set_issues (insert k (released a i)) w).

(** The world once [a] is added to the issue [k], held as [i]. *)
Definition assigned_to (k : Z) (a : string) (i : Issue) (w : World) : World :=
  record (AddAssignee k a)
    (set_issues (insert k (set_i_assignees
       (if bool_decide (a ∈ i_assignees i) then i_assignees i
        else i_assignees i ++ [a]) i)) w).

(** What a write makes of the pull request it reaches. *)
Definition pull_effect (m : Mutation) (w : World) (p : PullRequest) : PullRequest :=
  match m with
  | PrComment _ body => with_comment body w p
  | PrEdit _ s => set_pr_state s p
  | PrAddLabel _ l => with_label l p
  | PrRemoveLabel _ l => without_label l p
  | _ => p
  end.

(** What a write makes of the issue it reaches. *)
Definition issue_effect (m : Mutation) (w : World) (i : Issue) : Issue :=
  match m with
  | IssueComment _ body => set_i_comments (i_comments i ++ [new_comment body w]) i
  | AddAssignee _ a =>
      set_i_assignees (if bool_decide (a ∈ i_assignees i) then i_assignees i
                       else i_assignees i ++ [a]) i
  | RemoveAssignee _ a => released a i
  | _ => i
  end.

(** [R] relates a world to what any read, any clock move and any write
    that satisfies [ok] makes of it. *)
Record respects (ok : Mutation -> Prop) (R : World -> World -> Prop) : Prop := {
  respects_pre : PreOrder R;
  respects_skip : ∀ w, R w (skip 1 w);
  respects_now : ∀ w t, R w (set_now t w);
  respects_pull : ∀ w n p m,
    pulls w !! n = Some p -> on_pull m = Some n -> ok m ->
    R w (record m (set_pulls (insert n (pull_effect m w p)) w));
  respects_issue : ∀ w k i m,
    issues w !! k = Some i -> on_issue m = Some k -> ok m ->
    R w (record m (set_issues (insert k (issue_effect m w i)) w))
}.

(** From [w] to [w'] every write recorded satisfies [P]. *)
Definition wrote (P : Mutation -> Prop) (w w' : World) : Prop :=
  ∃ delta, log w' = log w ++ delta ∧ Forall P delta.

(** What [repo.get_pulls(state='open')] lists. *)
Definition open_pulls (w : World) : list Pull :=
  map (fun p : Z * PullRequest => {| pr_number := fst p; fetched := snd p |})
      (filter (fun p : Z * PullRequest => pr_state (snd p) = "open"%string)
              (map_to_list (pulls w))).

End Effects.

(** ** Auxiliary definitions for the analysis of [unassign_linked_issues] *)

Module UnassignParts.
Import Tracker StalePRBot.
Local Open Scope tracker_scope.

(** The body of the loop of [unassign_linked_issues] (lines 114-127). *)
Definition unassign_step (pr_author : string)
    (unassigned_count : Z) (issue_number : Z) : M Z :=
  try_except
    (let* issue := get_issue issue_number in
     if i_pull_request issue then ret unassigned_count
     else
       let assignees := i_assignees issue in
       if bool_decide (pr_author ∈ assignees) then
         let* _ := remove_from_assignees issue_number pr_author in
         ret (unassigned_count + 1)%Z
       else ret unassigned_count)
    (fun _ => ret unassigned_count).

End UnassignParts.

(** ** What a run of each bot may write *)

Module Footprints.
Import LinkedSpec Tracker Event Runs StalePRBot Effects ReopenSpec.

(** The writes the stale bot may make when it processes [pr]: one of its
    three comments, closing, the label, and the removal of the author from
    an issue the body refers to. *)
Definition stale_write (pr : Pull) (m : Mutation) : Prop :=
  let author := login (pr_user (fetched pr)) in
  match m with
  | PrComment n body =>
      n = pr_number pr
      ∧ ∃ d, body = close_message author d ∨ body = unassign_message author d
             ∨ body = warning_message author d
  | PrEdit n s => n = pr_number pr ∧ s = "closed"%string
  | PrAddLabel n l => n = pr_number pr ∧ l = "stale"%string
  | RemoveAssignee k who =>
      who = author ∧ links (pr_body (fetched pr)) k
  | PrRemoveLabel _ _ | IssueComment _ _ | AddAssignee _ _ => False
  end.

(** The writes a run of the stale bot may make from the world [w]: those
    for a pull request that is open in [w]. *)
Definition stale_run_write (w : World) (m : Mutation) : Prop :=
  ∃ n p, pulls w !! n = Some p ∧ pr_state p = "open"%string
         ∧ stale_write {| pr_number := n; fetched := p |} m.

(** A write that adds nothing to an issue. *)
Definition no_gain (m : Mutation) : Prop :=
  match m with
  | IssueComment _ _ | AddAssignee _ _ => False
  | _ => True
  end.

(** From [w] to [w'] no issue has appeared or gone, and each has kept its
    comments and lost assignees at most. *)
Definition releases_only (w w' : World) : Prop :=
  ∀ k, match issues w !! k, issues w' !! k with
       | Some i, Some i' =>
           i_pull_request i' = i_pull_request i
           ∧ i_comments i' = i_comments i
           ∧ sublist (i_assignees i') (i_assignees i)
       | None, None => True
       | _, _ => False
       end.

(** The writes a run of the reopen bot may make: for a pull_request_target
    event whose payload names the pull request and its author, the
    assignment of the author to a linked issue, the welcome comment on a
    linked issue, and the removal of the label "stale". *)
Definition reopen_write (self : Bot) (m : Mutation) : Prop :=
  Event.client self = true
  ∧ event_name self = Some "pull_request_target"%string
  ∧ match reopened self with
    | Some (n, a, pr_body) =>
        match m with
        | AddAssignee k who => who = a ∧ links pr_body k
        | IssueComment k text =>
            text = PRReopenBot.welcome_message a n ∧ links pr_body k
        | PrRemoveLabel n' l => n' = n ∧ l = "stale"%string
        | _ => False
        end
    | None => False
    end.

(** The writes a run of the activity bot may make from the world [w]: for
    an issue_comment event on a pull request labelled "stale", by its
    author, the removal of the label, the assignment of the commenter to a
    linked issue, and the encouragement comment. *)
Definition activity_write (self : Bot) (w : World) (m : Mutation) : Prop :=
  Event.client self = true
  ∧ event_name self = Some "issue_comment"%string
  ∧ ∃ payload n p,
      event_payload self = Some payload ∧ issue_number payload = Some n
      ∧ pulls w !! n = Some p
      ∧ login (pr_user p) = commenter self
      ∧ "stale"%string ∈ pr_labels p
      ∧ match m with
        | PrRemoveLabel n' l => n' = n ∧ l = "stale"%string
        | AddAssignee k who =>
            who = commenter self ∧ links (pr_body p) k
        | PrComment n' text =>
            n' = n ∧ text = PRActivityBot.encouragement_message (commenter self)
        | _ => False
        end.

End Footprints.

(** ** More sample worlds *)

Module MoreSamples.
Import Tracker Event StalePRBot Samples.
Local Open Scope string_scope.

(** Pull request 9 by bob, closed long after changes were requested. *)
Definition pull9 : PullRequest :=
  {| pr_user := bob; pr_body := Some (Unicode.of_string "resolves #12"); pr_state := "closed";
     pr_labels := [];
     pr_reviews := [ {| r_state := "CHANGES_REQUESTED"; r_submitted_at := 5 |} ];
     pr_commits := []; pr_comments := [] |}.

Definition with_pull9 (w : World) : World := set_pulls (insert 9 pull9) w.

(** The warning the bot posted for alice on day 10. *)
Definition warning_note : Comment :=
  {| c_user := actions_bot; c_body := warning_message "alice" 10;
     c_created_at := 1000 + 10 * day |}.

(** The same world, the bot running with the token of alice. *)
Definition as_alice (w : World) : World :=
  {| pulls := pulls w; issues := issues w; now := now w; me := alice;
     faults := faults w; log := log w; hash_order := hash_order w |}.

Definition bad_gateway : exn := GithubException 502.

(** The pull request [p] with another body. *)
Definition set_pr_body_sample (b : Unicode.text) (p : PullRequest) : PullRequest :=
  {| pr_user := pr_user p; pr_body := Some b; pr_state := pr_state p;
     pr_labels := pr_labels p; pr_reviews := pr_reviews p;
     pr_commits := pr_commits p; pr_comments := pr_comments p |}.

End MoreSamples.

(** ** Auxiliary definitions for the analysis of [handle_contributor_activity] *)

Module ActivityParts.
Import Linked Tracker ReopenParts.
Local Open Scope tracker_scope.

(** What [handle_contributor_activity] does once it has found that the
    comment is by the author of a pull request labelled "stale"
    (lines 219-254). *)
Definition activity_rest (pr_number : Z) (commenter : string)
    (pr_body : option Unicode.text) : M bool :=
  let* _ := try_except (remove_from_labels pr_number "stale") (fun _ => ret tt) in
  let* linked_issues := extract_linked_issues (Some (default [] pr_body)) in
  let* reassigned_count := for_each linked_issues 0%Z (activity_step commenter) in
  let* _ := create_issue_comment pr_number
              (PRActivityBot.encouragement_message commenter) in
  ret true.

(** A write other than a comment on a pull request. *)
Definition not_pr_comment (m : Mutation) : Prop :=
  match m with
  | PrComment _ _ => False
  | _ => True
  end.

End ActivityParts.

(** * Properties *)

(** ** The matcher *)

Module ReFacts.
Import Unicode Re Linked LinkedSpec PatternParts.

Section ReLemmas.
Context {X : Type}.
Implicit Types (k : option text -> text -> option X) (s m rest : text).

Lemma rmatch_word_app p m rest g k :
  folded m = folded p -> rmatch (word p) g (m ++ rest) k = k g rest.
Proof.
  revert m. induction p as [|c p IH]; intros [|d m] Hm; simpl in *; try discriminate.
  - reflexivity.
  - injection Hm as Hd Hm. rewrite Hd, N.eqb_refl. auto.
Qed.

Lemma rmatch_word_inv p s g k x :
  rmatch (word p) g s k = Some x ->
  ∃ m rest, s = m ++ rest ∧ folded m = folded p ∧ k g rest = Some x.
Proof.
  revert s. induction p as [|c p IH]; intros s H; simpl in *.
  - exists [], s. auto.
  - destruct s as [|d s]; [discriminate|].
    destruct (N.eqb (fold d) (fold c)) eqn:E; [|discriminate].
    apply N.eqb_eq in E.
    destruct (IH _ H) as (m & rest & -> & Hm & Hk).
    exists (d :: m), rest. simpl. rewrite E, Hm. auto.
Qed.

Lemma rmatch_word_head c p d s g k :
  fold d ≠ fold c -> rmatch (word (c :: p)) g (d :: s) k = None.
Proof.
  intros H. simpl. destruct (N.eqb_spec (fold d) (fold c)); congruence.
Qed.

Lemma plus_atom_inv a s (k : text -> option X) x :
  plus_atom a s k = Some x ->
  ∃ m rest, s = m ++ rest ∧ m ≠ [] ∧ forallb (atom_ok a) m = true ∧ k rest = Some x.
Proof.
  induction s as [|c s IH]; simpl; [discriminate|].
  destruct (atom_ok a c) eqn:E; [|discriminate].
  destruct (plus_atom a s k) as [y|] eqn:P.
  - intros [= ->]. destruct (IH eq_refl) as (m & rest & -> & _ & Hm & Hk).
    exists (c :: m), rest. simpl. rewrite E, Hm. auto.
  - intros Hk. exists [c], s. simpl. rewrite E. auto.
Qed.

(** Greedy: when the continuation accepts what follows the longest run, that
    is the split taken. *)
Lemma plus_atom_longest a m rest (k : text -> option X) x :
  m ≠ [] -> forallb (atom_ok a) m = true ->
  match rest with c :: _ => atom_ok a c = false | [] => True end ->
  k rest = Some x ->
  plus_atom a (m ++ rest) k = Some x.
Proof.
  intros Hne Hm Hrest Hk. induction m as [|c m IH]; [done|].
  simpl in *. apply andb_true_iff in Hm as [Hc Hm]. rewrite Hc.
  destruct m as [|c' m].
  - simpl. destruct rest as [|r rest]; simpl; [by rewrite Hk|].
    rewrite Hrest. by rewrite Hk.
  - rewrite IH; auto.
Qed.

End ReLemmas.

Section ReLemmas2.
Context {X : Type}.

Lemma plus_atom_total_none a s (f : text -> X) :
  plus_atom a s (fun r => Some (f r)) = None ->
  match s with c :: _ => atom_ok a c = false | [] => True end.
Proof.
  destruct s as [|c s]; simpl; [done|].
  destruct (atom_ok a c); [|done].
  destruct (plus_atom a s _); discriminate.
Qed.

Lemma plus_atom_total_inv a s (f : text -> X) x :
  plus_atom a s (fun r => Some (f r)) = Some x ->
  ∃ m rest, s = m ++ rest ∧ m ≠ [] ∧ forallb (atom_ok a) m = true
            ∧ match rest with c :: _ => atom_ok a c = false | [] => True end
            ∧ x = f rest.
Proof.
  revert x. induction s as [|c s IH]; intros x; simpl; [discriminate|].
  destruct (atom_ok a c) eqn:E; [|discriminate].
  destruct (plus_atom a s _) as [y|] eqn:P.
  - intros [= ->]. destruct (IH _ eq_refl) as (m & rest & -> & _ & Hm & Hr & ->).
    exists (c :: m), rest. simpl. rewrite E, Hm. auto.
  - intros [= <-]. apply plus_atom_total_none in P.
    exists [c], s. simpl. rewrite E. auto.
Qed.
End ReLemmas2.

(** Facts on single characters. *)
Lemma fold_cases c :
  fold c = c ∨ (65 <= c <= 90 ∧ fold c = c + 32)%N
  ∨ (fold c = 105 ∧ (c = 304 ∨ c = 305))%N
  ∨ (fold c = 115 ∧ c = 383)%N ∨ (fold c = 107 ∧ c = 8490)%N.
Proof.
  unfold fold.
  destruct (N.leb_spec 65 c), (N.leb_spec c 90); simpl; auto; try (right; left; lia);
    destruct (N.eqb_spec c 304), (N.eqb_spec c 305); simpl; auto 6;
    destruct (N.eqb_spec c 383); auto 6; destruct (N.eqb_spec c 8490); auto 8.
Qed.

Lemma fold_hash c : fold c = 35%N -> c = 35%N.
Proof. destruct (fold_cases c) as [H|[H|[H|[H|H]]]]; lia. Qed.

Lemma space_cases w (P : N -> Prop) :
  Forall P spaces -> is_space w = true -> P w.
Proof.
  intros HP H. apply existsb_exists in H as (x & Hx & E).
  apply N.eqb_eq in E as ->. rewrite Forall_forall in HP. apply HP.
  by apply list_elem_of_In.
Qed.

Lemma digit_cases w :
  is_digit w = true -> ((48 <= w <= 57)%N ∨ (1632 <= w)%N) ∧ w ≠ 8490%N.
Proof.
  intros H. split; [|by intros ->].
  unfold is_digit in H. destruct (block_of w) as [b|] eqn:E; [|discriminate].
  unfold block_of in E. apply find_some in E as [Hin E].
  assert (forallb (fun b : N * N => ((fst b =? 48) && (snd b =? 10)) || (1632 <=? fst b))%N
            digit_blocks = true) as Hall by reflexivity.
  rewrite forallb_forall in Hall. apply Hall in Hin.
  destruct b as [b0 n]. simpl in *.
  apply andb_true_iff in E as [E1 E2]. apply N.leb_le in E1. apply N.ltb_lt in E2.
  apply orb_true_iff in Hin as [Hin|Hin].
  - apply andb_true_iff in Hin as [H1 H2].
    apply N.eqb_eq in H1, H2. lia.
  - apply N.leb_le in Hin. lia.
Qed.

Lemma space_not_starter w : is_space w = true -> starter w = false.
Proof. apply (space_cases w (fun w => starter w = false)). by repeat constructor. Qed.

Lemma digit_not_starter w : is_digit w = true -> starter w = false.
Proof.
  intros H. apply digit_cases in H. unfold starter. simpl.
  destruct (fold_cases w) as [E|[E|[E|[E|E]]]];
    repeat (apply orb_false_intro; [apply N.eqb_neq; lia|]); reflexivity.
Qed.

Lemma take_app_minus (m rest : text) :
  take (length (m ++ rest) - length rest) (m ++ rest) = m.
Proof.
  rewrite length_app. replace (length m + length rest - length rest)%nat with (length m) by lia.
  by rewrite take_app_length.
Qed.

Lemma tail_inv g s cap rest :
  rmatch tail_pattern g s final = Some (cap, rest) ->
  ∃ ws, s = ws ++ 35%N :: cap ++ rest
        ∧ ws ≠ [] ∧ forallb is_space ws = true
        ∧ cap ≠ [] ∧ forallb is_digit cap = true
        ∧ starts_with_digit rest = false.
Proof.
  unfold tail_pattern. cbn [rmatch]. intros H.
  apply plus_atom_inv in H as (ws & s1 & -> & Hws & Hsp & H).
  destruct s1 as [|c s2]; [discriminate|].
  destruct (atom_ok (Lit 35%N) c) eqn:Ec; [|discriminate].
  apply N.eqb_eq in Ec. apply fold_hash in Ec as ->.
  unfold final in H.
  apply (plus_atom_total_inv Digit s2
           (fun s3 => (default [] (Some (take (length s2 - length s3) s2)), s3))) in H
    as (ds & post & -> & Hds & Hdig & Hpost & [= -> ->]).
  simpl. rewrite take_app_minus.
  exists ws. repeat split; auto.
  destruct post; simpl in *; auto.
Qed.

Lemma tail_intro g ws ds post :
  ws ≠ [] -> forallb is_space ws = true ->
  ds ≠ [] -> forallb is_digit ds = true ->
  starts_with_digit post = false ->
  rmatch tail_pattern g (ws ++ 35%N :: ds ++ post) final = Some (ds, post).
Proof.
  intros Hws Hsp Hds Hdig Hpost. unfold tail_pattern. cbn [rmatch].
  apply plus_atom_longest; auto.
  change (atom_ok (Lit 35%N) 35%N) with true. cbn iota.
  apply plus_atom_longest; auto.
  - destruct post; simpl in *; auto.
  - unfold final. simpl. by rewrite take_app_minus.
Qed.


Lemma issue_pattern_split : issue_pattern = Cat head_pattern tail_pattern.
Proof. reflexivity. Qed.

Section Head.
Context {X : Type}.
Implicit Types (K : option text -> text -> option X).

Lemma cat_word_opt_inv p r g s K x :
  rmatch (Cat (word p) (Opt r)) g s K = Some x ->
  ∃ m t, s = m ++ t ∧ folded m = folded p
         ∧ (rmatch r g t K = Some x ∨ K g t = Some x).
Proof.
  cbn [rmatch]. intros H. apply rmatch_word_inv in H as (m & t & -> & Hm & H).
  exists m, t. repeat split; auto.
  destruct (rmatch r g t K); auto.
Qed.

Lemma oneof_inv cs g s K x :
  rmatch (Atom (OneOf cs)) g s K = Some x ->
  ∃ c t, s = c :: t ∧ fold c ∈ folded cs ∧ K g t = Some x.
Proof.
  cbn [rmatch]. destruct s as [|c t]; [discriminate|].
  destruct (atom_ok (OneOf cs) c) eqn:E; [|discriminate]. intros H.
  exists c, t. repeat split; auto.
  simpl in E. apply existsb_exists in E as (y & Hy & E).
  apply N.eqb_eq in E. rewrite E. unfold folded.
  apply list_elem_of_fmap. exists y. split; auto. by apply list_elem_of_In.
Qed.

Lemma alt_inv r1 r2 g s K x :
  rmatch (Alt r1 r2) g s K = Some x ->
  rmatch r1 g s K = Some x ∨ rmatch r2 g s K = Some x.
Proof. cbn [rmatch]. destruct (rmatch r1 g s K); auto. Qed.

Lemma keyword_intro (kw : text) (w : string) :
  folded kw = of_string w ->
  bool_decide (of_string w ∈ keywords) = true -> is_keyword kw.
Proof. unfold is_keyword. intros -> H. by apply bool_decide_eq_true in H. Qed.

Lemma keyword_app_intro (m1 m2 : text) (w1 w2 : string) :
  folded m1 = folded (of_string w1) -> folded m2 = folded (of_string w2) ->
  bool_decide (folded (of_string w1) ++ folded (of_string w2) ∈ keywords) = true ->
  is_keyword (m1 ++ m2).
Proof.
  unfold is_keyword, folded. intros H1 H2 H. rewrite map_app.
  unfold folded in H1, H2. rewrite H1, H2. by apply bool_decide_eq_true in H.
Qed.

Lemma head_inv g s K x :
  rmatch head_pattern g s K = Some x ->
  ∃ kw t, s = kw ++ t ∧ is_keyword kw ∧ K g t = Some x.
Proof.
  unfold head_pattern. intros H.
  apply alt_inv in H as [H|H]; [|apply alt_inv in H as [H|H]];
    apply cat_word_opt_inv in H as (m & t & -> & Hm & [H|H]).
  - apply rmatch_word_inv in H as (m2 & t2 & -> & Hm2 & H).
    exists (m ++ m2), t2. rewrite <- app_assoc. repeat split; auto.
    by apply (keyword_app_intro _ _ "fix" "es").
  - exists m, t. repeat split; auto. by apply (keyword_intro _ "fix").
  - apply oneof_inv in H as (c & t2 & -> & Hc & H).
    exists (m ++ [c]), t2. rewrite <- app_assoc. repeat split; auto.
    apply list_elem_of_In in Hc. simpl in Hc. destruct Hc as [Hc|[Hc|[]]].
    + by apply (keyword_app_intro _ _ "close" "s"); [|simpl; rewrite <- Hc|].
    + by apply (keyword_app_intro _ _ "close" "d"); [|simpl; rewrite <- Hc|].
  - exists m, t. repeat split; auto. by apply (keyword_intro _ "close").
  - apply oneof_inv in H as (c & t2 & -> & Hc & H).
    exists (m ++ [c]), t2. rewrite <- app_assoc. repeat split; auto.
    apply list_elem_of_In in Hc. simpl in Hc. destruct Hc as [Hc|[Hc|[]]].
    + by apply (keyword_app_intro _ _ "resolve" "s"); [|simpl; rewrite <- Hc|].
    + by apply (keyword_app_intro _ _ "resolve" "d"); [|simpl; rewrite <- Hc|].
  - exists m, t. repeat split; auto. by apply (keyword_intro _ "resolve").
Qed.
End Head.

Section HeadIntro.
Context {X : Type}.
Implicit Types (K : option text -> text -> option X).

Lemma branch_none c p r d s g K :
  fold d ≠ fold c ->
  rmatch (Cat (word (c :: p)) r) g (d :: s) K = None.
Proof. intros H. cbn [rmatch]. by apply rmatch_word_head. Qed.

Lemma branch_skip p o g kw t K x :
  folded kw = folded p -> rmatch o g t K = None -> K g t = Some x ->
  rmatch (Cat (word p) (Opt o)) g (kw ++ t) K = Some x.
Proof.
  intros Hkw Ho HK. cbn [rmatch]. rewrite rmatch_word_app by done.
  cbn [rmatch]. by rewrite Ho.
Qed.

Lemma branch_take p o g m1 m2 t K x :
  folded m1 = folded p -> rmatch o g (m2 ++ t) K = Some x ->
  rmatch (Cat (word p) (Opt o)) g ((m1 ++ m2) ++ t) K = Some x.
Proof.
  intros Hkw Ho. cbn [rmatch]. rewrite <- app_assoc, rmatch_word_app by done.
  cbn [rmatch]. by rewrite Ho.
Qed.

Lemma lower_split kw (p1 p2 : text) :
  folded kw = p1 ++ p2 ->
  ∃ m1 m2, kw = m1 ++ m2 ∧ folded m1 = p1 ∧ folded m2 = p2.
Proof. intros H. apply map_eq_app in H as (m1 & m2 & ? & ? & ?). eauto. Qed.

Lemma lower_single kw c :
  folded kw = [c] -> ∃ d, kw = [d] ∧ fold d = c.
Proof. destruct kw as [|d [|]]; intros [= H]. eauto. Qed.

Lemma lower_first kw c p :
  folded kw = c :: p -> ∃ d kw', kw = d :: kw' ∧ fold d = c.
Proof. destruct kw as [|d kw]; intros [= H1 H2]. eauto. Qed.

Lemma es_after_space w t g K :
  is_space w = true -> rmatch (word (of_string "es")) g (w :: t) K = None.
Proof.
  intros Hw. apply rmatch_word_head. apply N.eqb_neq. revert Hw.
  apply (space_cases w (fun w => N.eqb (fold w) (fold 101%N) = false)).
  by repeat constructor.
Qed.

Lemma sd_after_space w t g K :
  is_space w = true -> rmatch (Atom (OneOf (of_string "sd"))) g (w :: t) K = None.
Proof.
  intros Hw. cbn [rmatch].
  replace (atom_ok (OneOf (of_string "sd")) w) with false; [done|].
  symmetry. revert Hw.
  apply (space_cases w (fun w => atom_ok (OneOf (of_string "sd")) w = false)).
  by repeat constructor.
Qed.

Lemma sd_take c t g K :
  fold c = 115%N ∨ fold c = 100%N ->
  rmatch (Atom (OneOf (of_string "sd"))) g ([c] ++ t) K = K g t.
Proof.
  intros H. cbn [rmatch app].
  replace (atom_ok (OneOf (of_string "sd")) c) with true; [done|].
  symmetry. cbn [atom_ok of_string map list_ascii_of_string existsb].
  change (fold (N_of_ascii "s")) with 115%N. change (fold (N_of_ascii "d")) with 100%N.
  destruct H as [-> | ->]; reflexivity.
Qed.

Lemma alt_first r1 r2 g s K x :
  rmatch r1 g s K = Some x -> rmatch (Alt r1 r2) g s K = Some x.
Proof. intros H. cbn [rmatch]. by rewrite H. Qed.

Lemma alt_second r1 r2 g s K :
  rmatch r1 g s K = None -> rmatch (Alt r1 r2) g s K = rmatch r2 g s K.
Proof. intros H. cbn [rmatch]. by rewrite H. Qed.

Lemma head_intro g kw w t K x :
  is_keyword kw -> is_space w = true -> K g (w :: t) = Some x ->
  rmatch head_pattern g (kw ++ w :: t) K = Some x.
Proof.
  unfold is_keyword, keywords. intros Hkw Hw HK.
  apply list_elem_of_In in Hkw. simpl in Hkw.
  unfold head_pattern.
  destruct Hkw as [H|[H|[H|[H|[H|[H|[H|[H|[]]]]]]]]]; symmetry in H.
  - apply alt_first, branch_skip; auto using es_after_space.
  - apply (lower_split _ (of_string "fix") (of_string "es")) in H
      as (m1 & m2 & -> & H1 & H2).
    apply alt_first, branch_take; auto. by rewrite rmatch_word_app.
  - rewrite alt_second.
    2:{ apply lower_first in H as (d & kw' & -> & Hd). apply branch_none.
        rewrite Hd. discriminate. }
    apply alt_first, branch_skip; auto using sd_after_space.
  - rewrite alt_second.
    2:{ apply lower_first in H as (d & kw' & -> & Hd). apply branch_none.
        rewrite Hd. discriminate. }
    apply (lower_split _ (of_string "close") (of_string "s")) in H
      as (m1 & m2 & -> & H1 & H2).
    apply lower_single in H2 as (c & -> & Hc).
    apply alt_first, branch_take; auto. rewrite sd_take; auto.
  - rewrite alt_second.
    2:{ apply lower_first in H as (d & kw' & -> & Hd). apply branch_none.
        rewrite Hd. discriminate. }
    apply (lower_split _ (of_string "close") (of_string "d")) in H
      as (m1 & m2 & -> & H1 & H2).
    apply lower_single in H2 as (c & -> & Hc).
    apply alt_first, branch_take; auto. rewrite sd_take; auto.
  - rewrite !alt_second.
    2,3: apply lower_first in H as (d & kw' & -> & Hd); apply branch_none;
         rewrite Hd; discriminate.
    apply branch_skip; auto using sd_after_space.
  - rewrite !alt_second.
    2,3: apply lower_first in H as (d & kw' & -> & Hd); apply branch_none;
         rewrite Hd; discriminate.
    apply (lower_split _ (of_string "resolve") (of_string "s")) in H
      as (m1 & m2 & -> & H1 & H2).
    apply lower_single in H2 as (c & -> & Hc).
    apply branch_take; auto. rewrite sd_take; auto.
  - rewrite !alt_second.
    2,3: apply lower_first in H as (d & kw' & -> & Hd); apply branch_none;
         rewrite Hd; discriminate.
    apply (lower_split _ (of_string "resolve") (of_string "d")) in H
      as (m1 & m2 & -> & H1 & H2).
    apply lower_single in H2 as (c & -> & Hc).
    apply branch_take; auto. rewrite sd_take; auto.
Qed.
End HeadIntro.

Lemma match_here_inv s cap rest :
  match_here issue_pattern s = Some (cap, rest) ->
  ∃ kw ws, s = kw ++ ws ++ 35%N :: cap ++ rest
    ∧ is_keyword kw
    ∧ ws ≠ [] ∧ forallb is_space ws = true
    ∧ cap ≠ [] ∧ forallb is_digit cap = true
    ∧ starts_with_digit rest = false.
Proof.
  unfold match_here. rewrite issue_pattern_split. cbn [rmatch]. intros H.
  apply head_inv in H as (kw & t & -> & Hkw & H).
  apply tail_inv in H as (ws & -> & ?).
  exists kw, ws. auto.
Qed.

Lemma match_here_intro kw ws ds post :
  is_keyword kw ->
  ws ≠ [] -> forallb is_space ws = true ->
  ds ≠ [] -> forallb is_digit ds = true ->
  starts_with_digit post = false ->
  match_here issue_pattern (kw ++ ws ++ 35%N :: ds ++ post) = Some (ds, post).
Proof.
  intros Hkw Hws Hsp Hds Hdig Hpost.
  unfold match_here. rewrite issue_pattern_split. cbn [rmatch].
  destruct ws as [|w ws]; [done|]. simpl in Hsp.
  apply andb_true_iff in Hsp as [Hw Hsp].
  change ((w :: ws) ++ 35%N :: ds ++ post)
    with (w :: (ws ++ 35%N :: ds ++ post)).
  apply (head_intro None kw w _ (fun g' s' => rmatch tail_pattern g' s' final)); auto.
  change (w :: ws ++ 35%N :: ds ++ post)
    with ((w :: ws) ++ 35%N :: ds ++ post).
  apply tail_intro; auto. simpl. by rewrite Hw, Hsp.
Qed.


Lemma keyword_shape kw :
  is_keyword kw ->
  ∃ c kw', kw = c :: kw' ∧ starter c = true ∧ forallb not_starter kw' = true.
Proof.
  unfold is_keyword. intros H.
  assert (match folded kw with
          | x :: l => existsb (N.eqb x) (of_string "fcr")
                      && forallb (fun y => negb (existsb (N.eqb y) (of_string "fcr"))) l
          | [] => false
          end = true) as E.
  { apply list_elem_of_In in H. simpl in H.
    destruct H as [H|[H|[H|[H|[H|[H|[H|[H|[]]]]]]]]]; rewrite <- H; reflexivity. }
  destruct kw as [|c kw']; [discriminate|]. simpl in E.
  exists c, kw'. apply andb_true_iff in E as [E1 E2]. repeat split; auto.
  clear -E2. unfold not_starter, starter. induction kw' as [|d l IH]; simpl in *; auto.
  apply andb_true_iff in E2 as [-> ?]. auto.
Qed.

(** A match starts with [f], [c] or [r] and holds none of them further on. *)
Lemma match_here_shape s cap rest :
  match_here issue_pattern s = Some (cap, rest) ->
  ∃ c m, s = c :: m ++ rest ∧ starter c = true ∧ forallb not_starter m = true.
Proof.
  intros H. apply match_here_inv in H
    as (kw & ws & -> & Hkw & _ & Hsp & _ & Hdig & _).
  apply keyword_shape in Hkw as (c & kw' & -> & Hc & Hkw').
  exists c, (kw' ++ ws ++ 35%N :: cap). split; [|split; auto].
  - simpl. f_equal. rewrite <- ?app_assoc. simpl. by rewrite <- ?app_assoc.
  - assert (forallb not_starter ws = true) as H1.
    { apply forallb_forall. intros x Hx. unfold not_starter.
      rewrite space_not_starter; auto. eapply forallb_forall in Hsp; eauto. }
    assert (forallb not_starter cap = true) as H2.
    { apply forallb_forall. intros x Hx. unfold not_starter.
      rewrite digit_not_starter; auto. eapply forallb_forall in Hdig; eauto. }
    rewrite !forallb_app. cbn [forallb]. rewrite Hkw', H1, H2. reflexivity.
Qed.

Lemma findall_from_sound fuel s cap :
  cap ∈ findall_from fuel issue_pattern s ->
  ∃ pre t rest, s = pre ++ t ∧ match_here issue_pattern t = Some (cap, rest).
Proof.
  revert s. induction fuel as [|n IH]; intros s; simpl.
  { intros H. by apply elem_of_nil in H. }
  assert (∀ c s', s = c :: s' -> cap ∈ findall_from n issue_pattern s' ->
          ∃ pre t rest, s = pre ++ t ∧ match_here issue_pattern t = Some (cap, rest)) as Hskip.
  { intros c s' -> H. apply IH in H as (pre & t & rest & -> & H).
    exists (c :: pre), t, rest. auto. }
  destruct (match_here issue_pattern s) as [[cap' rest']|] eqn:E.
  - intros H. apply elem_of_cons in H as [->|H].
    { exists [], s, rest'. auto. }
    destruct (length rest' <? length s)%nat.
    + apply match_here_shape in E as (c & m & -> & _).
      apply IH in H as (pre & t & rest & -> & H).
      exists (c :: m ++ pre), t, rest. split; auto.
      simpl. by rewrite <- app_assoc.
    + destruct s as [|c s']; [by apply elem_of_nil in H|]. eauto.
  - destruct s as [|c s']; intros H; [by apply elem_of_nil in H|]. eauto.
Qed.

Lemma findall_from_complete fuel pre t cap rest :
  match_here issue_pattern t = Some (cap, rest) ->
  (length (pre ++ t) < fuel)%nat ->
  cap ∈ findall_from fuel issue_pattern (pre ++ t).
Proof.
  intros Ht. revert pre. induction fuel as [|n IH]; intros pre Hlen; [lia|].
  simpl. destruct pre as [|c pre].
  { simpl. rewrite Ht. apply elem_of_cons. auto. }
  destruct (match_here issue_pattern ((c :: pre) ++ t)) as [[cap' rest']|] eqn:E.
  2:{ simpl. apply IH. simpl in Hlen. lia. }
  apply elem_of_cons. right.
  pose proof E as E'. apply match_here_shape in E' as (c0 & m & Hs & _ & Hm).
  simpl in Hs. injection Hs as <- Hs.
  apply match_here_shape in Ht as (c1 & m1 & -> & Hc1 & _).
  assert (∃ l, rest' = l ++ c1 :: m1 ++ rest ∧ (length l <= length pre)%nat)
    as (l & -> & Hl).
  { apply app_eq_app in Hs as [l [[-> ->]|[-> Hl]]].
    - exists l. split; auto. rewrite length_app. lia.
    - destruct l as [|x l].
      + simpl in Hl. exists []. split; auto. simpl. lia.
      + injection Hl as <- _. rewrite forallb_app in Hm.
        apply andb_true_iff in Hm as [_ Hm]. simpl in Hm.
        unfold not_starter in Hm. rewrite Hc1 in Hm. discriminate. }
  replace (length (l ++ c1 :: m1 ++ rest) <? length ((c :: pre) ++ c1 :: m1 ++ rest))%nat
    with true.
  2:{ symmetry. apply Nat.ltb_lt. simpl. rewrite !length_app. simpl. lia. }
  apply IH. simpl in Hlen. rewrite !length_app in *. simpl in *. lia.
Qed.

Lemma findall_spec s cap :
  cap ∈ findall issue_pattern s ↔
  ∃ pre t rest, s = pre ++ t ∧ match_here issue_pattern t = Some (cap, rest).
Proof.
  split.
  - apply findall_from_sound.
  - intros (pre & t & rest & -> & H). eapply findall_from_complete; eauto.
Qed.

End ReFacts.
(** ** Linked issues *)

Module LinkedFacts.
Import Unicode Re Tracker Linked Runs LinkedSpec PatternParts ReFacts.
Local Open Scope tracker_scope.

Lemma reference_to_findall body ds :
  reference_to body ds ↔ ds ∈ findall issue_pattern body.
Proof.
  split.
  - intros (pre & kw & ws & post & -> & Hkw & Hws & Hsp & Hds & Hdig & Hpost).
    apply findall_spec.
    exists pre, (kw ++ ws ++ 35%N :: ds ++ post), post. split; auto.
    by apply match_here_intro.
  - intros H. apply findall_spec in H as (pre & t & rest & -> & H).
    apply match_here_inv in H as (kw & ws & -> & ?).
    exists pre, kw, ws, rest. intuition.
Qed.

Lemma reference_findall body n :
  reference body n ↔ ∃ cap, cap ∈ findall issue_pattern body ∧ n = value cap.
Proof.
  unfold reference. split; intros (ds & H & ->); exists ds; split; auto;
    by apply reference_to_findall.
Qed.

Lemma no_reference_in_empty ds : ¬ reference_to [] ds.
Proof.
  intros (pre & kw & ws & post & H & _).
  apply (f_equal length) in H. rewrite !length_app in H. simpl in H. lia.
Qed.

Lemma readable_findall body :
  readable body ↔
  Forall (fun m => (length m <= int_max_str_digits)%nat) (findall issue_pattern body).
Proof.
  unfold readable. rewrite Forall_forall.
  split; intros H ds Hds; apply H; by apply reference_to_findall.
Qed.

(** *** The order of the result *)

Lemma NoDup_arrange order xs : NoDup (arrange order xs).
Proof.
  unfold arrange. apply NoDup_app. split; [apply NoDup_remove_dups|]. split.
  - intros x Hx Hx'. apply list_elem_of_filter in Hx' as [Hx' _]. by apply Hx'.
  - apply NoDup_filter, NoDup_remove_dups.
Qed.

Lemma elem_of_arrange order xs x : x ∈ arrange order xs ↔ x ∈ xs.
Proof.
  unfold arrange. rewrite elem_of_app. split.
  - intros [H|H].
    + rewrite elem_of_remove_dups, list_elem_of_filter in H. tauto.
    + rewrite list_elem_of_filter in H. destruct H as [_ H].
      by rewrite elem_of_remove_dups in H.
  - intros H.
    destruct (decide (x ∈ remove_dups (filter (fun x => x ∈ xs) (order xs))));
      [by left|right].
    rewrite list_elem_of_filter. split; [done|]. by rewrite elem_of_remove_dups.
Qed.

Lemma arrange_nil order : arrange order [] = [].
Proof.
  pose proof (elem_of_arrange order []) as H.
  destruct (arrange order []) as [|x l]; auto.
  exfalso. eapply elem_of_nil, H. left.
Qed.

(** *** The numbers read *)

Lemma read_numbers_ok matches acc w :
  Forall (fun m => (length m <= int_max_str_digits)%nat) matches ->
  read_numbers matches acc w = (Ok (acc ++ map value matches), w).
Proof.
  unfold read_numbers. revert acc.
  induction matches as [|m l IH]; intros acc H; simpl.
  - by rewrite app_nil_r.
  - inversion H as [|? ? Hm Hl]; subst. unfold bind at 1 2, int.
    destruct (Nat.ltb_spec int_max_str_digits (length m)); [lia|].
    unfold ret at 1 2. rewrite IH by done. by rewrite <- app_assoc.
Qed.

Lemma read_numbers_raises matches acc w :
  Exists (fun m => (int_max_str_digits < length m)%nat) matches ->
  read_numbers matches acc w = (Raise ValueError, w).
Proof.
  unfold read_numbers. revert acc.
  induction matches as [|m l IH]; intros acc H; simpl.
  - inversion H.
  - unfold bind at 1 2, int.
    destruct (Nat.ltb_spec int_max_str_digits (length m)); [done|].
    unfold ret at 1 2. apply IH. inversion H; subst; [lia|done].
Qed.

Lemma extract_linked_issues_unfold body w :
  extract_linked_issues (Some body) w
  = (let* numbers := read_numbers (findall issue_pattern body) [] in
     list_of_set numbers) w.
Proof.
  destruct body as [|c body]; [|reflexivity].
  unfold bind, list_of_set. simpl. by rewrite arrange_nil.
Qed.

Lemma readable_dec body : {readable body} + {¬ readable body}.
Proof.
  destruct (decide (Forall (fun m => (length m <= int_max_str_digits)%nat)
                      (findall issue_pattern body))) as [H|H];
    [left|right]; by rewrite readable_findall.
Qed.

Lemma extract_linked_issues_readable body w :
  readable body ->
  extract_linked_issues (Some body) w
  = (Ok (arrange (hash_order w) (map value (findall issue_pattern body))), w).
Proof.
  intros H. rewrite extract_linked_issues_unfold. unfold bind.
  apply readable_findall in H. by rewrite read_numbers_ok.
Qed.

Lemma extract_linked_issues_unreadable body w :
  ¬ readable body ->
  extract_linked_issues (Some body) w = (Raise ValueError, w).
Proof.
  intros H. rewrite extract_linked_issues_unfold. unfold bind.
  rewrite read_numbers_raises; [done|].
  rewrite readable_findall in H. apply not_Forall_Exists in H; [|intros x; apply _].
  eapply Exists_impl; [exact H|]. simpl. intros; lia.
Qed.

(** Either a list and the same world, or [ValueError] and the same world. *)
Lemma extract_linked_issues_cases pr_body w :
  (∃ l, extract_linked_issues pr_body w = (Ok l, w)
        ∧ NoDup l ∧ ∀ n, n ∈ l ↔ links pr_body n)
  ∨ extract_linked_issues pr_body w = (Raise ValueError, w).
Proof.
  destruct pr_body as [body|].
  - destruct (readable_dec body) as [H|H].
    + left. eexists. split; [by apply extract_linked_issues_readable|].
      split; [apply NoDup_arrange|]. intros n.
      rewrite elem_of_arrange, list_elem_of_fmap. unfold links. simpl.
      rewrite reference_findall. split; intros (ds & ? & ?); eauto.
    + right. by apply extract_linked_issues_unreadable.
  - left. exists []. split; [done|]. split; [apply NoDup_nil_2|].
    intros n. split; [intros H; by apply elem_of_nil in H|].
    intros (ds & H & _). by apply no_reference_in_empty in H.
Qed.

Lemma extract_linked_issues_outcome pr_body w :
  (readable (default [] pr_body)
   ∧ ∃ l, extract_linked_issues pr_body w = (Ok l, w)
          ∧ NoDup l ∧ ∀ n, n ∈ l ↔ links pr_body n)
  ∨ (¬ readable (default [] pr_body)
     ∧ extract_linked_issues pr_body w = (Raise ValueError, w)).
Proof.
  destruct (readable_dec (default [] pr_body)) as [H|H]; [left|right]; split; auto.
  - destruct (extract_linked_issues_cases pr_body w) as [?|E]; [done|].
    destruct pr_body as [body|]; [|discriminate].
    rewrite extract_linked_issues_readable in E by done. discriminate.
  - destruct pr_body as [body|]; [by apply extract_linked_issues_unreadable|].
    destruct H. intros ds Hds. by apply no_reference_in_empty in Hds.
Qed.

Lemma extract_linked_issues_ok pr_body w l w' :
  extract_linked_issues pr_body w = (Ok l, w') ->
  w' = w ∧ NoDup l ∧ ∀ n, n ∈ l ↔ links pr_body n.
Proof.
  intros E. destruct (extract_linked_issues_cases pr_body w)
    as [(l' & E' & ?)|E']; rewrite E' in E; [|discriminate].
  by injection E as <- <-.
Qed.

Lemma extract_linked_issues_ok_readable pr_body w l :
  extract_linked_issues pr_body w = (Ok l, w) ->
  readable (default [] pr_body) ∧ NoDup l ∧ ∀ n, n ∈ l ↔ links pr_body n.
Proof.
  intros E.
  destruct (extract_linked_issues_outcome pr_body w) as [(Hr & l' & E' & H)|[_ E']];
    rewrite E' in E; [|discriminate].
  by injection E as <-.
Qed.

(** The result depends on the world through the order of sets only. *)
Lemma extract_linked_issues_same_order pr_body w w' r :
  same_order w w' ->
  extract_linked_issues pr_body w = (r, w) ->
  extract_linked_issues pr_body w' = (r, w').
Proof.
  unfold same_order. intros Ho. destruct pr_body as [body|]; [|by intros [= <-]].
  destruct (readable_dec body) as [H|H].
  - rewrite !extract_linked_issues_readable, Ho by done. by intros [= <-].
  - rewrite !extract_linked_issues_unreadable by done. by intros [= <-].
Qed.

(** C4.  For an absent body and for a body in which no reference is written
    with more than 4300 digits, the extractor returns a list without
    duplicates that holds exactly the numbers [n] for which the body
    contains a keyword among fix, fixes, close, closes, closed, resolve,
    resolves, resolved (in any letter case) followed by white space and
    [#n]; the list is empty for an absent body, for an empty one, and for
    one without such a reference.  For a body with a reference of more
    than 4300 digits the extractor raises [ValueError].  The tracker is
    never touched. *)
Theorem extract_linked_issues_spec (pr_body : option text) (w : World) :
  (readable (default [] pr_body) ->
     ∃ l, extract_linked_issues pr_body w = (Ok l, w)
          ∧ NoDup l ∧ ∀ n, n ∈ l ↔ links pr_body n)
  ∧ (¬ readable (default [] pr_body) ->
     extract_linked_issues pr_body w = (Raise ValueError, w))
  ∧ extract_linked_issues None w = (Ok [], w)
  ∧ extract_linked_issues (Some []) w = (Ok [], w)
  ∧ ((∀ n, ¬ links pr_body n) -> extract_linked_issues pr_body w = (Ok [], w)).
Proof.
  assert (∀ b, (∀ n, ¬ links b n) -> readable (default [] b)) as Hnone.
  { intros b H ds Hds. destruct (H (value ds)). by exists ds. }
  assert (readable (default [] pr_body) ->
          ∃ l, extract_linked_issues pr_body w = (Ok l, w)
               ∧ NoDup l ∧ ∀ n, n ∈ l ↔ links pr_body n) as Hok.
  { intros H. by destruct (extract_linked_issues_outcome pr_body w) as [[_ ?]|[? _]]. }
  split; [exact Hok|]. split.
  { intros H. by destruct (extract_linked_issues_outcome pr_body w) as [[? _]|[_ ?]]. }
  do 2 (split; [reflexivity|]).
  intros H. destruct (Hok (Hnone _ H)) as (l & -> & _ & Hl).
  destruct l as [|n l]; [done|]. destruct (H n). apply Hl. left.
Qed.

End LinkedFacts.

(** ** The tracker *)

Module TrackerFacts.
Import Tracker Runs.

Lemma skip_0 w : skip 0 w = w.
Proof. by destruct w. Qed.

Lemma skip_nil k w : faults w = [] -> skip k w = w.
Proof. destruct w; simpl. intros ->. unfold skip. simpl. by rewrite drop_nil. Qed.

Lemma skip_skip j k w : skip j (skip k w) = skip (k + j) w.
Proof. unfold skip, set_faults. simpl. by rewrite drop_drop. Qed.

Lemma faults_skip k w : faults (skip k w) = drop k (faults w).
Proof. reflexivity. Qed.

Lemma untouched_refl w : untouched w w.
Proof. by repeat split. Qed.

Lemma untouched_trans w1 w2 w3 : untouched w1 w2 -> untouched w2 w3 -> untouched w1 w3.
Proof. unfold untouched. intros (?&?&?&?&?) (?&?&?&?&?). repeat split; congruence. Qed.

Lemma untouched_skip k w : untouched w (skip k w).
Proof. by repeat split. Qed.

Create HintDb tracker.
#[export] Hint Resolve untouched_refl untouched_skip : tracker.

(** A remote call either raises what the schedule says, or reaches the
    tracker; in both cases one scheduled outcome is consumed. *)
Lemma remote_cases {A} (op : M A) w :
  (∃ e, head (faults w) = Some (Some e) ∧ remote op w = (Raise e, skip 1 w))
  ∨ (calm 1 (faults w) = true ∧ remote op w = op (skip 1 w)).
Proof.
  unfold remote. destruct (faults w) as [|[e|] fs] eqn:E.
  - right. split; auto. by rewrite skip_nil.
  - left. exists e. split; auto. unfold skip. by rewrite E.
  - right. split; auto. unfold skip. by rewrite E.
Qed.

Lemma remote_calm {A} (op : M A) w :
  calm 1 (faults w) = true -> remote op w = op (skip 1 w).
Proof.
  intros H. destruct (remote_cases op w) as [(e & He & _)|[_ ?]]; auto.
  destruct (faults w) as [|[|] ?]; simpl in *; discriminate.
Qed.

Lemma remote_raises {A} (op : M A) w e :
  head (faults w) = Some (Some e) -> remote op w = (Raise e, skip 1 w).
Proof.
  intros H. destruct (remote_cases op w) as [(e' & He & ->)|[Hc _]].
  - congruence.
  - destruct (faults w) as [|[|] ?]; simpl in *; discriminate.
Qed.

Lemma calm_S k fs : calm (S k) fs = calm 1 fs && calm k (drop 1 fs).
Proof. destruct fs as [|[|] fs]; simpl; auto. by destruct k. Qed.

End TrackerFacts.

(** ** Sequencing *)

Module MonadFacts.
Import Tracker Runs TrackerFacts.

Lemma bind_ok {A B} (m : M A) (k : A -> M B) w a w1 :
  m w = (Ok a, w1) -> bind m k w = k a w1.
Proof. unfold bind. by intros ->. Qed.

Lemma bind_raise {A B} (m : M A) (k : A -> M B) w e w1 :
  m w = (Raise e, w1) -> bind m k w = (Raise e, w1).
Proof. unfold bind. by intros ->. Qed.

Lemma try_ok {A} (m : M A) h w a w1 :
  m w = (Ok a, w1) -> try_except m h w = (Ok a, w1).
Proof. unfold try_except. by intros ->. Qed.

Lemma try_raise {A} (m : M A) h w e w1 :
  m w = (Raise e, w1) -> try_except m h w = h e w1.
Proof. unfold try_except. by intros ->. Qed.

Lemma try_bind_ok {A B} (m : M A) (k : A -> M B) h w a w1 :
  m w = (Ok a, w1) -> try_except (bind m k) h w = try_except (k a) h w1.
Proof. unfold try_except, bind. by intros ->. Qed.

Lemma try_bind_raise {A B} (m : M A) (k : A -> M B) h w e w1 :
  m w = (Raise e, w1) -> try_except (bind m k) h w = h e w1.
Proof. unfold try_except, bind. by intros ->. Qed.

Lemma try_bind_bind_ok {A B C} (m : M A) (k0 : A -> M B) (k : B -> M C) h w a w1 :
  m w = (Ok a, w1) ->
  try_except (bind (bind m k0) k) h w = try_except (bind (k0 a) k) h w1.
Proof. unfold try_except, bind. by intros ->. Qed.

Lemma try_ret {A} (a : A) h w : try_except (ret a) h w = (Ok a, w).
Proof. reflexivity. Qed.

(** A handler that returns makes the whole return. *)
Lemma try_total {A} (m : M A) (a : A) w :
  ∃ b w', try_except m (fun _ => ret a) w = (Ok b, w').
Proof. unfold try_except. destruct (m w) as [[b|e] w']; eauto. Qed.

(** A loop whose body never raises keeps an invariant. *)
Lemma for_each_invariant {X S} (I : S -> World -> list X -> Prop)
      (body : S -> X -> M S) :
  (∀ s x xs w, I s w (x :: xs) -> ∃ s' w', body s x w = (Ok s', w') ∧ I s' w' xs) ->
  ∀ xs s w, I s w xs -> ∃ s' w', for_each xs s body w = (Ok s', w') ∧ I s' w' [].
Proof.
  intros Hbody. induction xs as [|x xs IH]; intros s w HI; simpl.
  - exists s, w. auto.
  - destruct (Hbody _ _ _ _ HI) as (s1 & w1 & E & HI1).
    rewrite (bind_ok _ _ _ _ _ E). auto.
Qed.

End MonadFacts.

(** Reads of the tracker. *)
Module ReadFacts.
Import Tracker Runs TrackerFacts MonadFacts.

Lemma with_pull_ret {A} (f : PullRequest -> A) n w :
  with_pull n (fun pr => ret (f pr)) w =
  match pulls w !! n with
  | Some pr => (Ok (f pr), w)
  | None => (Raise not_found, w)
  end.
Proof. unfold with_pull, ret. by destruct (pulls w !! n). Qed.

(** A read returns what the tracker holds, or raises; it writes nothing. *)
Lemma read_pull_cases {A} (f : PullRequest -> A) n w :
  (∃ e, remote (with_pull n (fun pr => ret (f pr))) w = (Raise e, skip 1 w))
  ∨ (∃ pr, pulls w !! n = Some pr ∧ calm 1 (faults w) = true
           ∧ remote (with_pull n (fun pr => ret (f pr))) w = (Ok (f pr), skip 1 w)).
Proof.
  destruct (remote_cases (with_pull n (fun pr => ret (f pr))) w)
    as [(e & _ & ->)|[Hc ->]]; [eauto|].
  rewrite with_pull_ret. change (pulls (skip 1 w)) with (pulls w).
  destruct (pulls w !! n); eauto.
Qed.

Lemma read_pull_calm {A} (f : PullRequest -> A) n w pr :
  pulls w !! n = Some pr -> calm 1 (faults w) = true ->
  remote (with_pull n (fun pr => ret (f pr))) w = (Ok (f pr), skip 1 w).
Proof.
  intros Hp Hc. rewrite remote_calm by done. rewrite with_pull_ret.
  change (pulls (skip 1 w)) with (pulls w). by rewrite Hp.
Qed.

Lemma get_issue_cases k w :
  (∃ e, get_issue k w = (Raise e, skip 1 w))
  ∨ (∃ i, issues w !! k = Some i ∧ get_issue k w = (Ok i, skip 1 w)).
Proof.
  unfold get_issue.
  destruct (remote_cases (with_issue k ret) w) as [(e & _ & ->)|[Hc ->]]; [eauto|].
  unfold with_issue, ret. change (issues (skip 1 w)) with (issues w).
  destruct (issues w !! k); eauto.
Qed.

End ReadFacts.

(** ** Relations every step of a computation respects *)

Module Keeps.
Import Tracker Linked Runs TrackerFacts MonadFacts LinkedFacts.

Section Keeps.
Context (R : World -> World -> Prop) `{!PreOrder R}.

Lemma keeps_ret {A} (a : A) : keeps R (ret a).
Proof. intros w. reflexivity. Qed.

Lemma keeps_raise {A} e : keeps R (@raise A e).
Proof. intros w. reflexivity. Qed.

Lemma keeps_bind {A B} (m : M A) (k : A -> M B) :
  keeps R m -> (∀ a, keeps R (k a)) -> keeps R (bind m k).
Proof.
  intros Hm Hk w. unfold bind. specialize (Hm w).
  destruct (m w) as [[a|e] w1]; simpl in *; auto.
  etrans; [exact Hm|]. apply Hk.
Qed.

Lemma keeps_try {A} (m : M A) h :
  keeps R m -> (∀ e, keeps R (h e)) -> keeps R (try_except m h).
Proof.
  intros Hm Hh w. unfold try_except. specialize (Hm w).
  destruct (m w) as [[a|e] w1]; simpl in *; auto.
  etrans; [exact Hm|]. apply Hh.
Qed.

Lemma keeps_for_each {X S} (xs : list X) (s : S) body :
  (∀ s x, keeps R (body s x)) -> keeps R (for_each xs s body).
Proof.
  intros Hb. revert s. induction xs as [|x xs IH]; intros s; simpl.
  - apply keeps_ret.
  - apply keeps_bind; auto.
Qed.

Lemma keeps_remote {A} (op : M A) :
  (∀ w, R w (skip 1 w)) -> keeps R op -> keeps R (remote op).
Proof.
  intros Hs Hop w.
  destruct (remote_cases op w) as [(e & _ & ->)|[_ ->]]; simpl; auto.
  etrans; [apply Hs|apply Hop].
Qed.

Lemma keeps_with_pull {A} n (f : PullRequest -> M A) :
  (∀ pr, keeps R (f pr)) -> keeps R (with_pull n f).
Proof.
  intros Hf w. unfold with_pull. destruct (pulls w !! n); simpl; [apply Hf|reflexivity].
Qed.

Lemma keeps_with_issue {A} n (f : Issue -> M A) :
  (∀ i, keeps R (f i)) -> keeps R (with_issue n f).
Proof.
  intros Hf w. unfold with_issue. destruct (issues w !! n); simpl; [apply Hf|reflexivity].
Qed.

(** What follows the extraction runs on a list without duplicates of the
    numbers the body refers to, if it runs at all. *)
Lemma keeps_bind_extract {B} pr_body (k : list Z -> M B) :
  (∀ l, NoDup l -> (∀ n, n ∈ l ↔ LinkedSpec.links pr_body n) -> keeps R (k l)) ->
  keeps R (bind (extract_linked_issues pr_body) k).
Proof.
  intros Hk w. unfold bind.
  destruct (extract_linked_issues_cases pr_body w) as [(l & -> & Hnd & Hl)| ->];
    [by apply Hk|reflexivity].
Qed.

End Keeps.

End Keeps.

(** The operations of the client library, for a relation closed under them. *)
Module OpFacts.
Import Tracker Runs TrackerFacts MonadFacts Keeps.

Section Ops.
Context (q : Z) (R : World -> World -> Prop) (HR : closed_for q R).
Context (HI : closed_issues R).

#[local] Instance closed_for_pre : PreOrder R.
Proof. exact (closed_pre q R HR). Qed.

Lemma keeps_read_pull {A} n (f : PullRequest -> A) :
  keeps R (remote (with_pull n (fun pr => ret (f pr)))).
Proof.
  apply keeps_remote; [apply _|apply (closed_skip q R HR)|].
  apply keeps_with_pull; [apply _|]. intros pr. apply keeps_ret, _.
Qed.

Lemma keeps_get_issue k : keeps R (get_issue k).
Proof.
  apply keeps_remote; [apply _|apply (closed_skip q R HR)|].
  apply keeps_with_issue; [apply _|]. intros pr. apply keeps_ret, _.
Qed.

Lemma keeps_get_pulls_open : keeps R get_pulls_open.
Proof. apply keeps_remote; [apply _|apply (closed_skip q R HR)|]. intros w. reflexivity. Qed.

Lemma keeps_pull_write (m : Mutation) (f : PullRequest -> World -> PullRequest) :
  on_pull m = Some q ->
  keeps R (remote (with_pull q (fun pr w =>
    bind (update_pull q (f pr w)) (fun _ => write m) w))).
Proof.
  intros Hm. apply keeps_remote; [apply _|apply (closed_skip q R HR)|].
  apply keeps_with_pull; [apply _|]. intros pr w. simpl.
  etrans; [apply (closed_pull q R HR)|by apply (closed_record_pull q R HR)].
Qed.

Lemma keeps_issue_write k (m : Mutation) (f : Issue -> World -> Issue) :
  on_pull m = None ->
  keeps R (remote (with_issue k (fun i w =>
    bind (update_issue k (f i w)) (fun _ => write m) w))).
Proof.
  intros Hm. apply keeps_remote; [apply _|apply (closed_skip q R HR)|].
  apply keeps_with_issue; [apply _|]. intros pr w. simpl.
  etrans; [apply (closed_issue R HI)|by apply (closed_record_issue R HI)].
Qed.

Lemma keeps_create_issue_comment body : keeps R (create_issue_comment q body).
Proof.
  apply (keeps_pull_write (PrComment q body)
           (fun pr w => set_pr_comments (pr_comments pr ++ [new_comment body w]) pr)).
  reflexivity.
Qed.

Lemma keeps_edit_state s : keeps R (edit_state q s).
Proof.
  apply (keeps_pull_write (PrEdit q s) (fun pr _ => set_pr_state s pr)). reflexivity.
Qed.

Lemma keeps_add_to_labels l : keeps R (add_to_labels q l).
Proof.
  apply (keeps_pull_write (PrAddLabel q l) (fun pr _ => set_pr_labels _ pr)). reflexivity.
Qed.

Lemma keeps_remove_from_labels l : keeps R (remove_from_labels q l).
Proof.
  apply keeps_remote; [apply _|apply (closed_skip q R HR)|].
  apply keeps_with_pull; [apply _|]. intros pr.
  destruct (bool_decide (l ∈ pr_labels pr)); [|apply keeps_raise, _].
  intros w. simpl.
  etrans; [apply (closed_pull q R HR)|by apply (closed_record_pull q R HR)].
Qed.

Lemma keeps_create_comment k body : keeps R (create_comment k body).
Proof.
  apply (keeps_issue_write k (IssueComment k body)
           (fun i w => set_i_comments (i_comments i ++ [new_comment body w]) i)).
  reflexivity.
Qed.

Lemma keeps_add_to_assignees k who : keeps R (add_to_assignees k who).
Proof.
  apply (keeps_issue_write k (AddAssignee k who) (fun i _ => set_i_assignees _ i)).
  reflexivity.
Qed.

Lemma keeps_remove_from_assignees k who : keeps R (remove_from_assignees k who).
Proof.
  apply (keeps_issue_write k (RemoveAssignee k who) (fun i _ => set_i_assignees _ i)).
  reflexivity.
Qed.

Lemma keeps_utcnow : keeps R utcnow.
Proof. intros w. reflexivity. Qed.

Lemma keeps_sleep us : keeps R (sleep us).
Proof. intros w. apply (closed_now q R HR). Qed.

End Ops.

Lemma log_grows_closed q : closed_for q log_grows.
Proof.
  split; [split|..]; unfold log_grows; simpl.
  - intros w. exists []. by rewrite app_nil_r.
  - intros w1 w2 w3 [d1 E1] [d2 E2]. exists (d1 ++ d2). by rewrite E2, E1, app_assoc.
  - intros w. exists []. by rewrite app_nil_r.
  - intros w t. exists []. by rewrite app_nil_r.
  - intros w pr. exists []. by rewrite app_nil_r.
  - intros w m _. by exists [m].
Qed.

Lemma log_grows_closed_issues : closed_issues log_grows.
Proof.
  split; unfold log_grows; simpl.
  - intros w k i. exists []. by rewrite app_nil_r.
  - intros w m _. by exists [m].
Qed.

Lemma same_order_closed q : closed_for q same_order.
Proof. by split; [split|..]; unfold same_order; [done|intros ???; congruence|..]. Qed.

Lemma same_order_closed_issues : closed_issues same_order.
Proof. by split. Qed.

Lemma spares_refl n w : spares n w w.
Proof. split; auto. exists []. by rewrite app_nil_r. Qed.

Lemma spares_trans n w1 w2 w3 : spares n w1 w2 -> spares n w2 w3 -> spares n w1 w3.
Proof.
  intros [H1 (d1 & E1 & F1)] [H2 (d2 & E2 & F2)]. split; [congruence|].
  exists (d1 ++ d2). rewrite E2, E1, app_assoc. split; auto. by apply Forall_app.
Qed.

Lemma spares_closed n q : q ≠ n -> closed_for q (spares n).
Proof.
  intros Hq. split; [split|..]; simpl.
  - intros w. apply spares_refl.
  - intros w1 w2 w3. apply spares_trans.
  - intros w. split; auto. exists []. by rewrite app_nil_r.
  - intros w t. split; auto. exists []. by rewrite app_nil_r.
  - intros w pr. split; [simpl; by rewrite lookup_insert_ne|].
    exists []. by rewrite app_nil_r.
  - intros w m Hm. split; auto. exists [m]. split; auto.
    constructor; auto. rewrite Hm. congruence.
Qed.

Lemma spares_closed_issues n : closed_issues (spares n).
Proof.
  split; simpl.
  - intros w k i. split; auto. exists []. by rewrite app_nil_r.
  - intros w m Hm. split; auto. exists [m]. split; auto.
    constructor; auto. rewrite Hm. congruence.
Qed.

Lemma issue_neutral_closed q : closed_for q issue_neutral.
Proof.
  split; [split|..]; unfold issue_neutral; simpl.
  - intros w. split; auto. exists []. by rewrite app_nil_r.
  - intros w1 w2 w3 [H1 (d1 & E1 & F1)] [H2 (d2 & E2 & F2)]. split; [congruence|].
    exists (d1 ++ d2). rewrite E2, E1, app_assoc. split; auto. by apply Forall_app.
  - intros w. split; auto. exists []. by rewrite app_nil_r.
  - intros w t. split; auto. exists []. by rewrite app_nil_r.
  - intros w pr. split; auto. exists []. by rewrite app_nil_r.
  - intros w m Hm. split; auto. exists [m]. split; auto.
    constructor; auto. by destruct m.
Qed.

Lemma untouched_spares n w w' : untouched w w' -> spares n w w'.
Proof.
  intros (Hp & _ & Hl & _). split; [by rewrite Hp|].
  exists []. by rewrite Hl, app_nil_r.
Qed.

(** One step of a proof that a computation keeps a relation, chosen by the
    shape of the computation. *)
Ltac keeps_step HR HI :=
  lazymatch goal with
  | |- keeps _ (let _ := _ in _) => cbv zeta
  | |- keeps _ (ret _) => apply keeps_ret, _
  | |- keeps _ (raise _) => apply keeps_raise, _
  | |- keeps _ (bind (Linked.extract_linked_issues _) _) =>
      apply keeps_bind_extract; [apply _|intros ? ? ?]
  | |- keeps _ (bind _ _) => apply keeps_bind; [apply _| |intros ?]
  | |- keeps _ (try_except _ _) => apply keeps_try; [apply _| |intros ?]
  | |- keeps _ (for_each _ _ _) => apply keeps_for_each; [apply _|intros ? ?]
  | |- keeps _ (remote (with_pull _ _)) => apply (keeps_read_pull _ _ HR)
  | |- keeps _ (get_issue _) => apply (keeps_get_issue _ _ HR)
  | |- keeps _ get_pulls_open => apply (keeps_get_pulls_open _ _ HR)
  | |- keeps _ (create_issue_comment _ _) => apply (keeps_create_issue_comment _ _ HR)
  | |- keeps _ (edit_state _ _) => apply (keeps_edit_state _ _ HR)
  | |- keeps _ (add_to_labels _ _) => apply (keeps_add_to_labels _ _ HR)
  | |- keeps _ (remove_from_labels _ _) => apply (keeps_remove_from_labels _ _ HR)
  | |- keeps _ (create_comment _ _) => apply (keeps_create_comment _ _ HR HI)
  | |- keeps _ (add_to_assignees _ _) => apply (keeps_add_to_assignees _ _ HR HI)
  | |- keeps _ (remove_from_assignees _ _) => apply (keeps_remove_from_assignees _ _ HR HI)
  | |- keeps _ utcnow => apply (keeps_utcnow _ _ HR)
  | |- keeps _ (sleep _) => apply (keeps_sleep _ _ HR)
  | |- keeps _ (if ?b then _ else _) => destruct b
  | |- keeps _ (match ?x with _ => _ end) => destruct x
  end.

End OpFacts.

(** ** The activity bot *)

Module ActivityFacts.
Import Tracker Event Runs TrackerFacts MonadFacts ReadFacts PRActivityBot.
Local Open Scope string_scope.

(** C8.  When the commenter is not the author of the pull request, or the
    pull request does not carry the label [stale],
    [handle_contributor_activity] returns false and writes nothing: pull
    requests, issues and the record of writes are as before, whatever the
    remote calls do. *)
Theorem handle_contributor_activity_abort
    (self : Bot) (payload : Payload) (n : Z) (commenter : string)
    (p : PullRequest) (w : World) :
  event_payload self = Some payload ->
  issue_number payload = Some n ->
  comment_user_login payload = Some commenter ->
  pulls w !! n = Some p ->
  commenter ≠ login (pr_user p) ∨ "stale" ∉ pr_labels p ->
  ∃ w', handle_contributor_activity self w = (Ok false, w') ∧ untouched w w'.
Proof.
  intros Hpl Hn Hc Hp Hor. unfold handle_contributor_activity.
  rewrite Hpl, Hn, Hc. simpl.
  destruct (negb (n =? 0)%Z && negb (bool_decide (commenter = ""))).
  2:{ exists w. split; auto with tracker. }
  unfold get_pull.
  destruct (read_pull_cases (fun pr => {| pr_number := n; fetched := pr |}) n w)
    as [(e & E)|(p' & Hp' & _ & E)].
  { exists (skip 1 w). split; auto with tracker. by rewrite (try_bind_raise _ _ _ _ _ _ E). }
  assert (p' = p) as -> by congruence.
  rewrite (try_bind_ok _ _ _ _ _ _ E). simpl.
  case_bool_decide as Ha; simpl.
  2:{ exists (skip 1 w). split; auto with tracker. }
  unfold get_labels.
  destruct (read_pull_cases pr_labels n (skip 1 w)) as [(e & E2)|(p' & Hp2 & _ & E2)].
  { exists (skip 1 (skip 1 w)). split; [|rewrite skip_skip; auto with tracker].
    by rewrite (try_bind_raise _ _ _ _ _ _ E2). }
  change (pulls (skip 1 w)) with (pulls w) in Hp2.
  assert (p' = p) as -> by congruence.
  destruct Hor as [Hor|Hor]; [done|].
  exists (skip 1 (skip 1 w)). split; [|rewrite skip_skip; auto with tracker].
  rewrite (try_bind_ok _ _ _ _ _ _ E2). by rewrite bool_decide_false.
Qed.

End ActivityFacts.

(** ** The stale-PR bot *)

Module StaleFacts.
Import Text Linked Tracker Runs TrackerFacts MonadFacts ReadFacts Keeps OpFacts.
Import StalePRBot StaleSpec StaleParts.

(** *** Text search *)

Lemma starts_with_spec p s : starts_with p s = true ↔ ∃ post, s = p ++ post.
Proof.
  revert s. induction p as [|a p IH]; intros s; simpl.
  - split; eauto.
  - destruct s as [|b s].
    + split; [discriminate|]. by intros [post [=]].
    + rewrite andb_true_iff, IH, Ascii.eqb_eq. split.
      * intros [-> [post ->]]. eauto.
      * intros [post [= -> ->]]. eauto.
Qed.

Lemma contains_spec needle hay : contains needle hay = true ↔ occurs_in needle hay.
Proof.
  unfold occurs_in. induction hay as [|c hay IH]; simpl.
  - rewrite orb_false_r, starts_with_spec. split.
    + intros [post H]. exists [], post. done.
    + intros (pre & post & H). destruct pre; [eauto|discriminate].
  - rewrite orb_true_iff, starts_with_spec, IH. split.
    + intros [[post H]|(pre & post & ->)].
      * exists [], post. done.
      * exists (c :: pre), post. done.
    + intros (pre & post & H). destruct pre as [|c' pre].
      * left. eauto.
      * right. injection H as -> ->. eauto.
Qed.

(** *** The latest review requesting changes *)

Lemma head_insert_review r l :
  r_submitted_at <$> head (insert_review r l)
  = Some (match r_submitted_at <$> head l with
          | Some m => Z.max (r_submitted_at r) m
          | None => r_submitted_at r
          end).
Proof.
  destruct l as [|x l]; simpl; auto.
  destruct (Z.leb_spec (r_submitted_at x) (r_submitted_at r)); simpl; f_equal; lia.
Qed.

Lemma head_sort_latest_first l :
  r_submitted_at <$> head (sort_latest_first l) = latest (r_submitted_at <$> l).
Proof.
  induction l as [|r l IH]; simpl; auto.
  by rewrite head_insert_review, IH.
Qed.

Lemma filter_bool_decide {A} (P : A -> Prop) `{!∀ x, Decision (P x)} (l : list A) :
  filter P l = List.filter (fun x => bool_decide (P x)) l.
Proof.
  induction l as [|x l IH]; simpl; auto.
  rewrite filter_cons. destruct (decide (P x)) as [Hx|Hx].
  - by rewrite bool_decide_true, IH.
  - by rewrite bool_decide_false, IH.
Qed.

Lemma filter_none {A} (P : A -> Prop) `{!∀ x, Decision (P x)} (l : list A) :
  (∀ x, x ∈ l -> ¬ P x) -> filter P l = [].
Proof.
  induction l as [|x l IH]; intros Hall; auto.
  rewrite filter_cons, decide_False.
  - apply IH. intros y Hy. apply Hall. by right.
  - apply Hall. by left.
Qed.

Lemma get_last_changes_requested_calm pr p w :
  pulls w !! pr_number pr = Some p -> calm 1 (faults w) = true ->
  get_last_changes_requested pr w = (Ok (last_changes_requested p), skip 1 w).
Proof.
  intros Hp Hc. unfold get_last_changes_requested, get_reviews.
  rewrite (try_bind_ok _ _ _ _ _ _ (read_pull_calm pr_reviews _ _ _ Hp Hc)).
  unfold last_changes_requested. rewrite filter_bool_decide.
  destruct (List.filter _ (pr_reviews p)) as [|r l] eqn:E; [reflexivity|].
  rewrite try_ret. f_equal. f_equal. apply head_sort_latest_first.
Qed.

Lemma latest_none l : latest l = None -> l = [].
Proof. by destruct l. Qed.

(** Without a review requesting changes, or when the reviews cannot be
    listed, there is no timestamp. *)
Lemma get_last_changes_requested_none pr w :
  (∀ p, pulls w !! pr_number pr = Some p ->
        ∀ r, r ∈ pr_reviews p -> r_state r ≠ "CHANGES_REQUESTED"%string) ->
  get_last_changes_requested pr w = (Ok None, skip 1 w).
Proof.
  intros H. unfold get_last_changes_requested, get_reviews.
  destruct (read_pull_cases pr_reviews (pr_number pr) w) as [(e & E)|(p & Hp & _ & E)].
  - by rewrite (try_bind_raise _ _ _ _ _ _ E).
  - rewrite (try_bind_ok _ _ _ _ _ _ E).
    replace (filter _ (pr_reviews p)) with (@nil Review); [reflexivity|].
    symmetry. apply filter_none. apply (H p Hp).
Qed.

(** *** Days since the last activity of the author *)

(** [latest] is the maximum. *)
Lemma latest_is_max l m :
  latest l = Some m -> m ∈ l ∧ ∀ x, x ∈ l -> x <= m.
Proof.
  revert m. induction l as [|y l IH]; intros m; simpl; [discriminate|].
  destruct (latest l) as [m'|] eqn:E.
  - intros [= <-]. destruct (IH m' eq_refl) as [Hin Hle]. split.
    + destruct (Z.max_spec y m') as [[_ ->]|[_ ->]]; [by right|by left].
    + intros x Hx. apply elem_of_cons in Hx as [->|Hx]; [lia|].
      specialize (Hle x Hx). lia.
  - intros [= <-]. apply latest_none in E as ->. split; [by left|].
    intros x Hx. apply elem_of_cons in Hx as [->|Hx]; [lia|].
    by apply elem_of_nil in Hx.
Qed.

Lemma later_max d o :
  later d o = Some (match o with Some a => Z.max a d | None => d end).
Proof.
  destruct o as [a|]; simpl; auto.
  destruct (Z.ltb_spec a d); f_equal; lia.
Qed.

Lemma fold_later l acc :
  fold_left (fun acc d => later d acc) l acc
  = match latest l with
    | Some m => Some (match acc with Some a => Z.max a m | None => m end)
    | None => acc
    end.
Proof.
  revert acc. induction l as [|x l IH]; intros acc; simpl; auto.
  rewrite IH, later_max.
  destruct (latest l) as [m|], acc as [a|]; f_equal; lia.
Qed.

Lemma fold_later_none l : fold_left (fun acc d => later d acc) l None = latest l.
Proof. rewrite fold_later. by destruct (latest l). Qed.

Lemma fold_commits author t (commits : list Commit) acc :
  fold_left (fun last_author_activity commit =>
    let commit_date := cm_date commit in
    if (t <? commit_date)%Z then
      match cm_author commit with
      | Some a => if bool_decide (login a = author)
                  then later commit_date last_author_activity
                  else last_author_activity
      | None => last_author_activity
      end
    else last_author_activity) commits acc
  = fold_left (fun acc d => later d acc)
      (cm_date <$> List.filter (fun c => (t <? cm_date c)%Z
                                 && match cm_author c with
                                    | Some u => bool_decide (login u = author)
                                    | None => false
                                    end) commits) acc.
Proof.
  revert acc. induction commits as [|c l IH]; intros acc; simpl; auto.
  rewrite IH. destruct (t <? cm_date c)%Z; simpl; auto.
  destruct (cm_author c) as [a|]; simpl; auto.
  destruct (bool_decide (login a = author)); simpl; auto.
Qed.

Lemma fold_comments author t (comments : list Comment) acc :
  fold_left (fun last_author_activity comment =>
    if bool_decide (login (c_user comment) = author) then
      let comment_date := c_created_at comment in
      if (t <? comment_date)%Z
      then later comment_date last_author_activity
      else last_author_activity
    else last_author_activity) comments acc
  = fold_left (fun acc d => later d acc)
      (c_created_at <$> List.filter (fun c => bool_decide (login (c_user c) = author)
                                       && (t <? c_created_at c)%Z) comments) acc.
Proof.
  revert acc. induction comments as [|c l IH]; intros acc; simpl; auto.
  rewrite IH. destruct (bool_decide (login (c_user c) = author)); simpl; auto.
  destruct (t <? c_created_at c)%Z; simpl; auto.
Qed.

(** C2.  With the review requesting changes at [t], and the commits and the
    comments of the pull request listed without error,
    [get_days_since_activity] returns the whole days from the reference
    point to the current time, the reference point being the latest date
    among the commits authored by the author of the pull request after [t]
    and the comments made by that author after [t], or [t] when there is
    none. *)
Theorem get_days_since_activity_spec (pr : Pull) (p : PullRequest) (t : Z) (w : World) :
  pulls w !! pr_number pr = Some p ->
  calm 2 (faults w) = true ->
  get_days_since_activity pr (Some t) w
  = (Ok (days_inactive (now w) (login (pr_user (fetched pr))) t p), skip 2 w).
Proof.
  intros Hp Hc. rewrite calm_S in Hc. apply andb_true_iff in Hc as [Hc1 Hc2].
  unfold get_days_since_activity, get_commits, get_issue_comments.
  rewrite (try_bind_ok _ _ _ _ _ _ (read_pull_calm pr_commits _ _ _ Hp Hc1)).
  assert (pulls (skip 1 w) !! pr_number pr = Some p) as Hp1 by exact Hp.
  rewrite (try_bind_ok _ _ _ _ _ _ (read_pull_calm pr_comments _ _ _ Hp1 Hc2)).
  rewrite skip_skip. simpl.
  rewrite fold_commits, fold_comments, <- fold_left_app, fold_later_none.
  reflexivity.
Qed.

(** *** Footprint: the bot writes on issues and on the pull request at hand *)

Section Footprint.
Context (pr : Pull) (R : World -> World -> Prop) (HR : closed_for (pr_number pr) R).
Context (HI : closed_issues R).

#[local] Instance footprint_pre : PreOrder R.
Proof. exact (closed_pre _ R HR). Qed.

Lemma keeps_get_last_changes_requested : keeps R (get_last_changes_requested pr).
Proof. unfold get_last_changes_requested, get_reviews. repeat keeps_step HR HI. Qed.

Lemma keeps_get_days_since_activity lcr : keeps R (get_days_since_activity pr lcr).
Proof.
  unfold get_days_since_activity, get_commits, get_issue_comments.
  repeat keeps_step HR HI.
Qed.

Lemma keeps_has_bot_comment marker : keeps R (has_bot_comment pr marker).
Proof. unfold has_bot_comment, get_issue_comments. repeat keeps_step HR HI. Qed.

Lemma keeps_unassign_linked_issues : keeps R (unassign_linked_issues pr).
Proof. unfold unassign_linked_issues. repeat keeps_step HR HI. Qed.

Lemma keeps_close_stale_pr d : keeps R (close_stale_pr pr d).
Proof.
  unfold close_stale_pr.
  repeat first [apply keeps_unassign_linked_issues | keeps_step HR HI].
Qed.

Lemma keeps_mark_pr_stale d : keeps R (mark_pr_stale pr d).
Proof.
  unfold mark_pr_stale.
  repeat first [apply keeps_unassign_linked_issues | keeps_step HR HI].
Qed.

Lemma keeps_send_stale_warning d : keeps R (send_stale_warning pr d).
Proof. unfold send_stale_warning. repeat keeps_step HR HI. Qed.

Ltac stale_step HR HI :=
  lazymatch goal with
  | |- keeps _ (get_last_changes_requested _) => apply keeps_get_last_changes_requested
  | |- keeps _ (get_days_since_activity _ _) => apply keeps_get_days_since_activity
  | |- keeps _ (has_bot_comment _ _) => apply keeps_has_bot_comment
  | |- keeps _ (unassign_linked_issues _) => apply keeps_unassign_linked_issues
  | |- keeps _ (close_stale_pr _ _) => apply keeps_close_stale_pr
  | |- keeps _ (mark_pr_stale _ _) => apply keeps_mark_pr_stale
  | |- keeps _ (send_stale_warning _ _) => apply keeps_send_stale_warning
  | |- _ => keeps_step HR HI
  end.

Lemma keeps_process_pr c : keeps R (process_pr c pr).
Proof. unfold process_pr. repeat stale_step HR HI. Qed.

End Footprint.

(** *** The scan for earlier comments of the bot *)

Lemma has_bot_comment_calm pr p marker w :
  pulls w !! pr_number pr = Some p -> calm 1 (faults w) = true ->
  ∃ b, has_bot_comment pr marker w = (Ok b, skip 1 w)
       ∧ (b = true ↔ bot_said marker p).
Proof.
  intros Hp Hc. unfold has_bot_comment, get_issue_comments.
  rewrite (try_bind_ok _ _ _ _ _ _ (read_pull_calm pr_comments _ _ _ Hp Hc)).
  eexists. split; [reflexivity|]. unfold bot_said.
  rewrite existsb_exists. split.
  - intros (c & Hin & H). apply andb_true_iff in H as [H1 H2].
    apply bool_decide_eq_true in H1. apply contains_spec in H2.
    exists c. split; [by apply list_elem_of_In|]. auto.
  - intros (c & Hin & H1 & H2). exists c. split; [by apply list_elem_of_In|].
    apply andb_true_iff. split; [by apply bool_decide_eq_true|by apply contains_spec].
Qed.

Lemma has_bot_comment_raises pr marker w e :
  head (faults w) = Some (Some e) ->
  has_bot_comment pr marker w = (Ok false, skip 1 w).
Proof.
  intros H. unfold has_bot_comment, get_issue_comments.
  by rewrite (try_bind_raise _ _ _ _ _ _ (remote_raises _ _ _ H)).
Qed.

(** The text of every warning holds "unassigned", a marker of the unassign
    tier: once a warning was posted from an account of type Bot, the guard of
    that tier finds it. *)
Lemma of_string_app s1 s2 : of_string (s1 ++ s2) = of_string s1 ++ of_string s2.
Proof. induction s1 as [|c s1 IH]; simpl; [done|]. by rewrite <- IH. Qed.

Lemma occurs_in_app_r needle pre hay :
  occurs_in needle hay -> occurs_in needle (pre ++ hay).
Proof.
  intros (p & q & ->). exists (pre ++ p), q. by rewrite <- app_assoc.
Qed.

Remark warning_holds_unassigned pr_author days_inactive :
  occurs_in (lower (of_string "unassigned"))
            (lower (of_string (warning_message pr_author days_inactive))).
Proof.
  unfold warning_message. unfold lower. rewrite !of_string_app, !map_app.
  do 6 apply occurs_in_app_r. by apply contains_spec.
Qed.

(** *** One iteration of the loop *)

Lemma process_pr_dispatch c pr w t w1 d w2 :
  get_last_changes_requested pr w = (Ok (Some t), w1) ->
  get_days_since_activity pr (Some t) w1 = (Ok d, w2) ->
  process_pr c pr w
  = try_except (bind (dispatch c pr d)
                     (fun c' => bind (sleep 100000) (fun _ => ret c')))
               (fun _ => ret c) w2.
Proof.
  intros E1 E2. unfold process_pr.
  rewrite (try_bind_ok _ _ _ _ _ _ E1). by rewrite (try_bind_ok _ _ _ _ _ _ E2).
Qed.

Lemma close_stale_pr_total pr d w : ∃ b w', close_stale_pr pr d w = (Ok b, w').
Proof. apply try_total. Qed.
Lemma mark_pr_stale_total pr d w : ∃ b w', mark_pr_stale pr d w = (Ok b, w').
Proof. apply try_total. Qed.
Lemma send_stale_warning_total pr d w : ∃ b w', send_stale_warning pr d w = (Ok b, w').
Proof. apply try_total. Qed.

(** After the guards, the chosen tier runs and the iteration pauses. *)
Lemma tier_then_pause (tier : Pull -> Z -> M bool) pr d c w :
  (∀ w, ∃ b w', tier pr d w = (Ok b, w')) ->
  ∃ done w', tier pr d w = (Ok done, w')
    ∧ try_except (bind (bind (tier pr d) (fun done => ret (count c done)))
                       (fun c' => bind (sleep 100000) (fun _ => ret c')))
                 (fun _ => ret c) w
      = (Ok (count c done), paused w').
Proof.
  intros Htot. destruct (Htot w) as (b & w' & E). exists b, w'. split; auto.
  by rewrite (try_bind_ok _ _ _ _ _ _ (bind_ok _ _ _ _ _ E)).
Qed.

(** Two guards in a row: both scans are made unless the first finds its
    marker. *)
Lemma guarded_tier (tier : Pull -> Z -> M bool) pr p d c m1 m2 w :
  (∀ w, ∃ b w', tier pr d w = (Ok b, w')) ->
  pulls w !! pr_number pr = Some p -> calm 2 (faults w) = true ->
  let outcome :=
    try_except
      (bind (bind (has_bot_comment pr m1) (fun b1 =>
               if b1 then ret c
               else bind (has_bot_comment pr m2) (fun b2 =>
                      if b2 then ret c
                      else bind (tier pr d) (fun done => ret (count c done)))))
            (fun c' => bind (sleep 100000) (fun _ => ret c')))
      (fun _ => ret c) w in
  (¬ bot_said m1 p ∧ ¬ bot_said m2 p -> fires tier pr d c (skip 2 w) outcome)
  ∧ (bot_said m1 p ∨ bot_said m2 p -> idle c w outcome).
Proof.
  intros Htot Hp Hc outcome. subst outcome.
  rewrite calm_S in Hc. apply andb_true_iff in Hc as [Hc1 Hc2].
  destruct (has_bot_comment_calm pr p m1 w Hp Hc1) as (b1 & E1 & Hb1).
  assert (pulls (skip 1 w) !! pr_number pr = Some p) as Hp1 by exact Hp.
  destruct (has_bot_comment_calm pr p m2 (skip 1 w) Hp1 Hc2) as (b2 & E2 & Hb2).
  rewrite skip_skip in E2. simpl in E2.
  rewrite (try_bind_bind_ok _ _ _ _ _ _ _ E1).
  destruct b1.
  { split; [intros [H _]; exfalso; by apply H, Hb1|].
    intros _. exists (paused (skip 1 w)). by repeat split. }
  rewrite (try_bind_bind_ok _ _ _ _ _ _ _ E2).
  destruct b2.
  { split; [intros [_ H]; exfalso; by apply H, Hb2|].
    intros _. exists (paused (skip 2 w)). by repeat split. }
  split.
  - intros _. destruct (tier_then_pause tier pr d c (skip 2 w) Htot) as (b & w' & E & ->).
    exists b, w'. auto.
  - intros [H|H]; [apply Hb1 in H|apply Hb2 in H]; discriminate.
Qed.

(** C1.  For a pull request whose latest review requesting changes is at
    [t] and whose [days_inactive] is [d], the iteration of
    [process_stale_prs] applies exactly one tier, the most severe whose
    threshold is met: from 60 days the close tier, whatever the comments;
    from 14 to 59 days the unassign tier if and only if no comment of a bot
    contains "stale" or "unassigned"; from 7 to 13 days the warn tier if and
    only if no comment of a bot contains "reminder" or "stale warning";
    below 7 days nothing.  (The comments are those the tracker lists when
    the two scans succeed; markers are compared letter case aside.) *)
Theorem tier_selection (c : Z) (pr : Pull) (t d : Z) (w w1 w2 : World) :
  get_last_changes_requested pr w = (Ok (Some t), w1) ->
  get_days_since_activity pr (Some t) w1 = (Ok d, w2) ->
  let outcome := process_pr c pr w in
  (60 <= d -> fires close_stale_pr pr d c w2 outcome)
  ∧ (14 <= d < 60 ->
     ∀ p, pulls w2 !! pr_number pr = Some p -> calm 2 (faults w2) = true ->
       (¬ bot_said "stale" p ∧ ¬ bot_said "unassigned" p ->
        fires mark_pr_stale pr d c (skip 2 w2) outcome)
       ∧ (bot_said "stale" p ∨ bot_said "unassigned" p -> idle c w2 outcome))
  ∧ (7 <= d < 14 ->
     ∀ p, pulls w2 !! pr_number pr = Some p -> calm 2 (faults w2) = true ->
       (¬ bot_said "reminder" p ∧ ¬ bot_said "stale warning" p ->
        fires send_stale_warning pr d c (skip 2 w2) outcome)
       ∧ (bot_said "reminder" p ∨ bot_said "stale warning" p -> idle c w2 outcome))
  ∧ (d < 7 -> idle c w2 outcome).
Proof.
  intros E1 E2 outcome. subst outcome.
  rewrite (process_pr_dispatch c pr w t w1 d w2 E1 E2). unfold dispatch.
  unfold DAYS_BEFORE_CLOSE, DAYS_BEFORE_UNASSIGN, DAYS_BEFORE_STALE_WARNING.
  split; [|split; [|split]].
  - intros Hd. rewrite (proj2 (Z.leb_le 60 d)) by done.
    destruct (tier_then_pause close_stale_pr pr d c w2 (close_stale_pr_total pr d))
      as (b & w' & E & ->).
    exists b, w'. auto.
  - intros [Hd1 Hd2] p Hp Hc.
    rewrite (proj2 (Z.leb_gt 60 d)) by done. rewrite (proj2 (Z.leb_le 14 d)) by done.
    apply (guarded_tier mark_pr_stale pr p d c); auto using mark_pr_stale_total.
  - intros [Hd1 Hd2] p Hp Hc.
    rewrite (proj2 (Z.leb_gt 60 d)) by lia. rewrite (proj2 (Z.leb_gt 14 d)) by done.
    rewrite (proj2 (Z.leb_le 7 d)) by done.
    apply (guarded_tier send_stale_warning pr p d c); auto using send_stale_warning_total.
  - intros Hd.
    rewrite (proj2 (Z.leb_gt 60 d)) by lia. rewrite (proj2 (Z.leb_gt 14 d)) by lia.
    rewrite (proj2 (Z.leb_gt 7 d)) by done.
    exists (paused w2). by repeat split.
Qed.

(** *** Pull requests without a review requesting changes *)

Lemma process_pr_unreviewed c pr w :
  (∀ p, pulls w !! pr_number pr = Some p ->
        ∀ r, r ∈ pr_reviews p -> r_state r ≠ "CHANGES_REQUESTED"%string) ->
  process_pr c pr w = (Ok c, skip 1 w).
Proof.
  intros H. unfold process_pr.
  by rewrite (try_bind_ok _ _ _ _ _ _ (get_last_changes_requested_none pr w H)).
Qed.

Lemma process_pr_total c pr w : ∃ c' w', process_pr c pr w = (Ok c', w').
Proof. apply try_total. Qed.

Lemma process_pr_spares n p c pr w :
  pulls w !! n = Some p ->
  (∀ r, r ∈ pr_reviews p -> r_state r ≠ "CHANGES_REQUESTED"%string) ->
  spares n w (snd (process_pr c pr w)).
Proof.
  intros Hp Hr. destruct (decide (pr_number pr = n)) as [E|E].
  - rewrite process_pr_unreviewed.
    + apply untouched_spares, untouched_skip.
    + rewrite E. intros p' Hp'. by replace p' with p by congruence.
  - apply (keeps_process_pr pr (spares n) (spares_closed n _ E) (spares_closed_issues n)).
Qed.

Lemma process_all_spares n p (prs : list Pull) c w :
  pulls w !! n = Some p ->
  (∀ r, r ∈ pr_reviews p -> r_state r ≠ "CHANGES_REQUESTED"%string) ->
  ∃ c' w', for_each prs c process_pr w = (Ok c', w') ∧ spares n w w'.
Proof.
  intros Hp Hr.
  destruct (for_each_invariant (fun _ w' _ => spares n w w') process_pr) with
    (xs := prs) (s := c) (w := w) as (c' & w' & E & H); eauto using spares_refl.
  intros s x xs w1 H1. destruct (process_pr_total s x w1) as (s' & w2 & E).
  exists s', w2. split; auto. eapply spares_trans; [exact H1|].
  replace w2 with (snd (process_pr s x w1)) by (by rewrite E).
  apply (process_pr_spares n p); auto. destruct H1 as [-> _]. done.
Qed.

(** C5.  A pull request without a review in state changes-requested is left
    alone by the stale-PR bot, however old it is: its iteration of the loop
    writes nothing at all, and in a whole run of the bot the pull request
    keeps its comments, labels and state and no write on it is recorded. *)
Theorem stale_bot_spares_unreviewed (self : Self) (n : Z) (p : PullRequest) (w : World) :
  pulls w !! n = Some p ->
  (∀ r, r ∈ pr_reviews p -> r_state r ≠ "CHANGES_REQUESTED"%string) ->
  (∀ c pr, pr_number pr = n ->
     ∃ w', process_pr c pr w = (Ok c, w') ∧ untouched w w')
  ∧ spares n w (snd (run self w)).
Proof.
  intros Hp Hr. split.
  - intros c pr <-. exists (skip 1 w). split; [|apply untouched_skip].
    apply process_pr_unreviewed. intros p' Hp'. by replace p' with p by congruence.
  - unfold run, process_stale_prs. destruct (client self); simpl; [|apply spares_refl].
    destruct (remote_cases
                (fun w => (Ok (map (fun p : Z * PullRequest =>
                                      {| pr_number := fst p; fetched := snd p |})
                             (filter (fun p : Z * PullRequest =>
                                        pr_state (snd p) = "open"%string)
                                     (map_to_list (pulls w)))), w)) w)
      as [(e & _ & E)|[_ E]].
    + unfold get_pulls_open, try_except, bind. rewrite E. simpl.
      apply untouched_spares, untouched_skip.
    + unfold get_pulls_open, try_except, bind. rewrite E.
      destruct (process_all_spares n p
                  (map (fun p : Z * PullRequest =>
                          {| pr_number := fst p; fetched := snd p |})
                       (filter (fun p : Z * PullRequest =>
                                  pr_state (snd p) = "open"%string)
                               (map_to_list (pulls (skip 1 w))))) 0%Z (skip 1 w) Hp Hr)
        as (c' & w' & E' & H).
      rewrite E'. simpl. eapply spares_trans; [|exact H].
      apply untouched_spares, untouched_skip.
Qed.

(** *** When the activity cannot be fetched *)

Lemma get_days_since_activity_fetch_fails pr t w :
  fetch_fails (pr_number pr) w ->
  ∃ w', get_days_since_activity pr (Some t) w = (Ok 0, w') ∧ untouched w w'.
Proof.
  intros Hf. unfold get_days_since_activity, get_commits, get_issue_comments.
  destruct (read_pull_cases pr_commits (pr_number pr) w) as [(e & E)|(p & Hp & Hc & E)].
  { rewrite (try_bind_raise _ _ _ _ _ _ E). eauto using untouched_skip. }
  rewrite (try_bind_ok _ _ _ _ _ _ E).
  destruct (read_pull_cases pr_comments (pr_number pr) (skip 1 w))
    as [(e & E2)|(p2 & Hp2 & Hc2 & E2)].
  { rewrite (try_bind_raise _ _ _ _ _ _ E2). rewrite skip_skip. eauto using untouched_skip. }
  exfalso. rewrite faults_skip in Hc2.
  destruct Hf as [[e He]|[[e He]|He]]; [| |congruence];
    destruct (faults w) as [|[?|] [|[?|] ?]]; simpl in *; congruence.
Qed.

Lemma dispatch_below c pr d w :
  d < 7 -> dispatch c pr d w = (Ok c, w).
Proof.
  intros Hd. unfold dispatch.
  unfold DAYS_BEFORE_CLOSE, DAYS_BEFORE_UNASSIGN, DAYS_BEFORE_STALE_WARNING.
  rewrite (proj2 (Z.leb_gt 60 d)) by lia. rewrite (proj2 (Z.leb_gt 14 d)) by lia.
  by rewrite (proj2 (Z.leb_gt 7 d)).
Qed.

(** C10.  [get_days_since_activity] returns 0 when the timestamp of the last
    review requesting changes is absent, and when listing the commits or the
    comments of the pull request raises; the iteration for such a pull
    request then writes nothing, 0 being below every threshold. *)
Theorem no_tier_without_activity_data
    (c : Z) (pr : Pull) (lcr : option Z) (w w1 : World) :
  get_last_changes_requested pr w = (Ok lcr, w1) ->
  lcr = None ∨ fetch_fails (pr_number pr) w1 ->
  (∃ w2, get_days_since_activity pr lcr w1 = (Ok 0, w2) ∧ untouched w1 w2)
  ∧ idle c w1 (process_pr c pr w).
Proof.
  intros E1 H. destruct lcr as [t|].
  - destruct H as [H|H]; [discriminate|].
    destruct (get_days_since_activity_fetch_fails pr t w1 H) as (w2 & E2 & Hu).
    split; [eauto|].
    rewrite (process_pr_dispatch c pr w t w1 0 w2 E1 E2).
    unfold try_except, bind. rewrite dispatch_below by lia. simpl.
    exists (paused w2). destruct Hu as (? & ? & ? & _). by repeat split.
  - split; [exists w1; split; [reflexivity|apply untouched_refl]|].
    unfold process_pr. rewrite (try_bind_ok _ _ _ _ _ _ E1).
    exists w1. by repeat split.
Qed.

(** *** When the comments cannot be listed *)

Lemma create_issue_comment_calm n p body w :
  pulls w !! n = Some p -> calm 1 (faults w) = true ->
  ∃ w', create_issue_comment n body w = (Ok tt, w')
        ∧ log w' = log w ++ [PrComment n body].
Proof.
  intros Hp Hc. unfold create_issue_comment. rewrite remote_calm by done.
  unfold with_pull. change (pulls (skip 1 w)) with (pulls w). rewrite Hp.
  eexists. split; reflexivity.
Qed.

(** A tier that starts by posting [body] leaves it in the record. *)
Lemma tier_posts {A} (n : Z) p body (k : unit -> M A) h w :
  pulls w !! n = Some p -> calm 1 (faults w) = true ->
  (keeps log_grows (k tt)) -> (∀ e, keeps log_grows (h e)) ->
  ∃ rest, log (snd (try_except (bind (create_issue_comment n body) k) h w))
          = log w ++ PrComment n body :: rest.
Proof.
  intros Hp Hc Hk Hh.
  destruct (create_issue_comment_calm n p body w Hp Hc) as (w' & E & Hl).
  rewrite (try_bind_ok _ _ _ _ _ _ E).
  assert (keeps log_grows (try_except (k tt) h)) as Hkeep.
  { apply keeps_try; auto. apply (closed_pre n _ (log_grows_closed n)). }
  destruct (Hkeep w') as [rest Hrest].
  exists rest. rewrite Hrest, Hl, <- app_assoc. reflexivity.
Qed.

Lemma mark_pr_stale_posts pr p d w :
  pulls w !! pr_number pr = Some p -> calm 1 (faults w) = true ->
  ∃ rest, log (snd (mark_pr_stale pr d w))
          = log w ++ PrComment (pr_number pr)
                       (unassign_message (login (pr_user (fetched pr))) d) :: rest.
Proof.
  intros Hp Hc. unfold mark_pr_stale. apply (tier_posts _ p); auto.
  - pose proof (log_grows_closed (pr_number pr)) as HR.
    pose proof log_grows_closed_issues as HI.
    pose proof (closed_pre _ _ HR).
    repeat first [apply (keeps_unassign_linked_issues pr _ HR HI) | keeps_step HR HI].
  - intros e. apply keeps_ret. apply (closed_pre _ _ (log_grows_closed 0)).
Qed.

Lemma send_stale_warning_posts pr p d w :
  pulls w !! pr_number pr = Some p -> calm 1 (faults w) = true ->
  ∃ rest, log (snd (send_stale_warning pr d w))
          = log w ++ PrComment (pr_number pr)
                       (warning_message (login (pr_user (fetched pr))) d) :: rest.
Proof.
  intros Hp Hc. unfold send_stale_warning. apply (tier_posts _ p); auto.
  - apply keeps_ret. apply (closed_pre _ _ (log_grows_closed 0)).
  - intros e. apply keeps_ret. apply (closed_pre _ _ (log_grows_closed 0)).
Qed.

(** C9, as the code has it.  [has_bot_comment] answers false when listing
    the comments raises.  So when the activity of the pull request was
    fetched, with an inactivity of 7 to 59 days, and both scans of the
    guarded tier then fail, the tier runs all the same, whatever comments
    the pull request already has, and posts its comment again if the
    tracker accepts it. *)
Theorem guards_bypassed_when_listing_fails
    (c : Z) (pr : Pull) (p : PullRequest) (t d : Z) (w w1 w2 : World)
    (e1 e2 : exn) (fs : list (option exn)) :
  get_last_changes_requested pr w = (Ok (Some t), w1) ->
  get_days_since_activity pr (Some t) w1 = (Ok d, w2) ->
  7 <= d < 60 ->
  faults w2 = Some e1 :: Some e2 :: fs ->
  pulls w2 !! pr_number pr = Some p ->
  (∀ marker, has_bot_comment pr marker w2 = (Ok false, skip 1 w2))
  ∧ fires (if (14 <=? d)%Z then mark_pr_stale else send_stale_warning)
          pr d c (skip 2 w2) (process_pr c pr w)
  ∧ (calm 1 fs = true ->
     ∃ rest, log (snd (process_pr c pr w))
             = log w2 ++ PrComment (pr_number pr)
                 ((if (14 <=? d)%Z then unassign_message else warning_message)
                    (login (pr_user (fetched pr))) d) :: rest).
Proof.
  intros E1 E2 Hd Hf Hp.
  assert (∀ marker, has_bot_comment pr marker w2 = (Ok false, skip 1 w2)) as G1.
  { intros marker. apply (has_bot_comment_raises _ _ _ e1). by rewrite Hf. }
  assert (∀ marker, has_bot_comment pr marker (skip 1 w2) = (Ok false, skip 2 w2)) as G2.
  { intros marker. rewrite (has_bot_comment_raises _ _ _ e2).
    - by rewrite skip_skip.
    - rewrite faults_skip, Hf. reflexivity. }
  split; [exact G1|].
  assert (fires (if (14 <=? d)%Z then mark_pr_stale else send_stale_warning)
                pr d c (skip 2 w2) (process_pr c pr w)) as Hfires.
  { rewrite (process_pr_dispatch c pr w t w1 d w2 E1 E2). unfold dispatch.
    unfold DAYS_BEFORE_CLOSE, DAYS_BEFORE_UNASSIGN, DAYS_BEFORE_STALE_WARNING.
    rewrite (proj2 (Z.leb_gt 60 d)) by lia.
    destruct (Z.leb_spec 14 d).
    - rewrite (try_bind_bind_ok _ _ _ _ _ _ _ (G1 _)). cbn iota.
      rewrite (try_bind_bind_ok _ _ _ _ _ _ _ (G2 _)). cbn iota.
      destruct (tier_then_pause mark_pr_stale pr d c (skip 2 w2) (mark_pr_stale_total pr d))
        as (b & w' & E & ->).
      exists b, w'. auto.
    - rewrite (proj2 (Z.leb_le 7 d)) by lia.
      rewrite (try_bind_bind_ok _ _ _ _ _ _ _ (G1 _)). cbn iota.
      rewrite (try_bind_bind_ok _ _ _ _ _ _ _ (G2 _)). cbn iota.
      destruct (tier_then_pause send_stale_warning pr d c (skip 2 w2)
                  (send_stale_warning_total pr d)) as (b & w' & E & ->).
      exists b, w'. auto. }
  split; [exact Hfires|].
  intros Hc. destruct Hfires as (b & w' & E & ->). simpl.
  assert (calm 1 (faults (skip 2 w2)) = true) as Hc2.
  { rewrite faults_skip, Hf. exact Hc. }
  assert (pulls (skip 2 w2) !! pr_number pr = Some p) as Hp2 by exact Hp.
  destruct (14 <=? d)%Z.
  - destruct (mark_pr_stale_posts pr p d (skip 2 w2) Hp2 Hc2) as [rest H].
    rewrite E in H. eauto.
  - destruct (send_stale_warning_posts pr p d (skip 2 w2) Hp2 Hc2) as [rest H].
    rewrite E in H. eauto.
Qed.

End StaleFacts.

(** ** The reopen bot *)

Module ReopenFacts.
Import Linked Tracker Event Runs TrackerFacts MonadFacts ReadFacts Keeps OpFacts.
Import LinkedFacts PRReopenBot ReopenSpec ReopenParts.

Lemma reassign_issues_to_author_unfold n a pr_body :
  reassign_issues_to_author n a pr_body
  = try_except
      (bind (extract_linked_issues pr_body) (fun linked_issues =>
         match linked_issues with
         | [] => ret []
         | _ => for_each linked_issues [] (reassign_step n a)
         end))
      (fun _ => ret []).
Proof. reflexivity. Qed.

(** A body that cannot be read makes the function return an empty list at
    once. *)
Lemma reassign_issues_to_author_unread n a pr_body w e :
  extract_linked_issues pr_body w = (Raise e, w) ->
  reassign_issues_to_author n a pr_body w = (Ok [], w).
Proof.
  intros E. rewrite reassign_issues_to_author_unfold.
  by rewrite (try_bind_raise _ _ _ _ _ _ E).
Qed.

Lemma issue_write_cases k (f : Issue -> World -> Issue) (m : Mutation) w :
  let op := remote (with_issue k (fun i w =>
              bind (update_issue k (f i w)) (fun _ => write m) w)) in
  (∃ e, op w = (Raise e, skip 1 w))
  ∨ (∃ i, issues w !! k = Some i
          ∧ op w = (Ok tt, record m (set_issues (insert k (f i (skip 1 w))) (skip 1 w)))).
Proof.
  intros op. subst op.
  destruct (remote_cases (with_issue k (fun i w =>
              bind (update_issue k (f i w)) (fun _ => write m) w)) w)
    as [(e & _ & E)|[_ E]]; rewrite E; [eauto|].
  unfold with_issue. change (issues (skip 1 w)) with (issues w).
  destruct (issues w !! k) as [i|]; [right|left]; eauto.
Qed.

Lemma add_to_assignees_cases k a w :
  (∃ e, add_to_assignees k a w = (Raise e, skip 1 w))
  ∨ (∃ i, issues w !! k = Some i
          ∧ add_to_assignees k a w
            = (Ok tt, record (AddAssignee k a)
                        (set_issues (insert k (set_i_assignees
                           (if bool_decide (a ∈ i_assignees i) then i_assignees i
                            else i_assignees i ++ [a]) i)) (skip 1 w)))).
Proof.
  apply (issue_write_cases k (fun i _ => set_i_assignees
           (if bool_decide (a ∈ i_assignees i) then i_assignees i
            else i_assignees i ++ [a]) i) (AddAssignee k a) w).
Qed.

Lemma create_comment_cases k body w :
  (∃ e, create_comment k body w = (Raise e, skip 1 w))
  ∨ (∃ i, issues w !! k = Some i
          ∧ create_comment k body w
            = (Ok tt, record (IssueComment k body)
                        (set_issues (insert k (set_i_comments
                           (i_comments i ++ [new_comment body (skip 1 w)]) i)) (skip 1 w)))).
Proof.
  apply (issue_write_cases k (fun i w => set_i_comments
           (i_comments i ++ [new_comment body w]) i) (IssueComment k body) w).
Qed.

(** One linked issue: either nothing is written and the list is as it was,
    or the issue had no assignee, it is assigned, and its number is added. *)
Lemma reassign_step_cases n a acc k w :
  ∃ acc' w', reassign_step n a acc k w = (Ok acc', w')
    ∧ ((acc' = acc ∧ untouched w w') ∨ (acc' = acc ++ [k] ∧ claims a k w w')).
Proof.
  unfold reassign_step.
  destruct (get_issue_cases k w) as [(e & E)|(i & Hi & E)].
  { rewrite (try_bind_raise _ _ _ _ _ _ E). eauto 6 using untouched_skip. }
  rewrite (try_bind_ok _ _ _ _ _ _ E).
  destruct (i_pull_request i) eqn:Hpr.
  { eauto 6 using untouched_skip. }
  cbv zeta. destruct (i_assignees i) as [|x l] eqn:Hl.
  2:{ rewrite (bool_decide_false (x :: l = [])) by done. cbn [negb andb].
      destruct (bool_decide (a ∈ x :: l)); cbn [negb]; eauto 6 using untouched_skip. }
  rewrite bool_decide_true by done.
  rewrite (bool_decide_false (a ∈ [])) by (apply not_elem_of_nil). cbn [negb andb].
  destruct (add_to_assignees_cases k a (skip 1 w)) as [(e & E2)|(i' & Hi' & E2)].
  { rewrite (try_bind_raise _ _ _ _ _ _ E2). rewrite skip_skip.
    eauto 6 using untouched_skip. }
  change (issues (skip 1 w)) with (issues w) in Hi'.
  assert (i' = i) as -> by congruence.
  rewrite (try_bind_ok _ _ _ _ _ _ E2). rewrite Hl.
  rewrite (bool_decide_false (a ∈ [])) by (apply not_elem_of_nil).
  match goal with |- context [create_comment k ?b] =>
    match goal with |- context [try_except _ _ ?w1] =>
      destruct (create_comment_cases k b w1) as [(e & E3)|(i3 & Hi3 & E3)]
    end
  end.
  - rewrite try_ok with (a := acc ++ [k])
      (w1 := skip 1 (record (AddAssignee k a)
               (set_issues (insert k (set_i_assignees ([] ++ [a]) i)) (skip 1 (skip 1 w))))).
    2:{ by rewrite (try_bind_raise _ _ _ _ _ _ E3). }
    eexists _, _. split; [reflexivity|]. right. split; auto.
    exists i, []. repeat split; auto.
    intros k' Hk'. simpl. by rewrite lookup_insert_ne.
  - rewrite try_ok with (a := acc ++ [k])
      (w1 := record (IssueComment k (welcome_message a n))
               (set_issues (insert k (set_i_comments
                  (i_comments i3 ++ [new_comment (welcome_message a n)
                     (skip 1 (record (AddAssignee k a)
                        (set_issues (insert k (set_i_assignees ([] ++ [a]) i))
                           (skip 1 (skip 1 w)))))]) i3))
                  (skip 1 (record (AddAssignee k a)
                     (set_issues (insert k (set_i_assignees ([] ++ [a]) i))
                        (skip 1 (skip 1 w))))))).
    2:{ by rewrite (try_bind_ok _ _ _ _ _ _ E3). }
    eexists _, _. split; [reflexivity|]. right. split; auto.
    exists i, [IssueComment k (welcome_message a n)]. repeat split; auto.
    + intros k' Hk'. simpl. by rewrite !lookup_insert_ne.
    + simpl. by rewrite <- app_assoc.
    + repeat constructor. eauto.
Qed.

(** *** Loops over the linked issues *)

Lemma careful_refl a w : careful a w w.
Proof. split; [|by left]. exists []. by rewrite app_nil_r. Qed.

Lemma careful_untouched a w0 w w' : careful a w0 w -> untouched w w' -> careful a w0 w'.
Proof.
  intros [(d & Hl & Hd) Hi] (_ & Hi' & Hl' & _). split.
  - exists d. by rewrite Hl'.
  - intros k. by rewrite Hi'.
Qed.

Lemma careful_neutral a w0 w w' : careful a w0 w -> issue_neutral w w' -> careful a w0 w'.
Proof.
  intros [(d & Hl & Hd) Hi] [Hi' (d' & Hl' & Hd')]. split.
  - exists (d ++ d'). rewrite Hl', Hl, app_assoc. split; auto.
    apply Forall_app. split; auto.
    eapply Forall_impl; [exact Hd'|]. intros m Hm k Hk. congruence.
  - intros k. by rewrite Hi'.
Qed.

Lemma neutral_careful a w0 w w' : issue_neutral w0 w -> careful a w w' -> careful a w0 w'.
Proof.
  intros [Hi (d & Hl & Hd)] [(d' & Hl' & Hd') Hi']. split.
  - exists (d ++ d'). rewrite Hl', Hl, app_assoc. split; auto.
    apply Forall_app. split.
    + eapply Forall_impl; [exact Hd|]. intros m Hm k Hk. congruence.
    + eapply Forall_impl; [exact Hd'|]. intros m Hm k Hk. rewrite <- Hi. auto.
  - intros k. rewrite <- Hi. apply Hi'.
Qed.

Lemma careful_claims a w0 w w' k :
  careful a w0 w -> issues w !! k = issues w0 !! k -> claims a k w w' ->
  careful a w0 w'.
Proof.
  intros [(d & Hl & Hd) Hi] Hk (i & d' & Hik & _ & Has & Hother & _ & Hl' & Hd').
  rewrite Hk in Hik. split.
  - exists (d ++ AddAssignee k a :: d'). rewrite Hl', Hl, <- app_assoc. split; auto.
    apply Forall_app. split; auto. constructor.
    + intros k0 [= <-]. split; [eauto|]. by intros u [= <-].
    + eapply Forall_impl; [exact Hd'|]. intros m [body ->] k0 [= <-].
      split; [eauto|]. intros u. discriminate.
  - intros k'. destruct (decide (k' = k)) as [->|Hne]; [eauto|].
    rewrite (Hother k' Hne). apply Hi.
Qed.

(** A loop over distinct issues, each step of which writes nothing or claims
    its issue, is careful. *)
Lemma careful_loop {S} (step : S -> Z -> M S) a w0 :
  (∀ s k w, ∃ s' w', step s k w = (Ok s', w')
                     ∧ (untouched w w' ∨ claims a k w w')) ->
  ∀ xs s w, NoDup xs -> careful a w0 w ->
    (∀ k, k ∈ xs -> issues w !! k = issues w0 !! k) ->
    ∃ s' w', for_each xs s step w = (Ok s', w') ∧ careful a w0 w'.
Proof.
  intros Hstep xs. induction xs as [|k xs IH]; intros s w Hnd Hc Hsame; simpl.
  - exists s, w. auto.
  - apply NoDup_cons in Hnd as [Hk Hnd].
    destruct (Hstep s k w) as (s1 & w1 & E & H).
    rewrite (bind_ok _ _ _ _ _ E). apply IH; auto.
    + destruct H as [H|H].
      * eapply careful_untouched; eauto.
      * eapply careful_claims; eauto. apply Hsame. by left.
    + intros k' Hk'. rewrite <- (Hsame k') by (by right).
      destruct H as [(_ & -> & _)|(i & d & _ & _ & _ & Hother & _)]; auto.
      apply Hother. intros ->. done.
Qed.

Lemma assigned_app l1 l2 : assigned (l1 ++ l2) = assigned l1 ++ assigned l2.
Proof. unfold assigned. apply omap_app. Qed.

Lemma assigned_comments k delta :
  Forall (fun m => ∃ body, m = IssueComment k body) delta -> assigned delta = [].
Proof.
  induction 1 as [|m l [body ->] _ IH]; auto.
Qed.

Lemma assigned_neutral delta :
  Forall (fun m => on_issue m = None) delta -> assigned delta = [].
Proof.
  induction 1 as [|m l Hm _ IH]; auto. destruct m; try discriminate; auto.
Qed.

(** The list returned by the loop is the list of the issues it assigned. *)
Lemma reassign_loop_assigned n a xs acc w :
  ∃ acc' w' delta, for_each xs acc (reassign_step n a) w = (Ok acc', w')
    ∧ log w' = log w ++ delta ∧ acc' = acc ++ assigned delta.
Proof.
  destruct (for_each_invariant
              (fun acc' w' _ => ∃ delta, log w' = log w ++ delta
                                         ∧ acc' = acc ++ assigned delta)
              (reassign_step n a)) with (xs := xs) (s := acc) (w := w)
    as (acc' & w' & E & delta & H); [| |eauto 6].
  - intros s x xs' w1 (delta & Hl & ->).
    destruct (reassign_step_cases n a (acc ++ assigned delta) x w1)
      as (s' & w2 & E & [[-> (_ & _ & Hl2 & _)]|[-> (i & d & _ & _ & _ & _ & _ & Hl2 & Hd)]]).
    + exists (acc ++ assigned delta), w2. split; auto. exists delta. by rewrite Hl2.
    + exists ((acc ++ assigned delta) ++ [x]), w2. split; auto.
      exists (delta ++ AddAssignee x a :: d). rewrite Hl2, Hl, <- !app_assoc.
      split; auto. f_equal. rewrite assigned_app. f_equal. simpl.
      by rewrite (assigned_comments x d Hd).
  - exists []. by rewrite !app_nil_r.
Qed.

(** *** Carefulness is kept by everything but a write on an assigned issue *)

Lemma careful_trans a w0 w1 w2 : careful a w0 w1 -> careful a w1 w2 -> careful a w0 w2.
Proof.
  intros [(d1 & Hl1 & Hd1) Hi1] [(d2 & Hl2 & Hd2) Hi2].
  assert (∀ k, (∃ i, issues w1 !! k = Some i ∧ i_assignees i = []) ->
               ∃ i, issues w0 !! k = Some i ∧ i_assignees i = []) as Hback.
  { intros k (i & Hk & Hi). destruct (Hi1 k) as [E|?]; auto. rewrite E in Hk. eauto. }
  split.
  - exists (d1 ++ d2). rewrite Hl2, Hl1, app_assoc. split; auto.
    apply Forall_app. split; auto.
    eapply Forall_impl; [exact Hd2|]. intros m Hm k Hk.
    destruct (Hm k Hk) as [H1 H2]. auto.
  - intros k. destruct (Hi2 k) as [E|H]; [rewrite E; apply Hi1|auto].
Qed.

Lemma neutral_is_careful a w w' : issue_neutral w w' -> careful a w w'.
Proof. intros H. eapply careful_neutral; [apply careful_refl|exact H]. Qed.

Lemma careful_closed a q : closed_for q (careful a).
Proof.
  pose proof (issue_neutral_closed q) as HN.
  split; [split|..].
  - intros w. apply careful_refl.
  - intros w1 w2 w3. apply careful_trans.
  - intros w. apply neutral_is_careful, (closed_skip _ _ HN).
  - intros w t. apply neutral_is_careful, (closed_now _ _ HN).
  - intros w pr. apply neutral_is_careful, (closed_pull _ _ HN).
  - intros w m Hm. by apply neutral_is_careful, (closed_record_pull _ _ HN).
Qed.

#[export] Instance careful_pre a : PreOrder (careful a).
Proof. exact (closed_pre _ _ (careful_closed a 0)). Qed.

Lemma keeps_careful_loop {S} (step : S -> Z -> M S) a xs s :
  NoDup xs ->
  (∀ s k w, ∃ s' w', step s k w = (Ok s', w')
                     ∧ (untouched w w' ∨ claims a k w w')) ->
  keeps (careful a) (for_each xs s step).
Proof.
  intros Hnd Hstep w.
  destruct (careful_loop step a w Hstep xs s w Hnd (careful_refl a w))
    as (s' & w' & E & H); auto.
  by rewrite E.
Qed.

Lemma reassign_step_careful n a s k w :
  ∃ s' w', reassign_step n a s k w = (Ok s', w')
           ∧ (untouched w w' ∨ claims a k w w').
Proof.
  destruct (reassign_step_cases n a s k w) as (s' & w' & E & [[_ H]|[_ H]]); eauto.
Qed.

Lemma keeps_reassign_issues_to_author n a pr_body :
  keeps (careful a) (reassign_issues_to_author n a pr_body).
Proof.
  rewrite reassign_issues_to_author_unfold.
  apply keeps_try; [apply _| |intros e; apply keeps_ret, _].
  apply keeps_bind_extract; [apply _|]. intros linked Hnd _.
  destruct linked as [|k ks] eqn:E; [apply keeps_ret, _|].
  rewrite <- E. apply keeps_careful_loop; [by subst|].
  apply reassign_step_careful.
Qed.

Lemma keeps_remove_stale_label (R : World -> World -> Prop) n :
  (∀ q, closed_for q R) -> keeps R (remove_stale_label n).
Proof.
  intros HR. pose proof (closed_pre _ _ (HR 0)).
  unfold remove_stale_label, get_pull, get_labels.
  apply keeps_try; [apply _| |intros e; apply keeps_ret, _].
  apply keeps_bind; [apply _| |intros pr].
  { apply (keeps_read_pull _ _ (HR n)). }
  pose proof (HR (Tracker.pr_number pr)) as HRq.
  repeat keeps_step HRq I.
Qed.

(** *** Reopening *)

Lemma handle_pr_reopen_none self w :
  reopened self = None -> handle_pr_reopen self w = (Ok false, w).
Proof.
  unfold reopened, handle_pr_reopen. destruct (event_payload self) as [payload|]; auto.
  destruct (pull_request payload) as [entry|]; simpl; auto.
  destruct (number entry) as [n|]; auto.
  destruct (user_login entry) as [a|]; simpl.
  - destruct (decide (n = 0)) as [->|Hn]; [reflexivity|].
    rewrite (bool_decide_true (n ≠ 0)) by done.
    rewrite (proj2 (Z.eqb_neq n 0)) by done. simpl.
    destruct (decide (a = ""%string)) as [->|Ha]; [reflexivity|].
    by rewrite (bool_decide_true (a ≠ ""%string)).
  - by rewrite andb_false_r.
Qed.

Lemma handle_pr_reopen_some self n a pr_body w :
  reopened self = Some (n, a, pr_body) ->
  author self = a
  ∧ handle_pr_reopen self w
    = try_except
        (bind (reassign_issues_to_author n a pr_body) (fun reassigned =>
           bind (remove_stale_label n) (fun _ =>
             ret (0 <? length reassigned)%nat)))
        (fun _ => ret false) w.
Proof.
  unfold reopened, handle_pr_reopen, author.
  destruct (event_payload self) as [payload|]; [|done].
  destruct (pull_request payload) as [entry|]; [|done]. simpl.
  destruct (number entry) as [n'|]; [|done].
  destruct (user_login entry) as [a'|]; [|done]. simpl.
  destruct (decide (n' = 0)) as [->|Hn]; [done|].
  rewrite (bool_decide_true (n' ≠ 0)) by done.
  destruct (decide (a' = ""%string)) as [->|Ha]; [done|].
  rewrite (bool_decide_true (a' ≠ ""%string)) by done. simpl.
  intros [= -> -> <-]. split; auto.
  rewrite (proj2 (Z.eqb_neq n 0)) by done.
  by rewrite (bool_decide_false (a = ""%string)).
Qed.

(** With a body that can be read, the function is the loop over the
    linked issues. *)
Lemma reassign_issues_to_author_linked n a pr_body w linked :
  extract_linked_issues pr_body w = (Ok linked, w) ->
  reassign_issues_to_author n a pr_body w
  = for_each linked [] (reassign_step n a) w.
Proof.
  intros E. rewrite reassign_issues_to_author_unfold.
  rewrite (try_bind_ok _ _ _ _ _ _ E).
  destruct (reassign_loop_assigned n a linked [] w) as (l & w1 & d1 & E1 & _).
  destruct linked as [|k ks]; [reflexivity|].
  by rewrite (try_ok _ _ _ _ _ E1).
Qed.

Lemma reassign_issues_to_author_assigned n a pr_body w :
  ∃ l w1 d1, reassign_issues_to_author n a pr_body w = (Ok l, w1)
             ∧ log w1 = log w ++ d1 ∧ l = assigned d1.
Proof.
  destruct (extract_linked_issues_cases pr_body w) as [(linked & E & _)|E].
  - rewrite (reassign_issues_to_author_linked _ _ _ _ _ E).
    destruct (reassign_loop_assigned n a linked [] w) as (l & w1 & d1 & E1 & Hl & ->).
    by exists (assigned d1), w1, d1.
  - rewrite (reassign_issues_to_author_unread _ _ _ _ _ E).
    exists [], w, []. by rewrite app_nil_r.
Qed.

(** *** Who gets assigned, and which issues are written to *)

Lemma careful_disciplined a w w' : careful a w w' -> disciplined a w w'.
Proof.
  intros [(delta & Hl & Hd) Hi]. exists delta. split; auto.
  rewrite Forall_forall in Hd. split.
  - intros k who Hin. destruct (Hd _ Hin k eq_refl) as [(i & Hk & Hnone) Hu].
    split; [by apply Hu|]. eauto.
  - intros k i other Hk Hin Hne. split.
    + destruct (Hi k) as [E|(i' & Hk' & Hnone)]; [congruence|].
      assert (i' = i) as -> by congruence. rewrite Hnone in Hin.
      by apply elem_of_nil in Hin.
    + intros m Hm Hon. destruct (Hd _ Hm k Hon) as [(i' & Hk' & Hnone) _].
      assert (i' = i) as -> by congruence. rewrite Hnone in Hin.
      by apply elem_of_nil in Hin.
Qed.

Lemma keeps_handle_pr_reopen self : keeps (careful (author self)) (handle_pr_reopen self).
Proof.
  intros w. destruct (reopened self) as [[[n a] pr_body]|] eqn:Ho.
  2:{ rewrite handle_pr_reopen_none by done. apply careful_refl. }
  destruct (handle_pr_reopen_some self n a pr_body w Ho) as [-> ->].
  revert w. apply keeps_try; [apply _| |intros e; apply keeps_ret, _].
  apply keeps_bind; [apply _|apply keeps_reassign_issues_to_author|intros l].
  apply keeps_bind; [apply _| |intros b; apply keeps_ret, _].
  apply keeps_remove_stale_label. apply careful_closed.
Qed.

Lemma keeps_reopen_run self : keeps (careful (author self)) (PRReopenBot.run self).
Proof.
  unfold PRReopenBot.run. destruct (client self); simpl; [|apply keeps_ret, _].
  apply keeps_try; [apply _| |intros e; apply keeps_ret, _].
  destruct (bool_decide _); [apply keeps_handle_pr_reopen|apply keeps_ret, _].
Qed.

End ReopenFacts.

(** ** The activity bot, continued *)

Module ActivityCare.
Import Linked Tracker Event Runs TrackerFacts MonadFacts ReadFacts Keeps OpFacts.
Import LinkedFacts PRActivityBot ReopenSpec ReopenParts ReopenFacts.

Lemma activity_step_cases a s k w :
  ∃ s' w', activity_step a s k w = (Ok s', w')
           ∧ (untouched w w' ∨ claims a k w w').
Proof.
  unfold activity_step.
  destruct (get_issue_cases k w) as [(e & E)|(i & Hi & E)].
  { rewrite (try_bind_raise _ _ _ _ _ _ E). eauto 6 using untouched_skip. }
  rewrite (try_bind_ok _ _ _ _ _ _ E).
  destruct (i_pull_request i) eqn:Hpr.
  { eauto 6 using untouched_skip. }
  cbv zeta. destruct (i_assignees i) as [|x l] eqn:Hl.
  2:{ rewrite (bool_decide_false (x :: l = [])) by done. eauto 6 using untouched_skip. }
  rewrite bool_decide_true by done.
  destruct (add_to_assignees_cases k a (skip 1 w)) as [(e & E2)|(i' & Hi' & E2)].
  { rewrite (try_bind_raise _ _ _ _ _ _ E2). rewrite skip_skip.
    eauto 6 using untouched_skip. }
  change (issues (skip 1 w)) with (issues w) in Hi'.
  assert (i' = i) as -> by congruence.
  rewrite (try_bind_ok _ _ _ _ _ _ E2).
  eexists _, _. split; [reflexivity|]. right.
  exists i, []. repeat split; auto.
  intros k' Hk'. simpl. by rewrite lookup_insert_ne.
Qed.

Lemma keeps_handle_contributor_activity self :
  keeps (careful (commenter self)) (handle_contributor_activity self).
Proof.
  unfold handle_contributor_activity, commenter.
  destruct (event_payload self) as [payload|]; [|apply keeps_ret, _].
  set (a := default ""%string (comment_user_login payload)).
  apply keeps_try; [apply _| |intros e; apply keeps_ret, _].
  cbv zeta. destruct (issue_number payload) as [n|]; [|apply keeps_ret, _].
  destruct (_ && _); [|apply keeps_ret, _].
  unfold get_pull.
  apply keeps_bind; [apply _|apply (keeps_read_pull _ _ (careful_closed a n))|intros pr].
  pose proof (careful_closed a (Tracker.pr_number pr)) as HR.
  destruct (negb _); [apply keeps_ret, _|].
  unfold get_labels.
  apply keeps_bind; [apply _|apply (keeps_read_pull _ _ HR)|intros labels].
  destruct (negb _); [apply keeps_ret, _|].
  apply keeps_bind; [apply _|repeat keeps_step HR I|intros _].
  apply keeps_bind_extract; [apply _|]. intros linked Hnd _.
  apply keeps_bind; [apply _| |intros c].
  - apply (keeps_careful_loop (activity_step a)); [done|].
    apply activity_step_cases.
  - repeat keeps_step HR I.
Qed.

Lemma keeps_activity_run self : keeps (careful (commenter self)) (PRActivityBot.run self).
Proof.
  unfold PRActivityBot.run. destruct (client self); simpl; [|apply keeps_ret, _].
  apply keeps_try; [apply _| |intros e; apply keeps_ret, _].
  destruct (bool_decide _); [apply keeps_handle_contributor_activity|apply keeps_ret, _].
Qed.

(** C6.  In every run of the reopen bot and of the activity bot, whatever
    the remote calls do, an issue is assigned only to the author of the pull
    request (reopen bot) or of the comment (activity bot), and only if it
    had no assignee or that person as its only assignee; an issue with any
    other assignee is not written to at all.  (The state of an issue when
    the bot comes to it is its state at the start of the run: the linked
    issues are distinct and each is visited once.) *)
Theorem assignment_discipline (self : Bot) (w : World) :
  disciplined (author self) w (snd (PRReopenBot.run self w))
  ∧ disciplined (commenter self) w (snd (PRActivityBot.run self w)).
Proof.
  split; apply careful_disciplined.
  - apply keeps_reopen_run.
  - apply keeps_activity_run.
Qed.

End ActivityCare.

(** ** Reassignment, issue by issue *)

Module ReassignFacts.
Import Linked Tracker Event Runs TrackerFacts MonadFacts ReadFacts.
Import LinkedFacts PRReopenBot ReopenSpec ReopenParts ReopenFacts.

Lemma remote_quiet {A} (op : M A) w : faults w = [] -> remote op w = op w.
Proof. intros H. unfold remote. by rewrite H. Qed.

(** Without remote failure, a step reassigns the issue when it is found, is
    not a pull request and has no assignee, and does nothing otherwise. *)
Lemma reassign_step_quiet n a acc k w :
  faults w = [] ->
  reassign_step n a acc k w
  = match issues w !! k with
    | Some i =>
        if unclaimed w k
        then (Ok (acc ++ [k]), after_reassignment n a k i w)
        else (Ok acc, w)
    | None => (Ok acc, w)
    end.
Proof.
  intros Hf. unfold unclaimed, reassign_step, get_issue.
  unfold try_except at 1. unfold bind at 1. rewrite remote_quiet by done.
  unfold with_issue at 1. destruct (issues w !! k) as [i|] eqn:Hi; [|reflexivity].
  unfold ret at 1. destruct (i_pull_request i); [reflexivity|].
  cbv zeta. destruct (i_assignees i) as [|x l] eqn:Hl.
  2:{ rewrite (bool_decide_false (x :: l = [])) by done. cbn [negb andb].
      by destruct (bool_decide (a ∈ x :: l)). }
  rewrite bool_decide_true by done.
  rewrite (bool_decide_false (a ∈ [])) by (apply not_elem_of_nil). cbn [negb andb].
  unfold add_to_assignees, create_comment, try_except, bind.
  rewrite remote_quiet by done. unfold with_issue at 1. rewrite Hi. simpl.
  rewrite remote_quiet by done. unfold with_issue. simpl.
  rewrite lookup_insert_eq. simpl. rewrite Hl.
  rewrite (bool_decide_false (a ∈ [])) by (apply not_elem_of_nil). simpl.
  reflexivity.
Qed.

Lemma unclaimed_same w w0 k :
  issues w !! k = issues w0 !! k -> unclaimed w k = unclaimed w0 k.
Proof. unfold unclaimed. by intros ->. Qed.

Lemma reassigned_issue_same n a w w0 i :
  now w = now w0 -> me w = me w0 ->
  reassigned_issue n a w i = reassigned_issue n a w0 i.
Proof. unfold reassigned_issue, new_comment. by intros -> ->. Qed.

Lemma reassign_loop_quiet n a w0 xs :
  NoDup xs ->
  ∀ acc w,
    faults w = [] -> now w = now w0 -> me w = me w0 -> pulls w = pulls w0 ->
    (∀ k, k ∈ xs -> issues w !! k = issues w0 !! k) ->
    ∃ w', for_each xs acc (reassign_step n a) w
          = (Ok (acc ++ List.filter (unclaimed w0) xs), w')
      ∧ log w' = log w ++ flat_map (reassignment n a) (List.filter (unclaimed w0) xs)
      ∧ pulls w' = pulls w0
      ∧ (∀ k, issues w' !! k
              = if bool_decide (k ∈ List.filter (unclaimed w0) xs)
                then reassigned_issue n a w0 <$> issues w0 !! k
                else issues w !! k).
Proof.
  induction 1 as [|x xs Hx Hnd IH]; intros acc w Hf Hnow Hme Hp Hsame.
  { exists w. simpl. rewrite !app_nil_r. repeat split; auto. }
  simpl. unfold bind at 1. rewrite reassign_step_quiet by done.
  assert (issues w !! x = issues w0 !! x) as Hxx by (apply Hsame; by left).
  rewrite (unclaimed_same w w0 x Hxx).
  assert (∀ acc', ∃ w', for_each xs acc' (reassign_step n a) w
            = (Ok (acc' ++ List.filter (unclaimed w0) xs), w')
          ∧ log w' = log w ++ flat_map (reassignment n a) (List.filter (unclaimed w0) xs)
          ∧ pulls w' = pulls w0
          ∧ (∀ k, issues w' !! k
                  = if bool_decide (k ∈ List.filter (unclaimed w0) xs)
                    then reassigned_issue n a w0 <$> issues w0 !! k
                    else issues w !! k)) as Hskip.
  { intros acc'. apply IH; auto. intros k Hk. apply Hsame. by right. }
  destruct (unclaimed w0 x) eqn:Hu; [|by destruct (issues w !! x)].
  destruct (issues w !! x) as [i|] eqn:Hi.
  2:{ unfold unclaimed in Hu. by rewrite <- Hxx in Hu. }
  destruct (IH (acc ++ [x]) (after_reassignment n a x i w)) as (w' & E & Hl & Hp' & Hi'); auto.
  { intros k Hk. simpl. rewrite !lookup_insert_ne by (intros ->; done).
    apply Hsame. by right. }
  exists w'. split; [|split; [|split]]; auto.
  - rewrite E. by rewrite <- app_assoc.
  - rewrite Hl. simpl. by rewrite <- !app_assoc.
  - intros k. rewrite Hi'. destruct (decide (k = x)) as [->|Hne].
    + rewrite bool_decide_false.
      2:{ intros Hin. apply list_elem_of_In, filter_In in Hin as [Hin _].
          by apply list_elem_of_In in Hin. }
      rewrite bool_decide_true by (by left).
      simpl. rewrite lookup_insert_eq. rewrite <- Hxx. simpl. f_equal.
      by apply reassigned_issue_same.
    + simpl. rewrite !lookup_insert_ne by done.
      destruct (decide (k ∈ List.filter (unclaimed w0) xs)) as [Hin|Hin].
      * rewrite !bool_decide_true; auto. by right.
      * rewrite !bool_decide_false; auto.
        intros H. apply elem_of_cons in H as [?|?]; done.
Qed.

(** C3, as the code has it.  Without remote failure,
    [reassign_issues_to_author] goes through the issues the body refers to,
    each once and in the order in which the interpreter lists the set of
    their numbers, and skips those that are not found or are pull requests,
    and those that have an assignee, be it the author of the pull request or
    anyone else; to each of the others it adds the author as assignee and
    posts the welcome comment.  It returns exactly the numbers of the issues
    so reassigned.  When a reference is written with more digits than [int]
    reads, no issue is processed: the function returns the empty list and
    writes nothing. *)
Theorem reassign_issues_to_author_spec
    (w : World) (n : Z) (a : string) (pr_body : option Unicode.text) :
  faults w = [] ->
  (∃ linked w',
      extract_linked_issues pr_body w = (Ok linked, w)
      ∧ NoDup linked ∧ (∀ k, k ∈ linked ↔ LinkedSpec.links pr_body k)
      ∧ reassign_issues_to_author n a pr_body w
        = (Ok (List.filter (unclaimed w) linked), w')
      ∧ log w' = log w
          ++ flat_map (reassignment n a) (List.filter (unclaimed w) linked)
      ∧ pulls w' = pulls w
      ∧ (∀ k, issues w' !! k
              = if bool_decide (k ∈ List.filter (unclaimed w) linked)
                then reassigned_issue n a w <$> issues w !! k
                else issues w !! k))
  ∨ (extract_linked_issues pr_body w = (Raise ValueError, w)
     ∧ reassign_issues_to_author n a pr_body w = (Ok [], w)).
Proof.
  intros Hf.
  destruct (extract_linked_issues_cases pr_body w) as [(linked & E & Hnd & Hl)|E].
  - left. rewrite (reassign_issues_to_author_linked _ _ _ _ _ E).
    destruct (reassign_loop_quiet n a w linked Hnd [] w) as (w' & E1 & H); auto.
    exists linked, w'. auto.
  - right. split; auto. by rewrite (reassign_issues_to_author_unread _ _ _ _ _ E).
Qed.

End ReassignFacts.

(** ** The effects of single operations *)

Module EffectFacts.
Import Text Linked Tracker Runs TrackerFacts MonadFacts ReadFacts Effects.

Lemma remote_failing {A} (op : M A) w :
  calm 1 (faults w) = false -> ∃ e, remote op w = (Raise e, skip 1 w).
Proof.
  intros H. destruct (remote_cases op w) as [(e & _ & ->)|[Hc _]]; [eauto|congruence].
Qed.

Lemma create_issue_comment_posts n p body w :
  pulls w !! n = Some p -> calm 1 (faults w) = true ->
  create_issue_comment n body w = (Ok tt, commented n body p (skip 1 w)).
Proof.
  intros Hp Hc. unfold create_issue_comment. rewrite remote_calm by done.
  unfold with_pull. change (pulls (skip 1 w)) with (pulls w). by rewrite Hp.
Qed.

Lemma edit_state_closes n p w :
  pulls w !! n = Some p -> calm 1 (faults w) = true ->
  edit_state n "closed" w = (Ok tt, closed n p (skip 1 w)).
Proof.
  intros Hp Hc. unfold edit_state. rewrite remote_calm by done.
  unfold with_pull. change (pulls (skip 1 w)) with (pulls w). by rewrite Hp.
Qed.

Lemma add_to_labels_labels n l p w :
  pulls w !! n = Some p -> calm 1 (faults w) = true ->
  add_to_labels n l w = (Ok tt, labelled n l p (skip 1 w)).
Proof.
  intros Hp Hc. unfold add_to_labels. rewrite remote_calm by done.
  unfold with_pull. change (pulls (skip 1 w)) with (pulls w). by rewrite Hp.
Qed.

Lemma remove_from_labels_carried n l p w :
  pulls w !! n = Some p -> calm 1 (faults w) = true -> l ∈ pr_labels p ->
  remove_from_labels n l w = (Ok tt, unlabelled n l p (skip 1 w)).
Proof.
  intros Hp Hc Hl. unfold remove_from_labels. rewrite remote_calm by done.
  unfold with_pull. change (pulls (skip 1 w)) with (pulls w). rewrite Hp.
  by rewrite bool_decide_true.
Qed.

Lemma create_issue_comment_failing n body w :
  calm 1 (faults w) = false -> ∃ e, create_issue_comment n body w = (Raise e, skip 1 w).
Proof. apply remote_failing. Qed.

Lemma edit_state_failing n s w :
  calm 1 (faults w) = false -> ∃ e, edit_state n s w = (Raise e, skip 1 w).
Proof. apply remote_failing. Qed.

Lemma add_to_labels_failing n l w :
  calm 1 (faults w) = false -> ∃ e, add_to_labels n l w = (Raise e, skip 1 w).
Proof. apply remote_failing. Qed.

Lemma calm_2 fs : calm 2 fs = true -> calm 1 fs = true ∧ calm 1 (drop 1 fs) = true.
Proof. rewrite calm_S. by intros [? ?]%andb_prop. Qed.

End EffectFacts.

(** ** Relations respected by the writes of a given kind *)

Module Respects.
Import Tracker Runs TrackerFacts MonadFacts Keeps Effects.

Lemma keeps_for_each_in {X S} (R : World -> World -> Prop) `{!PreOrder R}
      (xs : list X) (s : S) body :
  (∀ s x, x ∈ xs -> keeps R (body s x)) -> keeps R (for_each xs s body).
Proof.
  revert s. induction xs as [|x xs IH]; intros s Hb; simpl.
  - apply keeps_ret, _.
  - apply keeps_bind; [apply _| |].
    + apply Hb. by left.
    + intros a. apply IH. intros s' y Hy. apply Hb. by right.
Qed.

Section Ops.
Context (ok : Mutation -> Prop) (R : World -> World -> Prop) (HR : respects ok R).

#[local] Instance respects_preorder : PreOrder R.
Proof. exact (respects_pre ok R HR). Qed.

Lemma respects_read_pull {A} n (f : PullRequest -> A) :
  keeps R (remote (with_pull n (fun pr => ret (f pr)))).
Proof.
  apply keeps_remote; [apply _|apply (respects_skip ok R HR)|].
  apply keeps_with_pull; [apply _|]. intros pr. apply keeps_ret, _.
Qed.

Lemma respects_get_issue k : keeps R (get_issue k).
Proof.
  apply keeps_remote; [apply _|apply (respects_skip ok R HR)|].
  apply keeps_with_issue; [apply _|]. intros pr. apply keeps_ret, _.
Qed.

Lemma respects_get_pulls_open : keeps R get_pulls_open.
Proof.
  apply keeps_remote; [apply _|apply (respects_skip ok R HR)|]. intros w. reflexivity.
Qed.

Lemma respects_utcnow : keeps R utcnow.
Proof. intros w. reflexivity. Qed.

Lemma respects_sleep us : keeps R (sleep us).
Proof. intros w. apply (respects_now ok R HR). Qed.

Lemma respects_create_issue_comment n body :
  ok (PrComment n body) -> keeps R (create_issue_comment n body).
Proof.
  intros Hm. apply keeps_remote; [apply _|apply (respects_skip ok R HR)|].
  intros w. unfold with_pull. destruct (pulls w !! n) as [p|] eqn:Hp; [|reflexivity].
  by apply (respects_pull ok R HR w n p (PrComment n body)).
Qed.

Lemma respects_edit_state n s :
  ok (PrEdit n s) -> keeps R (edit_state n s).
Proof.
  intros Hm. apply keeps_remote; [apply _|apply (respects_skip ok R HR)|].
  intros w. unfold with_pull. destruct (pulls w !! n) as [p|] eqn:Hp; [|reflexivity].
  by apply (respects_pull ok R HR w n p (PrEdit n s)).
Qed.

Lemma respects_add_to_labels n l :
  ok (PrAddLabel n l) -> keeps R (add_to_labels n l).
Proof.
  intros Hm. apply keeps_remote; [apply _|apply (respects_skip ok R HR)|].
  intros w. unfold with_pull. destruct (pulls w !! n) as [p|] eqn:Hp; [|reflexivity].
  by apply (respects_pull ok R HR w n p (PrAddLabel n l)).
Qed.

Lemma respects_remove_from_labels n l :
  ok (PrRemoveLabel n l) -> keeps R (remove_from_labels n l).
Proof.
  intros Hm. apply keeps_remote; [apply _|apply (respects_skip ok R HR)|].
  intros w. unfold with_pull. destruct (pulls w !! n) as [p|] eqn:Hp; [|reflexivity].
  destruct (bool_decide (l ∈ pr_labels p)); [|reflexivity].
  by apply (respects_pull ok R HR w n p (PrRemoveLabel n l)).
Qed.

Lemma respects_create_comment k body :
  ok (IssueComment k body) -> keeps R (create_comment k body).
Proof.
  intros Hm. apply keeps_remote; [apply _|apply (respects_skip ok R HR)|].
  intros w. unfold with_issue. destruct (issues w !! k) as [i|] eqn:Hi; [|reflexivity].
  by apply (respects_issue ok R HR w k i (IssueComment k body)).
Qed.

Lemma respects_add_to_assignees k a :
  ok (AddAssignee k a) -> keeps R (add_to_assignees k a).
Proof.
  intros Hm. apply keeps_remote; [apply _|apply (respects_skip ok R HR)|].
  intros w. unfold with_issue. destruct (issues w !! k) as [i|] eqn:Hi; [|reflexivity].
  by apply (respects_issue ok R HR w k i (AddAssignee k a)).
Qed.

Lemma respects_remove_from_assignees k a :
  ok (RemoveAssignee k a) -> keeps R (remove_from_assignees k a).
Proof.
  intros Hm. apply keeps_remote; [apply _|apply (respects_skip ok R HR)|].
  intros w. unfold with_issue. destruct (issues w !! k) as [i|] eqn:Hi; [|reflexivity].
  by apply (respects_issue ok R HR w k i (RemoveAssignee k a)).
Qed.

End Ops.

(** One step of a proof that a computation keeps a relation respected by
    its writes; a write leaves the goal that it is of the kind allowed. *)
Ltac respects_step HR :=
  lazymatch goal with
  | |- keeps _ (let _ := _ in _) => cbv zeta
  | |- keeps _ (ret _) => apply keeps_ret, _
  | |- keeps _ (raise _) => apply keeps_raise, _
  | |- keeps _ (bind (Linked.extract_linked_issues _) _) =>
      apply keeps_bind_extract; [apply _|intros ? ? ?]
  | |- keeps _ (bind _ _) => apply keeps_bind; [apply _| |intros ?]
  | |- keeps _ (try_except _ _) => apply keeps_try; [apply _| |intros ?]
  | |- keeps _ (for_each _ _ _) => apply keeps_for_each_in; [apply _|intros ? ? ?]
  | |- keeps _ (remote (with_pull _ _)) => apply (respects_read_pull _ _ HR)
  | |- keeps _ (get_issue _) => apply (respects_get_issue _ _ HR)
  | |- keeps _ get_pulls_open => apply (respects_get_pulls_open _ _ HR)
  | |- keeps _ (create_issue_comment _ _) => apply (respects_create_issue_comment _ _ HR)
  | |- keeps _ (edit_state _ _) => apply (respects_edit_state _ _ HR)
  | |- keeps _ (add_to_labels _ _) => apply (respects_add_to_labels _ _ HR)
  | |- keeps _ (remove_from_labels _ _) => apply (respects_remove_from_labels _ _ HR)
  | |- keeps _ (create_comment _ _) => apply (respects_create_comment _ _ HR)
  | |- keeps _ (add_to_assignees _ _) => apply (respects_add_to_assignees _ _ HR)
  | |- keeps _ (remove_from_assignees _ _) => apply (respects_remove_from_assignees _ _ HR)
  | |- keeps _ utcnow => apply (respects_utcnow _ _ HR)
  | |- keeps _ (sleep _) => apply (respects_sleep _ _ HR)
  | |- keeps _ (if ?b then _ else _) => destruct b eqn:?
  | |- keeps _ (match ?x with _ => _ end) => destruct x eqn:?
  end.

(** *** The record of writes *)

Lemma wrote_refl P w : wrote P w w.
Proof. exists []. by rewrite app_nil_r. Qed.

Lemma wrote_trans P w1 w2 w3 : wrote P w1 w2 -> wrote P w2 w3 -> wrote P w1 w3.
Proof.
  intros (d1 & E1 & F1) (d2 & E2 & F2). exists (d1 ++ d2).
  rewrite E2, E1, app_assoc. split; auto. by apply Forall_app.
Qed.

Lemma wrote_respects P : respects P (wrote P).
Proof.
  split; [split|..].
  - intros w. apply wrote_refl.
  - intros w1 w2 w3. apply wrote_trans.
  - intros w. exists []. by rewrite app_nil_r.
  - intros w t. exists []. by rewrite app_nil_r.
  - intros w n p m _ _ Hm. exists [m]. split; auto.
  - intros w k i m _ _ Hm. exists [m]. split; auto.
Qed.

#[export] Instance wrote_pre P : PreOrder (wrote P).
Proof. exact (respects_pre _ _ (wrote_respects P)). Qed.

End Respects.

(** ** Unassigning the linked issues *)

Module UnassignFacts.
Import Text Linked Tracker Runs TrackerFacts MonadFacts ReadFacts LinkedFacts.
Import StalePRBot Effects UnassignParts EffectFacts ReopenFacts ReassignFacts.

Lemma linked_of_body (pr_body : option Unicode.text) :
  extract_linked_issues (Some (default [] pr_body)) = extract_linked_issues pr_body.
Proof. by destruct pr_body. Qed.

Lemma unassign_linked_issues_unfold pr :
  unassign_linked_issues pr
  = try_except
      (bind (extract_linked_issues (pr_body (fetched pr))) (fun linked_issues =>
         for_each linked_issues 0 (unassign_step (login (pr_user (fetched pr))))))
      (fun _ => ret 0).
Proof. unfold unassign_linked_issues. by rewrite linked_of_body. Qed.

(** A step either removes the author from an issue that is found, is not a
    pull request and has the author among its assignees, and counts it, or
    writes nothing and leaves the count. *)
Lemma unassign_step_cases a acc k w :
  (∃ w', unassign_step a acc k w = (Ok acc, w') ∧ untouched w w')
  ∨ (∃ i, issues w !! k = Some i ∧ held a w k = true
          ∧ unassign_step a acc k w = (Ok (acc + 1), unassigned k a i (skip 2 w))).
Proof.
  unfold unassign_step.
  destruct (get_issue_cases k w) as [(e & E)|(i & Hi & E)].
  { left. exists (skip 1 w). rewrite (try_bind_raise _ _ _ _ _ _ E).
    split; [reflexivity|apply untouched_skip]. }
  rewrite (try_bind_ok _ _ _ _ _ _ E).
  destruct (i_pull_request i) eqn:Hpr.
  { left. exists (skip 1 w). split; [reflexivity|apply untouched_skip]. }
  cbv zeta. destruct (bool_decide (a ∈ i_assignees i)) eqn:Ha.
  2:{ left. exists (skip 1 w). split; [reflexivity|apply untouched_skip]. }
  destruct (issue_write_cases k (fun i _ => released a i) (RemoveAssignee k a) (skip 1 w))
    as [(e & E2)|(i' & Hi' & E2)].
  - left. exists (skip 2 w).
    unfold remove_from_assignees. unfold released in E2.
    rewrite (try_bind_raise _ _ _ _ _ _ E2).
    rewrite skip_skip. split; [reflexivity|apply untouched_skip].
  - right. exists i. change (issues (skip 1 w)) with (issues w) in Hi'.
    assert (i' = i) as -> by congruence.
    split; [done|]. split; [unfold held; by rewrite Hi, Hpr, Ha|].
    unfold remove_from_assignees. unfold released in E2.
    rewrite (try_bind_ok _ _ _ _ _ _ E2). rewrite skip_skip. reflexivity.
Qed.

(** Without remote failure, a step removes the author exactly when the
    issue is held. *)
Lemma unassign_step_quiet a acc k w :
  faults w = [] ->
  unassign_step a acc k w
  = match issues w !! k with
    | Some i => if held a w k then (Ok (acc + 1), unassigned k a i w) else (Ok acc, w)
    | None => (Ok acc, w)
    end.
Proof.
  intros Hf. unfold held, unassign_step, get_issue.
  unfold try_except at 1. unfold bind at 1. rewrite remote_quiet by done.
  unfold with_issue at 1. destruct (issues w !! k) as [i|] eqn:Hi; [|reflexivity].
  unfold ret at 1. destruct (i_pull_request i); [reflexivity|].
  cbv zeta. cbn [negb andb].
  destruct (bool_decide (a ∈ i_assignees i)); [|reflexivity].
  unfold remove_from_assignees, bind. rewrite remote_quiet by done.
  unfold with_issue. rewrite Hi. reflexivity.
Qed.

Lemma held_same a w w0 k :
  issues w !! k = issues w0 !! k -> held a w k = held a w0 k.
Proof. unfold held. by intros ->. Qed.

(** The loop over the linked issues, under any schedule: the issues [ks]
    it releases are taken in order among those held at the start, and the
    count grows by their number. *)
Lemma unassign_loop a w0 xs :
  NoDup xs ->
  ∀ acc w,
    pulls w = pulls w0 -> now w = now w0 -> me w = me w0 ->
    (∀ k, k ∈ xs -> issues w !! k = issues w0 !! k) ->
    ∃ ks w', for_each xs acc (unassign_step a) w = (Ok (acc + Z.of_nat (length ks)), w')
      ∧ sublist ks (List.filter (held a w0) xs)
      ∧ (faults w = [] -> ks = List.filter (held a w0) xs ∧ faults w' = [])
      ∧ log w' = log w ++ map (fun k => RemoveAssignee k a) ks
      ∧ pulls w' = pulls w0 ∧ now w' = now w0 ∧ me w' = me w0
      ∧ (∀ k, issues w' !! k
              = if bool_decide (k ∈ ks) then released a <$> issues w0 !! k
                else issues w !! k).
Proof.
  induction 1 as [|x xs Hx Hnd IH]; intros acc w Hp Hnow Hme Hsame.
  { exists [], w. simpl. rewrite app_nil_r, Z.add_0_r. repeat split; auto. }
  assert (issues w !! x = issues w0 !! x) as Hxx by (apply Hsame; by left).
  simpl. destruct (unassign_step_cases a acc x w) as [(w1 & E & Hu)|(i & Hi & Hh & E)].
  - destruct Hu as (Hp1 & Hi1 & Hl1 & Hn1 & Hm1).
    destruct (IH acc w1) as (ks & w' & E' & Hsub & Hq & Hl & Hp' & Hn' & Hm' & Hi');
      try congruence.
    { intros k Hk. rewrite Hi1. apply Hsame. by right. }
    exists ks, w'. rewrite (bind_ok _ _ _ _ _ E). split; [exact E'|].
    split; [|split; [|split; [|split; [|split; [|split]]]]]; auto.
    + destruct (held a w0 x); [by apply sublist_cons|done].
    + intros Hf. pose proof E as E0. rewrite unassign_step_quiet in E0 by done.
      rewrite (held_same a w w0 x Hxx) in E0.
      destruct (issues w !! x) as [i|] eqn:Hix.
      * destruct (held a w0 x) eqn:Hh.
        -- injection E0 as E1 E2. lia.
        -- injection E0 as E2. subst w1. by apply Hq.
      * assert (held a w0 x = false) as -> by (unfold held; by rewrite <- Hxx).
        injection E0 as E2. subst w1. by apply Hq.
    + by rewrite Hl, Hl1.
    + intros k. rewrite Hi'. by rewrite Hi1.
  - destruct (IH (acc + 1) (unassigned x a i (skip 2 w)))
      as (ks & w' & E' & Hsub & Hq & Hl & Hp' & Hn' & Hm' & Hi'); auto.
    { intros k Hk. simpl. rewrite lookup_insert_ne by (intros ->; done).
      apply Hsame. by right. }
    exists (x :: ks), w'. rewrite (bind_ok _ _ _ _ _ E).
    rewrite (held_same a w w0 x Hxx) in Hh. rewrite Hh.
    split; [|split; [|split; [|split; [|split; [|split; [|split]]]]]]; auto.
    + rewrite E'. do 2 f_equal. simpl length. lia.
    + by apply sublist_skip.
    + intros Hf. destruct Hq as [-> Hq].
      { simpl. unfold skip. simpl. by rewrite Hf. }
      done.
    + rewrite Hl. simpl. by rewrite <- app_assoc.
    + intros k. rewrite Hi'. destruct (decide (k = x)) as [->|Hne].
      * rewrite bool_decide_false.
        2:{ intros Hin. apply Hx. apply (elem_of_sublist _ _ _ Hin) in Hsub as Hin2. clear Hin. rename Hin2 into Hin.
            apply list_elem_of_In, filter_In in Hin as [Hin _].
            by apply list_elem_of_In in Hin. }
        rewrite bool_decide_true by (by left).
        simpl. rewrite lookup_insert_eq. by rewrite <- Hxx, Hi.
      * simpl. rewrite lookup_insert_ne by done.
        destruct (decide (k ∈ ks)) as [Hin|Hin].
        -- rewrite !bool_decide_true; auto. by right.
        -- rewrite !bool_decide_false; auto.
           intros H. apply elem_of_cons in H as [?|?]; done.
Qed.

(** With a body that can be read, the function is the loop over the
    linked issues; otherwise it returns 0 at once. *)
Lemma unassign_linked_issues_linked pr w linked :
  extract_linked_issues (pr_body (fetched pr)) w = (Ok linked, w) ->
  NoDup linked ->
  let a := login (pr_user (fetched pr)) in
  ∃ ks w', unassign_linked_issues pr w = (Ok (Z.of_nat (length ks)), w')
    ∧ sublist ks (List.filter (held a w) linked)
    ∧ (faults w = [] -> ks = List.filter (held a w) linked ∧ faults w' = [])
    ∧ log w' = log w ++ map (fun k => RemoveAssignee k a) ks
    ∧ pulls w' = pulls w ∧ now w' = now w ∧ me w' = me w
    ∧ (∀ k, issues w' !! k
            = if bool_decide (k ∈ ks) then released a <$> issues w !! k
              else issues w !! k).
Proof.
  intros E Hnd a. rewrite unassign_linked_issues_unfold.
  destruct (unassign_loop a w linked Hnd 0 w)
    as (ks & w' & E' & H); auto.
  exists ks, w'. rewrite (try_bind_ok _ _ _ _ _ _ E).
  rewrite (try_ok _ _ _ _ _ E'). by rewrite Z.add_0_l.
Qed.

Lemma unassign_linked_issues_unread pr w e :
  extract_linked_issues (pr_body (fetched pr)) w = (Raise e, w) ->
  unassign_linked_issues pr w = (Ok 0, w).
Proof.
  intros E. rewrite unassign_linked_issues_unfold.
  by rewrite (try_bind_raise _ _ _ _ _ _ E).
Qed.

(** X1.  Whatever the remote calls do, [unassign_linked_issues] returns.
    When the body of the pull request can be read, the issues it has removed
    the author of the pull request from are taken, in the order in which the
    interpreter lists the set of the numbers the body refers to, among those
    that are found, are not pull requests and had the author as assignee;
    the result is their number; nothing else is written, no pull request
    changes, and each of these issues loses the author and keeps its other
    assignees and its comments; without remote failure every such linked
    issue is released.  When a reference is written with more digits than
    [int] reads, the result is 0 and nothing is written. *)
Theorem unassign_linked_issues_spec (pr : Pull) (w : World) :
  let a := login (pr_user (fetched pr)) in
  (∃ linked ks w',
      extract_linked_issues (pr_body (fetched pr)) w = (Ok linked, w)
      ∧ NoDup linked ∧ (∀ k, k ∈ linked ↔ LinkedSpec.links (pr_body (fetched pr)) k)
      ∧ unassign_linked_issues pr w = (Ok (Z.of_nat (length ks)), w')
      ∧ sublist ks (List.filter (held a w) linked)
      ∧ (faults w = [] -> ks = List.filter (held a w) linked)
      ∧ log w' = log w ++ map (fun k => RemoveAssignee k a) ks
      ∧ pulls w' = pulls w
      ∧ (∀ k, issues w' !! k
              = if bool_decide (k ∈ ks) then released a <$> issues w !! k
                else issues w !! k))
  ∨ (extract_linked_issues (pr_body (fetched pr)) w = (Raise ValueError, w)
     ∧ unassign_linked_issues pr w = (Ok 0, w)).
Proof.
  intros a.
  destruct (extract_linked_issues_cases (pr_body (fetched pr)) w)
    as [(linked & E & Hnd & Hl)|E].
  - left.
    destruct (unassign_linked_issues_linked pr w linked E Hnd)
      as (ks & w' & E' & Hsub & Hq & Hlog & Hp & _ & _ & Hi).
    exists linked, ks, w'. repeat split; auto; try apply Hl. intros Hf. by apply Hq.
  - right. split; auto. by apply (unassign_linked_issues_unread pr w ValueError).
Qed.

End UnassignFacts.

(** ** The three tiers, call by call *)

Module TierFacts.
Import Text Linked Tracker Runs TrackerFacts MonadFacts ReadFacts LinkedFacts.
Import StalePRBot Effects UnassignParts EffectFacts UnassignFacts.

Lemma unassign_linked_issues_total pr w :
  ∃ c w', unassign_linked_issues pr w = (Ok c, w') ∧ pulls w' = pulls w.
Proof.
  destruct (extract_linked_issues_cases (pr_body (fetched pr)) w)
    as [(linked & E & Hnd & _)|E].
  - destruct (unassign_linked_issues_linked pr w linked E Hnd)
      as (ks & w' & E' & _ & _ & _ & Hp & _).
    eauto.
  - rewrite (unassign_linked_issues_unread pr w _ E). eauto.
Qed.

(** X2.  [send_stale_warning] makes one call.  If the pull request is known
    and the call goes through, the result is [True] and the only effect is
    the warning comment; if the call raises, the result is [False] and
    nothing is written. *)
Theorem send_stale_warning_steps (pr : Pull) (p : PullRequest) (d : Z) (w : World) :
  pulls w !! pr_number pr = Some p ->
  send_stale_warning pr d w
  = if calm 1 (faults w)
    then (Ok true, commented (pr_number pr)
                     (warning_message (login (pr_user (fetched pr))) d) p (skip 1 w))
    else (Ok false, skip 1 w).
Proof.
  intros Hp. unfold send_stale_warning. cbv zeta.
  destruct (calm 1 (faults w)) eqn:Hc.
  - by rewrite (try_bind_ok _ _ _ _ _ _ (create_issue_comment_posts _ p _ w Hp Hc)).
  - destruct (create_issue_comment_failing (pr_number pr)
                (warning_message (login (pr_user (fetched pr))) d) w Hc) as (e & E).
    by rewrite (try_bind_raise _ _ _ _ _ _ E).
Qed.

(** X3.  [close_stale_pr] posts its comment, then closes, then unassigns.
    If the comment cannot be posted nothing is written; if it is posted and
    closing raises, the comment stays, the pull request stays open, no issue
    is unassigned and the result is [False]; once the pull request is
    closed the result is [True], whatever becomes of the unassignment. *)
Theorem close_stale_pr_steps (pr : Pull) (p : PullRequest) (d : Z) (w : World) :
  pulls w !! pr_number pr = Some p ->
  let n := pr_number pr in
  let body := close_message (login (pr_user (fetched pr))) d in
  let w1 := commented n body p (skip 1 w) in
  let w2 := closed n (with_comment body (skip 1 w) p) (skip 1 w1) in
  ∃ c w3, unassign_linked_issues pr w2 = (Ok c, w3)
    ∧ close_stale_pr pr d w
      = if calm 1 (faults w) then
          if calm 1 (faults w1) then (Ok true, w3) else (Ok false, skip 1 w1)
        else (Ok false, skip 1 w).
Proof.
  intros Hp n body w1 w2.
  destruct (unassign_linked_issues_total pr w2) as (c & w3 & E3 & _).
  exists c, w3. split; [exact E3|].
  unfold close_stale_pr. cbv zeta. fold n. fold body.
  destruct (calm 1 (faults w)) eqn:Hc.
  2:{ destruct (create_issue_comment_failing n body w Hc) as (e & E).
      by rewrite (try_bind_raise _ _ _ _ _ _ E). }
  rewrite (try_bind_ok _ _ _ _ _ _ (create_issue_comment_posts n p body w Hp Hc)).
  fold w1.
  destruct (calm 1 (faults w1)) eqn:Hc1.
  2:{ destruct (edit_state_failing n "closed" w1 Hc1) as (e & E).
      by rewrite (try_bind_raise _ _ _ _ _ _ E). }
  assert (pulls w1 !! n = Some (with_comment body (skip 1 w) p)) as Hp1.
  { unfold w1, commented. simpl. by rewrite lookup_insert_eq. }
  rewrite (try_bind_ok _ _ _ _ _ _ (edit_state_closes n _ w1 Hp1 Hc1)).
  fold w2. by rewrite (try_bind_ok _ _ _ _ _ _ E3).
Qed.

(** X4.  [mark_pr_stale] posts its comment, then unassigns, then adds the
    label.  If the comment cannot be posted nothing is written and the
    result is [False]; once it is posted the result is [True], also when
    adding the label raises, in which case the pull request is left without
    the label. *)
Theorem mark_pr_stale_steps (pr : Pull) (p : PullRequest) (d : Z) (w : World) :
  pulls w !! pr_number pr = Some p ->
  let n := pr_number pr in
  let body := unassign_message (login (pr_user (fetched pr))) d in
  let w1 := commented n body p (skip 1 w) in
  ∃ c w2, unassign_linked_issues pr w1 = (Ok c, w2)
    ∧ mark_pr_stale pr d w
      = if calm 1 (faults w) then
          (Ok true,
           if calm 1 (faults w2)
           then labelled n "stale" (with_comment body (skip 1 w) p) (skip 1 w2)
           else skip 1 w2)
        else (Ok false, skip 1 w).
Proof.
  intros Hp n body w1.
  destruct (unassign_linked_issues_total pr w1) as (c & w2 & E2 & Hp2).
  exists c, w2. split; [exact E2|].
  unfold mark_pr_stale. cbv zeta. fold n. fold body.
  destruct (calm 1 (faults w)) eqn:Hc.
  2:{ destruct (create_issue_comment_failing n body w Hc) as (e & E).
      by rewrite (try_bind_raise _ _ _ _ _ _ E). }
  rewrite (try_bind_ok _ _ _ _ _ _ (create_issue_comment_posts n p body w Hp Hc)).
  fold w1. rewrite (try_bind_ok _ _ _ _ _ _ E2).
  assert (pulls w2 !! n = Some (with_comment body (skip 1 w) p)) as Hp1.
  { rewrite Hp2. unfold w1, commented. simpl. by rewrite lookup_insert_eq. }
  destruct (calm 1 (faults w2)) eqn:Hc2.
  - assert (try_except (add_to_labels n "stale") (fun _ => ret tt) w2
            = (Ok tt, labelled n "stale" (with_comment body (skip 1 w) p) (skip 1 w2))) as E.
    { by rewrite (try_ok _ _ _ _ _ (add_to_labels_labels n "stale" _ w2 Hp1 Hc2)). }
    by rewrite (try_bind_ok _ _ _ _ _ _ E).
  - destruct (add_to_labels_failing n "stale" w2 Hc2) as (e & E0).
    assert (try_except (add_to_labels n "stale") (fun _ => ret tt) w2
            = (Ok tt, skip 1 w2)) as E.
    { by rewrite (try_raise _ _ _ _ _ E0). }
    by rewrite (try_bind_ok _ _ _ _ _ _ E).
Qed.

End TierFacts.

(** ** A whole run of the stale bot *)

Module StaleRun.
Import Text Linked Tracker Runs TrackerFacts MonadFacts ReadFacts Keeps LinkedFacts.
Import StalePRBot StaleSpec Effects Footprints EffectFacts Respects UnassignFacts.

Section Respected.
Context (pr : Pull) (ok : Mutation -> Prop) (R : World -> World -> Prop).
Context (HR : respects ok R) (Hok : ∀ m, stale_write pr m -> ok m).

#[local] Instance respected_pre : PreOrder R.
Proof. exact (respects_pre ok R HR). Qed.

Lemma respects_get_last_changes_requested : keeps R (get_last_changes_requested pr).
Proof. unfold get_last_changes_requested, get_reviews. repeat respects_step HR. Qed.

Lemma respects_get_days_since_activity lcr : keeps R (get_days_since_activity pr lcr).
Proof.
  unfold get_days_since_activity, get_commits, get_issue_comments.
  repeat respects_step HR.
Qed.

Lemma respects_has_bot_comment marker : keeps R (has_bot_comment pr marker).
Proof. unfold has_bot_comment, get_issue_comments. repeat respects_step HR. Qed.

Lemma respects_unassign_linked_issues : keeps R (unassign_linked_issues pr).
Proof.
  unfold unassign_linked_issues. repeat respects_step HR.
  apply Hok. split; [reflexivity|].
  match goal with H : ∀ n, n ∈ _ ↔ _ |- _ => by apply H end.
Qed.

Lemma respects_close_stale_pr d : keeps R (close_stale_pr pr d).
Proof.
  unfold close_stale_pr.
  repeat first [apply respects_unassign_linked_issues | respects_step HR].
  - apply Hok. split; [reflexivity|]. exists d. by left.
  - by apply Hok.
Qed.

Lemma respects_mark_pr_stale d : keeps R (mark_pr_stale pr d).
Proof.
  unfold mark_pr_stale.
  repeat first [apply respects_unassign_linked_issues | respects_step HR].
  - apply Hok. split; [reflexivity|]. exists d. right. by left.
  - by apply Hok.
Qed.

Lemma respects_send_stale_warning d : keeps R (send_stale_warning pr d).
Proof.
  unfold send_stale_warning. repeat respects_step HR.
  apply Hok. split; [reflexivity|]. exists d. right. by right.
Qed.

Ltac stale_respects_step HR :=
  lazymatch goal with
  | |- keeps _ (get_last_changes_requested _) => apply respects_get_last_changes_requested
  | |- keeps _ (get_days_since_activity _ _) => apply respects_get_days_since_activity
  | |- keeps _ (has_bot_comment _ _) => apply respects_has_bot_comment
  | |- keeps _ (close_stale_pr _ _) => apply respects_close_stale_pr
  | |- keeps _ (mark_pr_stale _ _) => apply respects_mark_pr_stale
  | |- keeps _ (send_stale_warning _ _) => apply respects_send_stale_warning
  | |- _ => respects_step HR
  end.

Lemma respects_process_pr c : keeps R (process_pr c pr).
Proof. unfold process_pr. repeat stale_respects_step HR. Qed.

End Respected.

Lemma elem_of_open_pulls pr w :
  pr ∈ open_pulls w ↔
  pulls w !! pr_number pr = Some (fetched pr) ∧ pr_state (fetched pr) = "open"%string.
Proof.
  unfold open_pulls. rewrite list_elem_of_fmap. split.
  - intros ([n p] & -> & Hin). apply list_elem_of_filter in Hin as [Ho Hin].
    apply elem_of_map_to_list in Hin. simpl in *. auto.
  - intros [Hp Ho]. exists (pr_number pr, fetched pr). split; [by destruct pr|].
    apply list_elem_of_filter. split; [done|]. by apply elem_of_map_to_list.
Qed.

Lemma get_pulls_open_cases w :
  (calm 1 (faults w) = false ∧ ∃ e, get_pulls_open w = (Raise e, skip 1 w))
  ∨ (calm 1 (faults w) = true ∧ get_pulls_open w = (Ok (open_pulls w), skip 1 w)).
Proof.
  destruct (calm 1 (faults w)) eqn:Hc.
  - right. split; [done|]. unfold get_pulls_open. by rewrite remote_calm.
  - left. split; [done|]. by apply remote_failing.
Qed.

Lemma process_all_total prs c w : ∃ c' w', for_each prs c process_pr w = (Ok c', w').
Proof.
  destruct (for_each_invariant (fun _ _ _ => True) process_pr) with
    (xs := prs) (s := c) (w := w) as (c' & w' & E & _); eauto.
  intros s x xs w1 _. destruct (StaleFacts.process_pr_total s x w1) as (s' & w2 & E).
  eauto.
Qed.

(** The three ways a run can go. *)
Lemma run_cases self w :
  (client self = false ∧ run self w = (Ok false, w))
  ∨ (client self = true ∧ calm 1 (faults w) = false ∧ run self w = (Ok true, skip 1 w))
  ∨ (client self = true ∧ calm 1 (faults w) = true
     ∧ ∃ c w', for_each (open_pulls w) 0 process_pr (skip 1 w) = (Ok c, w')
               ∧ run self w = (Ok true, w')).
Proof.
  unfold run, process_stale_prs. destruct (client self); [right|by left]. cbn [negb].
  destruct (get_pulls_open_cases w) as [[Hc (e & E)]|[Hc E]].
  - left. split; [done|]. split; [done|].
    unfold try_except at 1. unfold bind at 1.
    by rewrite (try_bind_raise _ _ _ _ _ _ E).
  - right. split; [done|]. split; [done|].
    destruct (process_all_total (open_pulls w) 0 (skip 1 w)) as (c & w' & E').
    exists c, w'. split; [done|].
    unfold try_except at 1. unfold bind at 1.
    rewrite (try_bind_ok _ _ _ _ _ _ E). by rewrite (try_bind_ok _ _ _ _ _ _ E').
Qed.

Lemma stale_write_run w pr m :
  pr ∈ open_pulls w -> stale_write pr m -> stale_run_write w m.
Proof.
  intros [Hp Ho]%elem_of_open_pulls Hm.
  exists (pr_number pr), (fetched pr). by destruct pr.
Qed.

(** A relation respected by the writes the stale bot may make is kept by a
    whole run. *)
Lemma respects_run ok R self w :
  respects ok R -> (∀ m, stale_run_write w m -> ok m) -> R w (snd (run self w)).
Proof.
  intros HR Hok. pose proof (respects_pre ok R HR) as Hpre.
  destruct (run_cases self w) as [[_ ->]|[(_ & _ & ->)|(_ & _ & c & w' & E & ->)]]; simpl.
  - reflexivity.
  - apply (respects_skip ok R HR).
  - etrans; [apply (respects_skip ok R HR)|].
    replace w' with (snd (for_each (open_pulls w) 0 process_pr (skip 1 w)))
      by (by rewrite E).
    apply keeps_for_each_in; [done|]. intros s pr Hpr.
    apply (respects_process_pr pr ok R HR).
    intros m Hm. apply Hok. by apply (stale_write_run w pr).
Qed.

Lemma releases_only_respects : respects no_gain releases_only.
Proof.
  split; [split|..].
  - intros w k. destruct (issues w !! k); auto.
  - intros w1 w2 w3 H12 H23 k. specialize (H12 k). specialize (H23 k).
    destruct (issues w1 !! k), (issues w2 !! k), (issues w3 !! k); try done.
    destruct H12 as (? & ? & ?), H23 as (? & ? & ?).
    repeat split; try congruence. by etrans.
  - intros w k. simpl. destruct (issues w !! k); auto.
  - intros w t k. simpl. destruct (issues w !! k); auto.
  - intros w n p m _ _ _ k. simpl. destruct (issues w !! k); auto.
  - intros w k i m Hi Hk Hm k'. simpl.
    destruct (decide (k' = k)) as [->|Hne].
    + rewrite lookup_insert_eq, Hi. destruct m; try done. simpl.
      repeat split; auto. apply sublist_filter.
    + rewrite lookup_insert_ne by done. destruct (issues w !! k'); auto.
Qed.

Lemma stale_write_no_gain w m : stale_run_write w m -> no_gain m.
Proof. intros (n & p & _ & _ & H). by destruct m. Qed.

(** X5.  [run] returns [True] whenever the client is set, also when the
    open pull requests cannot be listed, in which case nothing is written;
    it returns [False] only without a client, and then makes no call. *)
Theorem stale_run_result (self : Self) (w : World) :
  ∃ w', run self w = (Ok (client self), w')
    ∧ (client self = false -> w' = w)
    ∧ (client self = true -> calm 1 (faults w) = false -> w' = skip 1 w).
Proof.
  destruct (run_cases self w) as [[Hc E]|[(Hc & Hf & E)|(Hc & Hf & c & w' & _ & E)]];
    rewrite E, Hc; eexists; split; try reflexivity; split; congruence.
Qed.

(** X6.  Whatever the remote calls do, every write of a run of the stale
    bot is for a pull request that was open when the run began: one of the
    three comments of the bot, closing it, the label "stale", or the
    removal of its author from an issue its body refers to.  The bot never adds
    an assignee, never comments on an issue, never removes a label; no
    issue appears or goes, and an issue keeps its comments and loses
    assignees at most. *)
Theorem stale_run_footprint (self : Self) (w : World) :
  wrote (stale_run_write w) w (snd (run self w))
  ∧ releases_only w (snd (run self w)).
Proof.
  split.
  - apply (respects_run (stale_run_write w) (wrote (stale_run_write w)));
      [apply wrote_respects|auto].
  - apply (respects_run no_gain releases_only); [apply releases_only_respects|].
    apply stale_write_no_gain.
Qed.

(** X7.  A pull request that is not open when the run begins is left as it
    is by the whole run, and no write on it is recorded. *)
Theorem stale_run_spares_closed (self : Self) (n : Z) (w : World) :
  (∀ p, pulls w !! n = Some p -> pr_state p ≠ "open"%string) ->
  spares n w (snd (run self w)).
Proof.
  intros Hn.
  destruct (run_cases self w) as [[_ ->]|[(_ & _ & ->)|(_ & _ & c & w' & E & ->)]]; simpl.
  - apply OpFacts.spares_refl.
  - apply OpFacts.untouched_spares, untouched_skip.
  - eapply OpFacts.spares_trans; [apply OpFacts.untouched_spares, (untouched_skip 1)|].
    replace w' with (snd (for_each (open_pulls w) 0 process_pr (skip 1 w)))
      by (by rewrite E).
    apply keeps_for_each_in.
    { split; [intros ?; apply OpFacts.spares_refl|intros ? ? ?; apply OpFacts.spares_trans]. }
    intros s pr [Hp Ho]%elem_of_open_pulls.
    apply StaleFacts.keeps_process_pr; [|apply OpFacts.spares_closed_issues].
    apply OpFacts.spares_closed. intros <-. by apply (Hn _ Hp).
Qed.

End StaleRun.

(** ** Reviews, markers and what a tier leaves for the next run *)

Module GuardFacts.
Import Text Linked Tracker Runs TrackerFacts MonadFacts ReadFacts Keeps LinkedFacts.
Import StalePRBot StaleSpec Effects EffectFacts UnassignFacts StaleFacts TierFacts.

(** X8.  [get_last_changes_requested] makes one call and writes nothing.
    When it returns a timestamp, this is the submission time of a review
    of the pull request in state CHANGES_REQUESTED, and no such review is
    later; reviews in other states, later ones included, play no part.  It
    returns [None] only if the call raises, the pull request is unknown, or
    no review requests changes. *)
Theorem get_last_changes_requested_latest (pr : Pull) (w : World) :
  ∃ o, get_last_changes_requested pr w = (Ok o, skip 1 w)
    ∧ match o with
      | Some t =>
          ∃ p, pulls w !! pr_number pr = Some p
            ∧ (∃ r, r ∈ pr_reviews p ∧ r_state r = "CHANGES_REQUESTED"%string
                    ∧ r_submitted_at r = t)
            ∧ (∀ r, r ∈ pr_reviews p -> r_state r = "CHANGES_REQUESTED"%string ->
                    r_submitted_at r <= t)
      | None =>
          calm 1 (faults w) = false
          ∨ pulls w !! pr_number pr = None
          ∨ (∃ p, pulls w !! pr_number pr = Some p
               ∧ ∀ r, r ∈ pr_reviews p -> r_state r ≠ "CHANGES_REQUESTED"%string)
      end.
Proof.
  destruct (calm 1 (faults w)) eqn:Hc.
  2:{ exists None. split; [|by left].
      unfold get_last_changes_requested, get_reviews.
      destruct (remote_failing (with_pull (pr_number pr) (fun p => ret (pr_reviews p))) w Hc)
        as (e & E).
      by rewrite (try_bind_raise _ _ _ _ _ _ E). }
  destruct (pulls w !! pr_number pr) as [p|] eqn:Hp.
  2:{ exists None. split; [|right; by left].
      apply get_last_changes_requested_none. intros p Hp'. congruence. }
  exists (last_changes_requested p).
  split; [by apply get_last_changes_requested_calm|].
  unfold last_changes_requested.
  destruct (latest _) as [t|] eqn:E.
  - apply latest_is_max in E as [Hin Hmax]. exists p. split; [done|]. split.
    + apply list_elem_of_fmap in Hin as (r & -> & Hr).
      apply list_elem_of_In, filter_In in Hr as [Hr Hs].
      apply bool_decide_eq_true in Hs. exists r.
      split; [by apply list_elem_of_In|]. auto.
    + intros r Hr Hs. apply Hmax. apply list_elem_of_fmap. exists r. split; [done|].
      apply list_elem_of_In, filter_In. split; [by apply list_elem_of_In|].
      by apply bool_decide_eq_true.
  - apply latest_none in E. right. right. exists p. split; [done|].
    intros r Hr Hs. apply fmap_nil_inv in E.
    assert (In r (List.filter (fun r => bool_decide (r_state r = "CHANGES_REQUESTED"%string))
                              (pr_reviews p))) as Hin.
    { apply filter_In. split; [by apply list_elem_of_In|by apply bool_decide_eq_true]. }
    rewrite E in Hin. destruct Hin.
Qed.

(** X9.  [has_bot_comment] makes one call and writes nothing.  It returns
    [True] exactly when the call goes through, the pull request is known
    and one of its comments was made by an account of type Bot and holds
    the marker, letter case aside; a comment of an account of another type
    never counts. *)
Theorem has_bot_comment_spec (pr : Pull) (marker : string) (w : World) :
  ∃ b, has_bot_comment pr marker w = (Ok b, skip 1 w)
    ∧ (b = true ↔ calm 1 (faults w) = true
                  ∧ ∃ p, pulls w !! pr_number pr = Some p ∧ bot_said marker p).
Proof.
  destruct (calm 1 (faults w)) eqn:Hc.
  2:{ exists false. split; [|split; [done|by intros [? _]]].
      unfold has_bot_comment, get_issue_comments.
      destruct (remote_failing (with_pull (pr_number pr) (fun p => ret (pr_comments p))) w Hc)
        as (e & E).
      by rewrite (try_bind_raise _ _ _ _ _ _ E). }
  destruct (pulls w !! pr_number pr) as [p|] eqn:Hp.
  - destruct (has_bot_comment_calm pr p marker w Hp Hc) as (b & E & Hb).
    exists b. split; [done|]. rewrite Hb. split.
    + intros H. split; [done|]. by exists p.
    + intros (_ & p' & [= <-] & H). done.
  - exists false. split; [|split; [done|by intros (_ & p & ? & _)]].
    unfold has_bot_comment, get_issue_comments.
    destruct (read_pull_cases pr_comments (pr_number pr) w) as [(e & E)|(p & Hp' & _)];
      [|congruence].
    by rewrite (try_bind_raise _ _ _ _ _ _ E).
Qed.

Lemma occurs_in_app_l needle hay post :
  occurs_in needle hay -> occurs_in needle (hay ++ post).
Proof. intros (p & q & ->). exists p, (q ++ post). by rewrite <- !app_assoc. Qed.

Lemma warning_holds_reminder pr_author days_inactive :
  occurs_in (lower (of_string "reminder"))
            (lower (of_string (warning_message pr_author days_inactive))).
Proof.
  unfold warning_message. unfold lower. rewrite !of_string_app, !map_app.
  do 2 apply occurs_in_app_r. apply occurs_in_app_l. by apply contains_spec.
Qed.

Lemma unassign_holds_stale pr_author days_inactive :
  occurs_in (lower (of_string "stale"))
            (lower (of_string (unassign_message pr_author days_inactive))).
Proof.
  unfold unassign_message. unfold lower. rewrite !of_string_app, !map_app.
  do 2 apply occurs_in_app_r. apply occurs_in_app_l. by apply contains_spec.
Qed.

Lemma encouragement_holds_stale commenter :
  occurs_in (lower (of_string "stale"))
            (lower (of_string (PRActivityBot.encouragement_message commenter))).
Proof.
  unfold PRActivityBot.encouragement_message. unfold lower.
  rewrite !of_string_app, !map_app.
  do 2 apply occurs_in_app_r. by apply contains_spec.
Qed.

(** X10.  Once a warning of the bot, posted from an account of type Bot,
    is among the comments of a pull request, neither the warning tier nor
    the unassign tier fires again: the warning holds both "reminder" and
    "unassigned".  Once the notice of the unassign tier is there, that tier
    does not fire again; nor does it once the activity bot has posted its
    encouragement, which holds "stale".  In each case the iteration writes
    nothing (the comments being listed without error). *)
Theorem posted_comment_holds_tiers_back
    (c : Z) (pr : Pull) (p : PullRequest) (t d : Z) (w w1 w2 : World)
    (note : Comment) (a : string) (d0 : Z) :
  get_last_changes_requested pr w = (Ok (Some t), w1) ->
  get_days_since_activity pr (Some t) w1 = (Ok d, w2) ->
  pulls w2 !! pr_number pr = Some p -> calm 2 (faults w2) = true ->
  note ∈ pr_comments p -> utype (c_user note) = "Bot"%string ->
  (c_body note = warning_message a d0 -> 7 <= d < 60 -> idle c w2 (process_pr c pr w))
  ∧ (c_body note = unassign_message a d0 -> 14 <= d < 60 -> idle c w2 (process_pr c pr w))
  ∧ (c_body note = PRActivityBot.encouragement_message a -> 14 <= d < 60 ->
     idle c w2 (process_pr c pr w)).
Proof.
  intros E1 E2 Hp Hc Hin Hbot.
  rewrite (process_pr_dispatch c pr w t w1 d w2 E1 E2). unfold StaleParts.dispatch.
  unfold DAYS_BEFORE_CLOSE, DAYS_BEFORE_UNASSIGN, DAYS_BEFORE_STALE_WARNING.
  split.
  - intros Hbody [Hd1 Hd2]. rewrite (proj2 (Z.leb_gt 60 d)) by done.
    destruct (Z.leb_spec 14 d) as [Hd|Hd].
    + apply (guarded_tier mark_pr_stale pr p d c); auto using mark_pr_stale_total.
      right. exists note. repeat split; auto. rewrite Hbody.
      apply warning_holds_unassigned.
    + rewrite (proj2 (Z.leb_le 7 d)) by done.
      apply (guarded_tier send_stale_warning pr p d c); auto using send_stale_warning_total.
      left. exists note. repeat split; auto. rewrite Hbody.
      apply warning_holds_reminder.
  - split; intros Hbody [Hd1 Hd2]; rewrite (proj2 (Z.leb_gt 60 d)) by done;
      rewrite (proj2 (Z.leb_le 14 d)) by done;
      (apply (guarded_tier mark_pr_stale pr p d c); auto using mark_pr_stale_total);
      left; exists note; (repeat split; auto); rewrite Hbody.
    + apply unassign_holds_stale.
    + apply encouragement_holds_stale.
Qed.

Lemma bot_said_with_comment marker body w p :
  utype (me w) ≠ "Bot"%string ->
  bot_said marker (with_comment body w p) ↔ bot_said marker p.
Proof.
  intros Hme. unfold bot_said, with_comment. simpl. split.
  - intros (c & Hin & Hb & Ho). apply elem_of_app in Hin as [Hin|Hin].
    + by exists c.
    + apply list_elem_of_singleton in Hin. subst c. done.
  - intros (c & Hin & H). exists c. split; [|done]. apply elem_of_app. by left.
Qed.

(** After [mark_pr_stale] has posted its comment, the pull request holds it
    last, whether or not the label was added. *)
Lemma mark_pr_stale_calm pr p d w :
  pulls w !! pr_number pr = Some p -> calm 1 (faults w) = true ->
  ∃ w' p', mark_pr_stale pr d w = (Ok true, w')
    ∧ pulls w' !! pr_number pr = Some p'
    ∧ pr_comments p'
      = pr_comments (with_comment (unassign_message (login (pr_user (fetched pr))) d)
                                  (skip 1 w) p).
Proof.
  intros Hp Hc.
  set (n := pr_number pr). set (body := unassign_message (login (pr_user (fetched pr))) d).
  set (w1 := commented n body p (skip 1 w)).
  destruct (unassign_linked_issues_total pr w1) as (c & w2 & E2 & Hp2).
  unfold mark_pr_stale. cbv zeta. fold n. fold body.
  rewrite (try_bind_ok _ _ _ _ _ _ (create_issue_comment_posts n p body w Hp Hc)).
  fold w1. rewrite (try_bind_ok _ _ _ _ _ _ E2).
  assert (pulls w2 !! n = Some (with_comment body (skip 1 w) p)) as Hp1.
  { rewrite Hp2. unfold w1, commented. simpl. by rewrite lookup_insert_eq. }
  destruct (calm 1 (faults w2)) eqn:Hc2.
  - assert (try_except (add_to_labels n "stale") (fun _ => ret tt) w2
            = (Ok tt, labelled n "stale" (with_comment body (skip 1 w) p) (skip 1 w2))) as E.
    { by rewrite (try_ok _ _ _ _ _ (add_to_labels_labels n "stale" _ w2 Hp1 Hc2)). }
    rewrite (try_bind_ok _ _ _ _ _ _ E). eexists _, _. split; [reflexivity|].
    simpl. rewrite lookup_insert_eq. split; reflexivity.
  - destruct (add_to_labels_failing n "stale" w2 Hc2) as (e & E0).
    assert (try_except (add_to_labels n "stale") (fun _ => ret tt) w2
            = (Ok tt, skip 1 w2)) as E.
    { by rewrite (try_raise _ _ _ _ _ E0). }
    rewrite (try_bind_ok _ _ _ _ _ _ E). eexists _, _. split; [reflexivity|].
    split; [exact Hp1|reflexivity].
Qed.

(** X11.  When the account of the bot is not of type Bot, the comment a
    tier posts is invisible to the guards: after [send_stale_warning] or
    [mark_pr_stale] has posted, the pull request holds a marker exactly if
    it held it before, so the same tier fires again at the next run. *)
Theorem own_comment_unseen_unless_bot
    (pr : Pull) (p : PullRequest) (d : Z) (w : World) :
  pulls w !! pr_number pr = Some p -> calm 1 (faults w) = true ->
  utype (me w) ≠ "Bot"%string ->
  ∀ tier, tier = send_stale_warning ∨ tier = mark_pr_stale ->
    ∃ w' p', tier pr d w = (Ok true, w')
      ∧ pulls w' !! pr_number pr = Some p'
      ∧ length (pr_comments p') = S (length (pr_comments p))
      ∧ ∀ marker, bot_said marker p' ↔ bot_said marker p.
Proof.
  intros Hp Hc Hme tier [->| ->].
  - unfold send_stale_warning. cbv zeta.
    rewrite (try_bind_ok _ _ _ _ _ _ (create_issue_comment_posts _ p _ w Hp Hc)).
    eexists _, _. split; [reflexivity|]. simpl. rewrite lookup_insert_eq.
    split; [reflexivity|]. split.
    + simpl. rewrite length_app. simpl. lia.
    + intros marker. by apply bot_said_with_comment.
  - destruct (mark_pr_stale_calm pr p d w Hp Hc) as (w' & p' & E & Hp' & Hcs).
    exists w', p'. split; [done|]. split; [done|]. split.
    + rewrite Hcs. simpl. rewrite length_app. simpl. lia.
    + intros marker. unfold bot_said at 1. rewrite Hcs.
      by apply (bot_said_with_comment marker _ (skip 1 w) p).
Qed.

(** X21.  A comment by anyone but the author of the pull request, the
    notices of the bot included, is no activity: once it is posted,
    [get_days_since_activity] returns the same number of days as it would
    have without it, so the notices of the bot do not put off the next
    tier. *)
Theorem notice_is_not_activity
    (pr : Pull) (p : PullRequest) (t : Z) (body : string) (w : World) :
  pulls w !! pr_number pr = Some p -> calm 2 (faults w) = true ->
  login (me w) ≠ login (pr_user (fetched pr)) ->
  ∃ d, get_days_since_activity pr (Some t) w = (Ok d, skip 2 w)
    ∧ get_days_since_activity pr (Some t) (commented (pr_number pr) body p w)
      = (Ok d, skip 2 (commented (pr_number pr) body p w)).
Proof.
  intros Hp Hc Hme. apply calm_2 in Hc as [Hc1 Hc2].
  set (w' := commented (pr_number pr) body p w).
  assert (pulls w' !! pr_number pr = Some (with_comment body w p)) as Hp'.
  { unfold w', commented. simpl. by rewrite lookup_insert_eq. }
  unfold get_days_since_activity, get_commits, get_issue_comments. cbv zeta.
  rewrite (try_bind_ok _ _ _ _ _ _ (read_pull_calm pr_commits _ w p Hp Hc1)).
  rewrite (try_bind_ok _ _ _ _ _ _ (read_pull_calm pr_commits _ w' _ Hp' Hc1)).
  rewrite (try_bind_ok _ _ _ _ _ _ (read_pull_calm pr_comments _ (skip 1 w) p Hp Hc2)).
  rewrite (try_bind_ok _ _ _ _ _ _ (read_pull_calm pr_comments _ (skip 1 w') _ Hp' Hc2)).
  rewrite !skip_skip. eexists. split; [reflexivity|].
  unfold with_comment. cbn [pr_comments pr_commits set_pr_comments].
  rewrite fold_left_app. cbn [fold_left new_comment c_user].
  rewrite (bool_decide_false (login (me w) = login (pr_user (fetched pr)))) by done.
  reflexivity.
Qed.

End GuardFacts.

(** ** The label, and reassigning twice *)

Module LabelFacts.
Import Text Linked Tracker Event Runs TrackerFacts MonadFacts ReadFacts Keeps LinkedFacts.
Import PRReopenBot ReopenSpec ReopenParts Effects EffectFacts ReopenFacts ReassignFacts.

Lemma calm_3 fs :
  calm 3 fs = calm 1 fs && (calm 1 (drop 1 fs) && calm 1 (drop 2 fs)).
Proof.
  rewrite (calm_S 2), (calm_S 1 (drop 1 fs)), drop_drop. simpl.
  by destruct (calm 1 fs), (calm 1 (drop 1 fs)).
Qed.

(** The two ways [remove_stale_label] can go: the three calls go through
    on a pull request that carries the label, or nothing is written. *)
Lemma remove_stale_label_cases n w :
  (∃ p, pulls w !! n = Some p ∧ "stale"%string ∈ pr_labels p ∧ calm 3 (faults w) = true
        ∧ remove_stale_label n w = (Ok true, unlabelled n "stale" p (skip 3 w)))
  ∨ (∃ k, remove_stale_label n w = (Ok false, skip k w)
        ∧ ¬ (calm 3 (faults w) = true
             ∧ ∃ p, pulls w !! n = Some p ∧ "stale"%string ∈ pr_labels p)).
Proof.
  unfold remove_stale_label, get_pull, get_labels. rewrite calm_3.
  destruct (calm 1 (faults w)) eqn:Hc1.
  2:{ right. exists 1%nat.
      destruct (remote_failing
        (with_pull n (fun pr => ret {| pr_number := n; fetched := pr |})) w Hc1) as (e & E).
      rewrite (try_bind_raise _ _ _ _ _ _ E).
      split; [reflexivity|]. by intros [? _]. }
  destruct (pulls w !! n) as [p|] eqn:Hp.
  2:{ right. exists 1%nat.
      destruct (read_pull_cases (fun pr => {| pr_number := n; fetched := pr |}) n w)
        as [(e & E)|(p & Hp' & _)]; [|congruence].
      rewrite (try_bind_raise _ _ _ _ _ _ E).
      split; [reflexivity|]. by intros (_ & p & ? & _). }
  rewrite (try_bind_ok _ _ _ _ _ _
             (read_pull_calm (fun pr => {| pr_number := n; fetched := pr |}) n w p Hp Hc1)).
  cbn [Tracker.pr_number].
  change (drop 1 (faults w)) with (faults (skip 1 w)).
  destruct (calm 1 (faults (skip 1 w))) eqn:Hc2.
  2:{ right. exists 2%nat.
      destruct (remote_failing
        (with_pull n (fun pr => ret (pr_labels pr))) (skip 1 w) Hc2) as (e & E).
      rewrite (try_bind_raise _ _ _ _ _ _ E). rewrite skip_skip.
      split; [reflexivity|]. by intros [? _]. }
  assert (pulls (skip 1 w) !! n = Some p) as Hp1 by done.
  rewrite (try_bind_ok _ _ _ _ _ _ (read_pull_calm pr_labels n (skip 1 w) p Hp1 Hc2)).
  rewrite skip_skip.
  destruct (bool_decide ("stale"%string ∈ pr_labels p)) eqn:Hl.
  2:{ right. exists 2%nat. apply bool_decide_eq_false in Hl.
      split; [reflexivity|].
      intros (_ & p' & [= <-] & ?). done. }
  apply bool_decide_eq_true in Hl.
  change (drop 2 (faults w)) with (faults (skip 2 w)).
  assert (pulls (skip (1 + 1) w) !! n = Some p) as Hp2 by done.
  destruct (calm 1 (faults (skip 2 w))) eqn:Hc3.
  - left. exists p. split; [done|]. split; [done|]. split; [done|].
    rewrite (try_bind_ok _ _ _ _ _ _
               (remove_from_labels_carried n "stale" p (skip (1 + 1) w) Hp2 Hc3 Hl)).
    by rewrite skip_skip.
  - right. exists 3%nat.
    destruct (remote_failing
      (with_pull n (fun pr =>
         if bool_decide ("stale"%string ∈ pr_labels pr)
         then bind (update_pull n (set_pr_labels
                      (filter (fun x => x ≠ "stale"%string) (pr_labels pr)) pr))
                   (fun _ => write (PrRemoveLabel n "stale"))
         else raise not_found)) (skip (1 + 1) w) Hc3) as (e & E).
    unfold remove_from_labels. rewrite (try_bind_raise _ _ _ _ _ _ E). rewrite skip_skip.
    split; [reflexivity|].
    intros [H _]. by rewrite andb_false_r in H.
Qed.

(** X12.  [remove_stale_label] never raises.  It returns [True] exactly
    when its three calls go through and the pull request carries the label
    "stale"; the label is then taken off and nothing else changes.  In
    every other case it returns [False] and writes nothing.  Called again
    after a success, it returns [False] and writes nothing. *)
Theorem remove_stale_label_spec (n : Z) (w : World) :
  ∃ b w', remove_stale_label n w = (Ok b, w')
    ∧ (b = true ↔ calm 3 (faults w) = true
                  ∧ ∃ p, pulls w !! n = Some p ∧ "stale"%string ∈ pr_labels p)
    ∧ (if b then ∃ p, pulls w !! n = Some p ∧ w' = unlabelled n "stale" p (skip 3 w)
       else untouched w w')
    ∧ (b = true -> ∃ w'', remove_stale_label n w' = (Ok false, w'') ∧ untouched w' w'').
Proof.
  destruct (remove_stale_label_cases n w) as [(p & Hp & Hl & Hc & E)|(k & E & Hno)].
  - exists true, (unlabelled n "stale" p (skip 3 w)).
    split; [done|]. split; [|split].
    + split; [|done]. intros _. split; [done|]. by exists p.
    + by exists p.
    + intros _.
      destruct (remove_stale_label_cases n (unlabelled n "stale" p (skip 3 w)))
        as [(p' & Hp' & Hl' & _)|(k & E' & _)];
        [|eexists; split; [exact E'|apply untouched_skip]].
      exfalso. simpl in Hp'. rewrite lookup_insert_eq in Hp'. injection Hp' as <-.
      simpl in Hl'. apply list_elem_of_filter in Hl' as [Hne _]. done.
  - exists false, (skip k w). split; [done|]. split; [|split]; [|apply untouched_skip|done].
    split; [done|]. intros H. by apply Hno in H.
Qed.

End LabelFacts.

Module TwiceFacts.
Import Text Linked Tracker Event Runs TrackerFacts MonadFacts ReadFacts Keeps OpFacts LinkedFacts.
Import PRReopenBot ReopenSpec ReopenParts Effects EffectFacts ReopenFacts ReassignFacts.

(** Without remote failure the loop leaves the schedule empty. *)
Lemma reassign_loop_faults n a xs :
  ∀ acc w, faults w = [] ->
    faults (snd (for_each xs acc (reassign_step n a) w)) = [].
Proof.
  induction xs as [|x xs IH]; intros acc w Hf; simpl; [done|].
  unfold bind at 1. rewrite reassign_step_quiet by done.
  destruct (issues w !! x) as [i|]; [|by apply IH].
  destruct (unclaimed w x); by apply IH.
Qed.

(** Without remote failure the loop does nothing when no issue of the list
    is unclaimed. *)
Lemma reassign_loop_nothing n a xs :
  ∀ acc w, faults w = [] -> (∀ k, k ∈ xs -> unclaimed w k = false) ->
    for_each xs acc (reassign_step n a) w = (Ok acc, w).
Proof.
  induction xs as [|x xs IH]; intros acc w Hf Hu; simpl; [done|].
  unfold bind at 1. rewrite reassign_step_quiet by done.
  rewrite (Hu x) by (by left).
  assert (for_each xs acc (reassign_step n a) w = (Ok acc, w)) as E.
  { apply IH; auto. intros k Hk. apply Hu. by right. }
  by destruct (issues w !! x).
Qed.

Lemma same_order_reassign_loop n a xs acc :
  keeps same_order (for_each xs acc (reassign_step n a)).
Proof.
  pose proof (same_order_closed 0) as HR. pose proof same_order_closed_issues as HI.
  pose proof (closed_pre _ _ HR).
  unfold reassign_step. repeat keeps_step HR HI.
Qed.

(** X13.  Without remote failure, once [reassign_issues_to_author] has
    run on a body that can be read, none of the issues the body refers to
    is left unclaimed; on a body with a reference of more digits than [int]
    reads it returns the empty list and changes nothing.  In both cases
    running it again returns the empty list and changes nothing: no second
    assignment, no second welcome comment. *)
Theorem reassign_issues_to_author_twice
    (n : Z) (a : string) (pr_body : option Unicode.text) (w : World) :
  faults w = [] ->
  ∃ l w', reassign_issues_to_author n a pr_body w = (Ok l, w')
    ∧ (LinkedSpec.readable (default [] pr_body) ->
       ∀ k, LinkedSpec.links pr_body k -> unclaimed w' k = false)
    ∧ (¬ LinkedSpec.readable (default [] pr_body) -> l = [] ∧ w' = w)
    ∧ reassign_issues_to_author n a pr_body w' = (Ok [], w').
Proof.
  intros Hf.
  destruct (extract_linked_issues_outcome pr_body w)
    as [(Hr & linked & E & Hnd & Hl)|[Hr E]].
  2:{ exists [], w. rewrite (reassign_issues_to_author_unread _ _ _ _ _ E). done. }
  rewrite (reassign_issues_to_author_linked _ _ _ _ _ E).
  destruct (reassign_loop_quiet n a w linked Hnd [] w) as (w' & E1 & _ & _ & Hi); auto.
  pose proof (reassign_loop_faults n a linked [] w Hf) as Hf'.
  pose proof (same_order_reassign_loop n a linked [] w) as Ho.
  rewrite E1 in Hf', Ho. simpl in Hf', Ho.
  assert (∀ k, k ∈ linked -> unclaimed w' k = false) as Hu.
  { intros k Hk. unfold unclaimed at 1. rewrite Hi.
    destruct (decide (k ∈ List.filter (unclaimed w) linked)) as [Hin|Hin].
    - rewrite bool_decide_true by done.
      destruct (issues w !! k) as [i|]; [|done]. simpl. apply andb_false_r.
    - rewrite bool_decide_false by done.
      destruct (unclaimed w k) eqn:Hk'; [|exact Hk'].
      exfalso. apply Hin. apply list_elem_of_In, filter_In.
      split; [by apply list_elem_of_In|done]. }
  exists (List.filter (unclaimed w) linked), w'.
  split; [done|]. split; [|split; [done|]].
  - intros _ k Hk. apply Hu. by apply Hl.
  - rewrite (reassign_issues_to_author_linked _ _ _ _ linked).
    + by apply reassign_loop_nothing.
    + by apply (extract_linked_issues_same_order pr_body w w').
Qed.

End TwiceFacts.

(** ** Reopening, step by step *)

Module ReopenRun.
Import Text Linked Tracker Event Runs TrackerFacts MonadFacts ReadFacts Keeps LinkedFacts.
Import PRReopenBot ReopenSpec ReopenParts Effects EffectFacts ReopenFacts ReassignFacts.
Import LabelFacts TwiceFacts.

(** C7.  [handle_pr_reopen] returns false, having done nothing, when the
    payload is absent or lacks the number or the author of the pull
    request.  Otherwise it runs the reassignment and then the removal of the
    stale label, and it returns true exactly when the reassignment assigned
    at least one issue.  The reassignment returns the issues it has assigned;
    without remote failure these are the linked issues that are found, are
    not pull requests and have no assignee, each assigned to the author and
    given the welcome comment; on a body that cannot be read there are
    none.  The removal then takes the label "stale" off the pull request
    exactly when its three calls go through and the pull request carries
    the label, and otherwise writes nothing; it assigns nothing, so it
    cannot make the result true. *)
Theorem handle_pr_reopen_spec (self : Bot) (w : World) :
  match reopened self with
  | None => handle_pr_reopen self w = (Ok false, w)
  | Some (n, a, pr_body) =>
      ∃ l w1 d1 b w2 d2,
        reassign_issues_to_author n a pr_body w = (Ok l, w1)
        ∧ log w1 = log w ++ d1 ∧ l = assigned d1
        ∧ (faults w = [] ->
           ∀ linked, extract_linked_issues pr_body w = (Ok linked, w) ->
             l = List.filter (unclaimed w) linked
             ∧ d1 = flat_map (reassignment n a) l
             ∧ pulls w1 = pulls w ∧ faults w1 = [])
        ∧ (∀ e, extract_linked_issues pr_body w = (Raise e, w) -> l = [] ∧ w1 = w)
        ∧ remove_stale_label n w1 = (Ok b, w2)
        ∧ (b = true ↔ calm 3 (faults w1) = true
                      ∧ ∃ p, pulls w1 !! n = Some p ∧ "stale"%string ∈ pr_labels p)
        ∧ (if b then ∃ p, pulls w1 !! n = Some p
                          ∧ w2 = unlabelled n "stale" p (skip 3 w1)
           else untouched w1 w2)
        ∧ log w2 = log w1 ++ d2
        ∧ d2 = (if b then [PrRemoveLabel n "stale"] else [])
        ∧ handle_pr_reopen self w = (Ok (bool_decide (l ≠ [])), w2)
        ∧ (bool_decide (l ≠ []) = true ↔ ∃ k, k ∈ assigned (d1 ++ d2))
  end.
Proof.
  destruct (reopened self) as [[[n a] pr_body]|] eqn:Ho.
  2:{ by apply handle_pr_reopen_none. }
  destruct (handle_pr_reopen_some self n a pr_body w Ho) as [_ ->].
  destruct (reassign_issues_to_author_assigned n a pr_body w)
    as (l & w1 & d1 & E1 & Hl1 & Hl).
  assert (∃ b w2 d2, remove_stale_label n w1 = (Ok b, w2)
            ∧ (b = true ↔ calm 3 (faults w1) = true
                          ∧ ∃ p, pulls w1 !! n = Some p ∧ "stale"%string ∈ pr_labels p)
            ∧ (if b then ∃ p, pulls w1 !! n = Some p
                              ∧ w2 = unlabelled n "stale" p (skip 3 w1)
               else untouched w1 w2)
            ∧ log w2 = log w1 ++ d2
            ∧ d2 = (if b then [PrRemoveLabel n "stale"] else []))
    as (b & w2 & d2 & E2 & Hb & Hw2 & Hl2 & Hd2).
  { destruct (remove_stale_label_cases n w1) as [(p & Hp & Hs & Hc & E)|(k & E & Hno)].
    - exists true, (unlabelled n "stale" p (skip 3 w1)), [PrRemoveLabel n "stale"].
      repeat split; eauto.
    - exists false, (skip k w1), []. split; [done|]. split; [|split; [|split]].
      + split; [done|]. intros H. by apply Hno in H.
      + apply untouched_skip.
      + simpl. by rewrite app_nil_r.
      + done. }
  assert (assigned d2 = []) as Ha2 by (subst d2; by destruct b).
  exists l, w1, d1, b, w2, d2.
  split; [done|]. split; [done|]. split; [done|]. split; [|split].
  - intros Hf linked E.
    rewrite (reassign_issues_to_author_linked _ _ _ _ _ E) in E1.
    destruct (extract_linked_issues_ok _ _ _ _ E) as (_ & Hnd & _).
    destruct (reassign_loop_quiet n a w linked Hnd [] w) as (w' & E' & Hl' & Hp' & _); auto.
    pose proof (reassign_loop_faults n a linked [] w Hf) as Hf'.
    rewrite E1 in E', Hf'. injection E' as -> <-. simpl in Hf'.
    repeat split; auto.
    rewrite Hl1 in Hl'. by apply app_inv_head in Hl'.
  - intros e E. rewrite (reassign_issues_to_author_unread _ _ _ _ _ E) in E1.
    by injection E1 as <- <-.
  - split; [done|]. split; [done|]. split; [done|]. split; [done|]. split; [done|].
    split.
    + rewrite (try_bind_ok _ _ _ _ _ _ E1). rewrite (try_bind_ok _ _ _ _ _ _ E2).
      rewrite try_ret. f_equal. f_equal. destruct l; simpl; auto.
    + rewrite assigned_app, Ha2, app_nil_r, <- Hl. split.
      * intros H. apply bool_decide_eq_true in H.
        destruct l as [|k l']; [done|]. exists k. by left.
      * intros [k Hk]. apply bool_decide_eq_true. intros ->.
        by apply elem_of_nil in Hk.
Qed.

End ReopenRun.

(** ** The activity bot when everything goes through *)

Module ActivityRun.
Import Text Linked Tracker Event Runs TrackerFacts MonadFacts ReadFacts Keeps LinkedFacts.
Import PRActivityBot ReopenSpec ReopenParts Effects EffectFacts ReopenFacts ReassignFacts.
Import UnassignFacts.

(** Without remote failure, a step assigns the issue when it is found, is
    not a pull request and has no assignee, and does nothing otherwise. *)
Lemma activity_step_quiet a acc k w :
  faults w = [] ->
  activity_step a acc k w
  = match issues w !! k with
    | Some i => if unclaimed w k then (Ok (acc + 1), assigned_to k a i w) else (Ok acc, w)
    | None => (Ok acc, w)
    end.
Proof.
  intros Hf. unfold unclaimed, activity_step, get_issue.
  unfold try_except at 1. unfold bind at 1. rewrite remote_quiet by done.
  unfold with_issue at 1. destruct (issues w !! k) as [i|] eqn:Hi; [|reflexivity].
  unfold ret at 1. destruct (i_pull_request i); [reflexivity|].
  cbv zeta. cbn [negb andb].
  destruct (bool_decide (i_assignees i = [])); [|reflexivity].
  unfold add_to_assignees, bind. rewrite remote_quiet by done.
  unfold with_issue. rewrite Hi. reflexivity.
Qed.

Lemma activity_loop_quiet a w0 xs :
  NoDup xs ->
  ∀ acc w,
    faults w = [] -> pulls w = pulls w0 -> now w = now w0 -> me w = me w0 ->
    (∀ k, k ∈ xs -> issues w !! k = issues w0 !! k) ->
    ∃ c w', for_each xs acc (activity_step a) w = (Ok c, w')
      ∧ log w' = log w ++ map (fun k => AddAssignee k a) (List.filter (unclaimed w0) xs)
      ∧ faults w' = [] ∧ pulls w' = pulls w0 ∧ now w' = now w0 ∧ me w' = me w0
      ∧ (∀ k, issues w' !! k
              = if bool_decide (k ∈ List.filter (unclaimed w0) xs)
                then set_i_assignees [a] <$> issues w0 !! k
                else issues w !! k).
Proof.
  induction 1 as [|x xs Hx Hnd IH]; intros acc w Hf Hp Hnow Hme Hsame.
  { exists acc, w. simpl. rewrite app_nil_r. repeat split; auto. }
  simpl. unfold bind at 1. rewrite activity_step_quiet by done.
  assert (issues w !! x = issues w0 !! x) as Hxx by (apply Hsame; by left).
  rewrite (unclaimed_same w w0 x Hxx).
  assert (∀ acc', ∃ c w', for_each xs acc' (activity_step a) w = (Ok c, w')
      ∧ log w' = log w ++ map (fun k => AddAssignee k a) (List.filter (unclaimed w0) xs)
      ∧ faults w' = [] ∧ pulls w' = pulls w0 ∧ now w' = now w0 ∧ me w' = me w0
      ∧ (∀ k, issues w' !! k
              = if bool_decide (k ∈ List.filter (unclaimed w0) xs)
                then set_i_assignees [a] <$> issues w0 !! k
                else issues w !! k)) as Hskip.
  { intros acc'. apply IH; auto. intros k Hk. apply Hsame. by right. }
  destruct (unclaimed w0 x) eqn:Hu; [|by destruct (issues w !! x)].
  destruct (issues w !! x) as [i|] eqn:Hi.
  2:{ unfold unclaimed in Hu. by rewrite <- Hxx in Hu. }
  assert (i_assignees i = []) as Hnone.
  { unfold unclaimed in Hu. rewrite <- Hxx in Hu.
    apply andb_prop in Hu as [_ Hu]. by apply bool_decide_eq_true in Hu. }
  destruct (IH (acc + 1) (assigned_to x a i w))
    as (c & w' & E & Hl & Hf' & Hp' & Hn' & Hm' & Hi'); auto.
  { intros k Hk. simpl. rewrite lookup_insert_ne by (intros ->; done).
    apply Hsame. by right. }
  exists c, w'. split; [exact E|]. split; [|split; [|split; [|split; [|split]]]]; auto.
  - rewrite Hl. simpl. by rewrite <- app_assoc.
  - intros k. rewrite Hi'. destruct (decide (k = x)) as [->|Hne].
    + rewrite bool_decide_false.
      2:{ intros Hin. apply list_elem_of_In, filter_In in Hin as [Hin _].
          by apply list_elem_of_In in Hin. }
      rewrite bool_decide_true by (by left).
      simpl. rewrite lookup_insert_eq. rewrite <- Hxx. simpl. f_equal.
      rewrite Hnone. by rewrite bool_decide_false by apply not_elem_of_nil.
    + simpl. rewrite lookup_insert_ne by done.
      destruct (decide (k ∈ List.filter (unclaimed w0) xs)) as [Hin|Hin].
      * rewrite !bool_decide_true; auto. by right.
      * rewrite !bool_decide_false; auto.
        intros H. apply elem_of_cons in H as [?|?]; done.
Qed.

(** X14.  When the author of a pull request labelled "stale" comments on
    it and no remote call fails, [handle_contributor_activity] first takes
    the label off.  If the body of the pull request can be read, it then
    makes the commenter the assignee of every issue the body refers to that
    is found, is not a pull request and has no assignee, in the order in
    which the interpreter lists the set of their numbers, posts the
    encouragement comment and returns [True]; it does so also when no issue
    was reassigned.  If a reference is written with more digits than [int]
    reads, it returns [False] with the label gone and nothing else done.
    Nothing else changes. *)
Theorem handle_contributor_activity_success
    (self : Bot) (payload : Payload) (n : Z) (a : string)
    (p : PullRequest) (w : World) :
  event_payload self = Some payload ->
  issue_number payload = Some n -> n ≠ 0 ->
  comment_user_login payload = Some a -> a ≠ ""%string ->
  pulls w !! n = Some p -> login (pr_user p) = a ->
  "stale"%string ∈ pr_labels p ->
  faults w = [] ->
  (∃ linked w',
      extract_linked_issues (pr_body p) w = (Ok linked, w)
      ∧ NoDup linked ∧ (∀ k, k ∈ linked ↔ LinkedSpec.links (pr_body p) k)
      ∧ handle_contributor_activity self w = (Ok true, w')
      ∧ log w' = log w ++ PrRemoveLabel n "stale"
                   :: map (fun k => AddAssignee k a) (List.filter (unclaimed w) linked)
                   ++ [PrComment n (encouragement_message a)]
      ∧ pulls w' = <[n := with_comment (encouragement_message a) w
                             (without_label "stale" p)]> (pulls w)
      ∧ (∀ k, issues w' !! k
              = if bool_decide (k ∈ List.filter (unclaimed w) linked)
                then set_i_assignees [a] <$> issues w !! k
                else issues w !! k))
  ∨ (extract_linked_issues (pr_body p) w = (Raise ValueError, w)
     ∧ handle_contributor_activity self w
       = (Ok false, unlabelled n "stale" p w)).
Proof.
  intros Hpay Hn Hn0 Ha Ha0 Hp Hauthor Hstale Hf.
  assert (calm 1 (faults w) = true) as Hc by (by rewrite Hf).
  unfold handle_contributor_activity. rewrite Hpay. cbv zeta. rewrite Hn, Ha.
  cbn [default].
  rewrite (proj2 (Z.eqb_neq n 0)) by done.
  rewrite (bool_decide_false (a = ""%string)) by done. cbn [negb andb].
  unfold get_pull.
  rewrite (try_bind_ok _ _ _ _ _ _
             (read_pull_calm (fun pr => {| pr_number := n; fetched := pr |}) n w p Hp Hc)).
  rewrite (skip_nil 1 w Hf). cbn [fetched Tracker.pr_number].
  rewrite (bool_decide_true (a = login (pr_user p))) by done. cbn [negb].
  unfold get_labels.
  rewrite (try_bind_ok _ _ _ _ _ _ (read_pull_calm pr_labels n w p Hp Hc)).
  rewrite (skip_nil 1 w Hf).
  rewrite (bool_decide_true ("stale"%string ∈ pr_labels p)) by done. cbn [negb].
  set (w1 := unlabelled n "stale" p w).
  assert (try_except (remove_from_labels n "stale") (fun _ => ret tt) w = (Ok tt, w1)) as E1.
  { rewrite (try_ok _ _ _ _ _ (remove_from_labels_carried n "stale" p w Hp Hc Hstale)).
    by rewrite (skip_nil 1 w Hf). }
  rewrite (try_bind_ok _ _ _ _ _ _ E1).
  rewrite linked_of_body.
  assert (same_order w w1) as Ho by done.
  destruct (extract_linked_issues_cases (pr_body p) w) as [(linked & E & Hnd & Hl)|E].
  2:{ right. split; [done|].
      by rewrite (try_bind_raise _ _ _ _ _ _
                    (extract_linked_issues_same_order _ _ _ _ Ho E)). }
  left. exists linked.
  rewrite (try_bind_ok _ _ _ _ _ _ (extract_linked_issues_same_order _ _ _ _ Ho E)).
  destruct (activity_loop_quiet a w1 linked Hnd 0 w1)
    as (c & w2 & E2 & Hl2 & Hf2 & Hp2 & Hn2 & Hm2 & Hi2); auto.
  unfold activity_step in E2. rewrite (try_bind_ok _ _ _ _ _ _ E2).
  assert (pulls w2 !! n = Some (without_label "stale" p)) as Hp2'.
  { rewrite Hp2. unfold w1. simpl. by rewrite lookup_insert_eq. }
  assert (calm 1 (faults w2) = true) as Hc2 by (by rewrite Hf2).
  rewrite (try_bind_ok _ _ _ _ _ _
             (create_issue_comment_posts n _ (encouragement_message a) w2 Hp2' Hc2)).
  rewrite (skip_nil 1 w2 Hf2).
  eexists. split; [done|]. split; [done|]. split; [done|].
  split; [reflexivity|]. split; [|split].
  - simpl. rewrite Hl2. unfold w1. simpl. by rewrite <- !app_assoc.
  - simpl. rewrite Hp2. unfold w1. simpl. rewrite insert_insert_eq.
    unfold with_comment, new_comment. by rewrite Hn2, Hm2.
  - intros k. simpl. rewrite Hi2. reflexivity.
Qed.

End ActivityRun.

(** ** What the result of the activity bot tells *)

Module ActivityResult.
Import Text Linked Tracker Event Runs TrackerFacts MonadFacts ReadFacts Keeps LinkedFacts.
Import PRActivityBot ReopenSpec ReopenParts ActivityParts Effects EffectFacts Respects.
Import ReopenFacts ReassignFacts UnassignFacts.

(** Either [handle_contributor_activity] gives up before any write, or it
    has found the comment to be by the author of a pull request labelled
    "stale" and goes on from there. *)
Lemma activity_prefix self w :
  (∃ k, handle_contributor_activity self w = (Ok false, skip k w))
  ∨ (∃ payload n p,
       event_payload self = Some payload ∧ issue_number payload = Some n
       ∧ pulls w !! n = Some p
       ∧ login (pr_user p) = commenter self
       ∧ "stale"%string ∈ pr_labels p
       ∧ handle_contributor_activity self w
         = try_except (activity_rest n (commenter self) (pr_body p))
                      (fun _ => ret false) (skip 2 w)).
Proof.
  unfold handle_contributor_activity, commenter.
  destruct (event_payload self) as [payload|] eqn:Hpay.
  2:{ left. exists 0%nat. by rewrite skip_0. }
  cbv zeta. destruct (issue_number payload) as [n|] eqn:Hn.
  2:{ left. exists 0%nat. by rewrite skip_0. }
  destruct (negb (n =? 0) && _).
  2:{ left. exists 0%nat. by rewrite skip_0. }
  set (a := default ""%string (comment_user_login payload)).
  unfold get_pull.
  destruct (read_pull_cases (fun pr => {| pr_number := n; fetched := pr |}) n w)
    as [(e & E)|(p & Hp & _ & E)].
  { left. exists 1%nat. by rewrite (try_bind_raise _ _ _ _ _ _ E). }
  rewrite (try_bind_ok _ _ _ _ _ _ E). cbn [fetched Tracker.pr_number].
  destruct (bool_decide (a = login (pr_user p))) eqn:Hauth.
  2:{ left. by exists 1%nat. }
  apply bool_decide_eq_true in Hauth. cbn [negb].
  unfold get_labels.
  destruct (read_pull_cases pr_labels n (skip 1 w)) as [(e & E2)|(p' & Hp' & _ & E2)].
  { left. exists 2%nat. rewrite (try_bind_raise _ _ _ _ _ _ E2). by rewrite skip_skip. }
  change (pulls (skip 1 w)) with (pulls w) in Hp'.
  assert (p' = p) as -> by congruence.
  rewrite (try_bind_ok _ _ _ _ _ _ E2). rewrite skip_skip.
  destruct (bool_decide ("stale"%string ∈ pr_labels p)) eqn:Hstale.
  2:{ left. by exists 2%nat. }
  apply bool_decide_eq_true in Hstale. cbn [negb].
  right. exists payload, n, p. repeat split; auto.
Qed.

Lemma create_issue_comment_log n body w :
  match create_issue_comment n body w with
  | (Ok _, w') => log w' = log w ++ [PrComment n body]
  | (Raise _, w') => log w' = log w
  end.
Proof.
  unfold create_issue_comment.
  destruct (remote_cases
    (with_pull n (fun pr w0 =>
       bind (update_pull n (set_pr_comments (pr_comments pr ++ [new_comment body w0]) pr))
            (fun _ => write (PrComment n body)) w0)) w) as [(e & _ & ->)|[_ ->]]; [done|].
  unfold with_pull. change (pulls (skip 1 w)) with (pulls w).
  by destruct (pulls w !! n).
Qed.

Lemma activity_loop_total a xs :
  ∀ acc w, ∃ c w', for_each xs acc (activity_step a) w = (Ok c, w').
Proof.
  intros acc w.
  destruct (for_each_invariant (fun _ _ _ => True) (activity_step a)) with
    (xs := xs) (s := acc) (w := w) as (c & w' & E & _); eauto.
  intros s x l w1 _. destruct (try_total
    (bind (get_issue x) (fun issue =>
       if i_pull_request issue then ret s
       else if bool_decide (i_assignees issue = [])
            then bind (add_to_assignees x a) (fun _ => ret (s + 1))
            else ret s)) s w1) as (s' & w2 & E).
  exists s', w2. split; [exact E|done].
Qed.

Lemma not_pr_comment_last delta m :
  Forall not_pr_comment delta -> last delta = Some m -> not_pr_comment m.
Proof.
  intros HF Hl. apply last_Some in Hl as [d ->].
  apply Forall_app in HF as [_ HF]. by inversion HF.
Qed.

(** X20.  [handle_contributor_activity] never raises, and its result is
    [True] exactly when the last thing it wrote is the encouragement
    comment: a [False] does not mean that nothing was written (the label
    may be gone and issues reassigned when posting the comment raises),
    and a [True] does not mean that an issue was reassigned. *)
Theorem handle_contributor_activity_result (self : Bot) (w : World) :
  ∃ b w' delta,
    handle_contributor_activity self w = (Ok b, w')
    ∧ log w' = log w ++ delta
    ∧ (b = true ↔
       ∃ n, last delta
            = Some (PrComment n (encouragement_message (commenter self)))).
Proof.
  destruct (activity_prefix self w)
    as [(k & ->)|(payload & n & p & _ & _ & _ & _ & _ & ->)].
  { exists false, (skip k w), []. split; [done|]. split; [by rewrite app_nil_r|].
    split; [done|]. by intros [? ?]. }
  set (a := commenter self). unfold activity_rest. cbv zeta.
  pose proof (wrote_respects not_pr_comment) as HR.
  destruct (try_total (remove_from_labels n "stale") tt (skip 2 w)) as ([] & w1 & E1).
  assert (wrote not_pr_comment (skip 2 w) w1) as (d1 & Hl1 & HF1).
  { replace w1 with (snd (try_except (remove_from_labels n "stale")
                            (fun _ => ret tt) (skip 2 w))) by (by rewrite E1).
    enough (keeps (wrote not_pr_comment)
              (try_except (remove_from_labels n "stale") (fun _ => ret tt))) as Hk
      by apply Hk.
    repeat respects_step HR. done. }
  rewrite (try_bind_ok _ _ _ _ _ _ E1).
  destruct (extract_linked_issues_cases (Some (default [] (pr_body p))) w1)
    as [(linked & E & _)|E].
  2:{ rewrite (try_bind_raise _ _ _ _ _ _ E).
      exists false, w1, d1. split; [done|]. split; [done|].
      split; [done|]. intros [n' Hlast].
      by apply (not_pr_comment_last _ _ HF1) in Hlast. }
  rewrite (try_bind_ok _ _ _ _ _ _ E).
  destruct (activity_loop_total a linked 0 w1) as (c & w2 & E2).
  assert (wrote not_pr_comment w1 w2) as (d2 & Hl2 & HF2).
  { replace w2 with (snd (for_each linked 0 (activity_step a) w1)) by (by rewrite E2).
    enough (keeps (wrote not_pr_comment)
              (for_each linked 0 (activity_step a))) as Hk by apply Hk.
    unfold activity_step. repeat respects_step HR. done. }
  rewrite (try_bind_ok _ _ _ _ _ _ E2).
  pose proof (create_issue_comment_log n (encouragement_message a) w2) as Hl3.
  destruct (create_issue_comment n (encouragement_message a) w2) as [[[]|e] w3] eqn:E3.
  - rewrite (try_bind_ok _ _ _ _ _ _ E3).
    exists true, w3, (d1 ++ d2 ++ [PrComment n (encouragement_message a)]).
    split; [done|]. split.
    + rewrite Hl3, Hl2, Hl1. simpl. by rewrite <- !app_assoc.
    + split; [|done]. intros _. exists n. by rewrite !app_assoc, last_snoc.
  - rewrite (try_bind_raise _ _ _ _ _ _ E3).
    exists false, w3, (d1 ++ d2). split; [done|]. split.
    + rewrite Hl3, Hl2, Hl1. simpl. by rewrite <- !app_assoc.
    + split; [done|]. intros [n' Hlast].
      assert (Forall not_pr_comment (d1 ++ d2)) as HF by (by apply Forall_app).
      by apply (not_pr_comment_last _ _ HF) in Hlast.
Qed.

End ActivityResult.

(** ** What the reopen bot and the activity bot may write *)

Module EventRuns.
Import Text Linked Tracker Event Runs TrackerFacts MonadFacts ReadFacts Keeps LinkedFacts.
Import ReopenSpec ReopenParts Effects Footprints EffectFacts Respects.
Import ReopenFacts ReassignFacts UnassignFacts LabelFacts.

(** With a handler that returns, the world is the one the body ends in. *)
Lemma snd_try_ret {A} (m : M A) (a : A) w :
  snd (try_except m (fun _ => ret a) w) = snd (m w).
Proof. unfold try_except. by destruct (m w) as [[b|e] w']. Qed.

Section Respected.
Context (ok : Mutation -> Prop) (R : World -> World -> Prop) (HR : respects ok R).

#[local] Instance event_pre : PreOrder R.
Proof. exact (respects_pre ok R HR). Qed.

Lemma respects_skips k w : R w (skip k w).
Proof.
  induction k as [|k IH].
  - rewrite skip_0. reflexivity.
  - etrans; [exact IH|]. replace (S k) with (k + 1)%nat by lia.
    rewrite <- skip_skip. apply (respects_skip ok R HR).
Qed.

Lemma respects_reassign_issues_to_author n a pr_body :
  (∀ k, LinkedSpec.links pr_body k ->
        ok (AddAssignee k a) ∧ ok (IssueComment k (PRReopenBot.welcome_message a n))) ->
  keeps R (PRReopenBot.reassign_issues_to_author n a pr_body).
Proof.
  intros Hok. rewrite reassign_issues_to_author_unfold.
  apply keeps_try; [apply _| |intros e; apply keeps_ret, _].
  apply keeps_bind_extract; [apply _|]. intros linked _ Hl.
  destruct linked as [|k0 ks] eqn:E; [apply keeps_ret, _|].
  rewrite <- E in *. apply keeps_for_each_in; [apply _|]. intros acc k Hk.
  destruct (Hok k (proj1 (Hl k) Hk)) as [Hadd Hcom].
  unfold reassign_step. repeat respects_step HR; done.
Qed.

Lemma respects_remove_stale_label n w :
  ok (PrRemoveLabel n "stale") -> R w (snd (PRReopenBot.remove_stale_label n w)).
Proof.
  intros Hok.
  destruct (remove_stale_label_cases n w) as [(p & Hp & _ & _ & ->)|(k & -> & _)]; simpl.
  - etrans; [apply (respects_skips 3 w)|].
    by apply (respects_pull ok R HR (skip 3 w) n p (PrRemoveLabel n "stale")).
  - apply respects_skips.
Qed.

Lemma respects_reopen_run self w :
  (∀ m, reopen_write self m -> ok m) -> R w (snd (PRReopenBot.run self w)).
Proof.
  intros Hok. unfold PRReopenBot.run.
  destruct (client self) eqn:Hclient; [|reflexivity]. cbn [negb].
  rewrite snd_try_ret.
  destruct (bool_decide (event_name self = Some "pull_request_target"%string)) eqn:Hev;
    [|reflexivity].
  apply bool_decide_eq_true in Hev.
  destruct (reopened self) as [[[n a] pr_body]|] eqn:Hre.
  2:{ rewrite (handle_pr_reopen_none self w Hre). reflexivity. }
  destruct (handle_pr_reopen_some self n a pr_body w Hre) as [_ ->].
  rewrite snd_try_ret.
  assert (∀ m, match m with
               | AddAssignee k who => who = a ∧ LinkedSpec.links pr_body k
               | IssueComment k text =>
                   text = PRReopenBot.welcome_message a n
                   ∧ LinkedSpec.links pr_body k
               | PrRemoveLabel n' l => n' = n ∧ l = "stale"%string
               | _ => False
               end -> ok m) as Hok'.
  { intros m Hm. apply Hok. unfold reopen_write. by rewrite Hre. }
  destruct (reassign_issues_to_author_assigned n a pr_body w) as (l & w1 & d1 & E & _).
  pose proof (respects_reassign_issues_to_author n a pr_body) as H1.
  specialize (H1 ltac:(intros k Hk; split; apply Hok'; done) w).
  rewrite E in H1. simpl in H1.
  rewrite (bind_ok _ _ _ _ _ E).
  etrans; [exact H1|].
  pose proof (respects_remove_stale_label n w1 ltac:(apply Hok'; done)) as H2.
  unfold bind. destruct (PRReopenBot.remove_stale_label n w1) as [[b|e] w2]; exact H2.
Qed.

Lemma respects_activity_run self w :
  (∀ m, activity_write self w m -> ok m) -> R w (snd (PRActivityBot.run self w)).
Proof.
  intros Hok. unfold PRActivityBot.run.
  destruct (client self) eqn:Hclient; [|reflexivity]. cbn [negb].
  rewrite snd_try_ret.
  destruct (bool_decide (event_name self = Some "issue_comment"%string)) eqn:Hev;
    [|reflexivity].
  apply bool_decide_eq_true in Hev.
  unfold PRActivityBot.handle_contributor_activity.
  destruct (event_payload self) as [payload|] eqn:Hpay; [|reflexivity].
  rewrite snd_try_ret. cbv zeta.
  destruct (issue_number payload) as [n|] eqn:Hn; [|reflexivity].
  destruct (negb (n =? 0) && _); [|reflexivity].
  assert (default ""%string (comment_user_login payload) = commenter self) as Ha.
  { unfold commenter. by rewrite Hpay. }
  rewrite Ha. set (a := commenter self) in *.
  unfold get_pull.
  destruct (read_pull_cases (fun pr => {| pr_number := n; fetched := pr |}) n w)
    as [(e & E)|(p & Hp & _ & E)].
  { rewrite (bind_raise _ _ _ _ _ E). apply (respects_skip ok R HR). }
  rewrite (bind_ok _ _ _ _ _ E). cbn [fetched Tracker.pr_number].
  destruct (bool_decide (a = login (pr_user p))) eqn:Hauth;
    [|apply (respects_skip ok R HR)].
  apply bool_decide_eq_true in Hauth. cbn [negb].
  unfold get_labels.
  destruct (read_pull_cases pr_labels n (skip 1 w)) as [(e & E2)|(p' & Hp' & _ & E2)].
  { rewrite (bind_raise _ _ _ _ _ E2). rewrite skip_skip. apply respects_skips. }
  change (pulls (skip 1 w)) with (pulls w) in Hp'.
  assert (p' = p) as -> by congruence.
  rewrite (bind_ok _ _ _ _ _ E2). rewrite skip_skip.
  destruct (bool_decide ("stale"%string ∈ pr_labels p)) eqn:Hstale;
    [|apply respects_skips].
  apply bool_decide_eq_true in Hstale. cbn [negb].
  assert (∀ m, match m with
               | PrRemoveLabel n' l => n' = n ∧ l = "stale"%string
               | AddAssignee k who =>
                   who = a ∧ LinkedSpec.links (pr_body p) k
               | PrComment n' text =>
                   n' = n ∧ text = PRActivityBot.encouragement_message a
               | _ => False
               end -> ok m) as Hok'.
  { intros m Hm. apply Hok. split; [done|]. split; [done|].
    exists payload, n, p. by repeat split. }
  etrans; [apply (respects_skips (1 + 1) w)|].
  rewrite linked_of_body.
  match goal with
  | |- R ?w0 (snd (?m ?w0)) => enough (keeps R m) as Hk by apply Hk
  end.
  repeat respects_step HR; apply Hok'; try done.
  split; [done|]. match goal with H : ∀ n, n ∈ _ ↔ _ |- _ => by apply H end.
Qed.

End Respected.

(** X15.  Whatever the remote calls do, a run of the reopen bot writes
    only if it has a client and the event is pull_request_target, and then
    only this: the author named by the payload is made assignee of issues
    the body refers to, the welcome comment is posted on such issues, and the
    label "stale" is taken off the pull request of the payload.  It never
    comments on, closes or labels a pull request and never removes an
    assignee. *)
Theorem reopen_run_footprint (self : Bot) (w : World) :
  wrote (reopen_write self) w (snd (PRReopenBot.run self w)).
Proof.
  apply (respects_reopen_run (reopen_write self) (wrote (reopen_write self)));
    [apply wrote_respects|auto].
Qed.

(** X16.  Whatever the remote calls do, a run of the activity bot writes
    only if it has a client, the event is issue_comment, and the comment
    is by the author of a pull request that carries the label "stale"; and
    then only this: the label is taken off, the commenter is made assignee
    of issues the body of the pull request refers to, and the encouragement
    comment is posted on the pull request.  It never comments on an issue,
    never closes a pull request and never removes an assignee. *)
Theorem activity_run_footprint (self : Bot) (w : World) :
  wrote (activity_write self w) w (snd (PRActivityBot.run self w)).
Proof.
  apply (respects_activity_run (activity_write self w) (wrote (activity_write self w)));
    [apply wrote_respects|auto].
Qed.

End EventRuns.

(** ** Construction and entry points *)

Module EntryFacts.
Import Text Linked Tracker Event Runs TrackerFacts MonadFacts ReadFacts Keeps.
Import Entry Effects EffectFacts.

(** The three ways the construction of the client can go. *)
Lemma init_client_cases env w :
  init_client env w
  = if truthy (GITHUB_TOKEN env) && truthy (REPOSITORY env)
    then (Ok (calm 1 (faults w)), skip 1 w)
    else (Ok false, w).
Proof.
  unfold init_client. destruct (_ && _); [|reflexivity].
  unfold get_repo. destruct (calm 1 (faults w)) eqn:Hc.
  - assert (remote (ret tt) w = (Ok tt, skip 1 w)) as E by (by rewrite remote_calm).
    by rewrite (try_bind_ok _ _ _ _ _ _ E).
  - destruct (remote_failing (ret tt) w Hc) as (e & E).
    by rewrite (try_bind_raise _ _ _ _ _ _ E).
Qed.

Lemma reopen_run_total self w : ∃ b w', PRReopenBot.run self w = (Ok b, w').
Proof.
  unfold PRReopenBot.run. destruct (negb (client self)); [by eexists _, _|].
  apply try_total.
Qed.

Lemma activity_run_total self w : ∃ b w', PRActivityBot.run self w = (Ok b, w').
Proof.
  unfold PRActivityBot.run. destruct (negb (client self)); [by eexists _, _|].
  apply try_total.
Qed.

(** X17.  The script of the stale bot never raises.  If GITHUB_TOKEN or
    REPOSITORY is unset or empty it makes no call at all; if the repository
    cannot be fetched it stops after that one call; otherwise it is a run
    of the bot with its client set. *)
Theorem stale_pr_bot_main_outcome (env : Env) (w : World) :
  stale_pr_bot_main env w
  = if truthy (GITHUB_TOKEN env) && truthy (REPOSITORY env) then
      if calm 1 (faults w)
      then (Ok tt, snd (StalePRBot.run {| StalePRBot.client := true |} (skip 1 w)))
      else (Ok tt, skip 1 w)
    else (Ok tt, w).
Proof.
  unfold stale_pr_bot_main, StalePRBot_init.
  pose proof (init_client_cases env w) as E.
  destruct (truthy (GITHUB_TOKEN env) && truthy (REPOSITORY env)).
  - rewrite (bind_ok _ _ _ _ _ (bind_ok _ _ _ _ _ E)). unfold ret at 1.
    destruct (calm 1 (faults w)); [|reflexivity].
    destruct (StaleRun.run_cases {| StalePRBot.client := true |} (skip 1 w))
      as [[H _]|[(_ & _ & E')|(_ & _ & c & w' & _ & E')]]; [done| |];
      by rewrite (bind_ok _ _ _ _ _ E'), E'.
  - by rewrite (bind_ok _ _ _ _ _ (bind_ok _ _ _ _ _ E)).
Qed.

(** The bot the script of pr_reopen_bot.py builds and loads. *)
Lemma loaded_bot c ev (read : string -> option Payload) path :
  match read path with
  | Some event_payload =>
      load_event_payload {| client := c; event_name := ev; event_payload := None |}
                         (Some event_payload)
  | None => {| client := c; event_name := ev; event_payload := None |}
  end
  = {| client := c; event_name := ev; event_payload := read path |}.
Proof. by destruct (read path). Qed.

Lemma reopen_run_idle self w :
  event_name self ≠ Some "pull_request_target"%string ∨ event_payload self = None ->
  PRReopenBot.run self w = (Ok false, w).
Proof.
  intros H. unfold PRReopenBot.run. destruct (negb (client self)); [done|].
  destruct (bool_decide (event_name self = Some "pull_request_target"%string)) eqn:Hev;
    [|done].
  apply bool_decide_eq_true in Hev. destruct H as [H|H]; [done|].
  unfold PRReopenBot.handle_pr_reopen. by rewrite H.
Qed.

Lemma activity_run_idle self w :
  event_name self ≠ Some "issue_comment"%string ∨ event_payload self = None ->
  PRActivityBot.run self w = (Ok false, w).
Proof.
  intros H. unfold PRActivityBot.run. destruct (negb (client self)); [done|].
  destruct (bool_decide (event_name self = Some "issue_comment"%string)) eqn:Hev;
    [|done].
  apply bool_decide_eq_true in Hev. destruct H as [H|H]; [done|].
  unfold PRActivityBot.handle_contributor_activity. by rewrite H.
Qed.

Lemma init_client_untouched env w :
  ∃ c w1, init_client env w = (Ok c, w1) ∧ untouched w w1.
Proof.
  rewrite init_client_cases. destruct (_ && _); eexists _, _; split; try reflexivity.
  - apply untouched_skip.
  - apply untouched_refl.
Qed.

(** X18.  The script of pr_reopen_bot.py never raises.  Without an
    argument it does nothing.  Otherwise the name it is run under chooses
    the bot: the activity bot if the name holds "activity", the reopen bot
    if not; nothing is written unless GITHUB_EVENT_NAME is the event of
    that bot (issue_comment, pull_request_target), nor when the payload
    file cannot be loaded. *)
Theorem pr_reopen_bot_main_outcome
    (argv : list string) (env : Env) (read : string -> option Payload) (w : World) :
  ∃ w', pr_reopen_bot_main argv env read w = (Ok tt, w')
    ∧ ((length argv <= 1)%nat -> w' = w)
    ∧ (∀ script path rest, argv = script :: path :: rest ->
         let expected :=
           if contains (of_string "activity") (of_string script)
           then "issue_comment"%string else "pull_request_target"%string in
         GITHUB_EVENT_NAME env ≠ Some expected ∨ read path = None ->
         untouched w w').
Proof.
  destruct argv as [|script [|path rest]].
  { exists w. split; [done|]. split; [done|]. intros ? ? ? [=]. }
  { exists w. split; [done|]. split; [done|]. intros ? ? ? [=]. }
  unfold pr_reopen_bot_main.
  destruct (init_client_untouched env w) as (c & w1 & E & Hu).
  destruct (contains (of_string "activity") (of_string script)) eqn:Hact.
  - unfold PRActivityBot_init. rewrite (bind_ok _ _ _ _ _ (bind_ok _ _ _ _ _ E)).
    unfold ret at 1. cbv zeta. rewrite loaded_bot.
    set (bot := {| client := c; event_name := GITHUB_EVENT_NAME env;
                   event_payload := read path |}).
    destruct (activity_run_total bot w1) as (b & w' & E').
    exists w'. rewrite (bind_ok _ _ _ _ _ E'). split; [done|].
    split; [simpl; lia|].
    intros script' path' rest' [= <- <- <-]. rewrite Hact. cbv zeta. intros H.
    rewrite (activity_run_idle bot w1 H) in E'. by injection E' as _ <-.
  - unfold PRReopenBot_init. rewrite (bind_ok _ _ _ _ _ (bind_ok _ _ _ _ _ E)).
    unfold ret at 1. cbv zeta. rewrite loaded_bot.
    set (bot := {| client := c; event_name := GITHUB_EVENT_NAME env;
                   event_payload := read path |}).
    destruct (reopen_run_total bot w1) as (b & w' & E').
    exists w'. rewrite (bind_ok _ _ _ _ _ E'). split; [done|].
    split; [simpl; lia|].
    intros script' path' rest' [= <- <- <-]. rewrite Hact. cbv zeta. intros H.
    rewrite (reopen_run_idle bot w1 H) in E'. by injection E' as _ <-.
Qed.

End EntryFacts.

(** ** Unassigned by the stale bot, reassigned on reopening *)

Module RoundTrip.
Import Text Linked Tracker Event Runs TrackerFacts MonadFacts ReadFacts Keeps LinkedFacts.
Import StalePRBot PRReopenBot ReopenSpec ReopenParts Effects UnassignParts.
Import EffectFacts ReopenFacts ReassignFacts UnassignFacts.

(** X19.  Without remote failure, let the stale bot unassign the linked
    issues of a pull request and let the reopen bot then reassign them to
    the same author.  When the body can be read: an issue the body refers
    to that the author held alone is again held by the author alone, and is
    returned as reassigned; one the author shared with others is not given
    back: it keeps the others only, and is not returned.  When a reference
    is written with more digits than [int] reads, both functions give up at
    once: nothing is unassigned, nothing is reassigned, nothing changes. *)
Theorem unassign_then_reassign (pr : Pull) (n : Z) (w : World) :
  faults w = [] ->
  let a := login (pr_user (fetched pr)) in
  let body := pr_body (fetched pr) in
  ∃ c w1 l w2,
    unassign_linked_issues pr w = (Ok c, w1)
    ∧ reassign_issues_to_author n a body w1 = (Ok l, w2)
    ∧ (LinkedSpec.readable (default [] body) ->
       ∀ k i, LinkedSpec.links body k -> issues w !! k = Some i ->
         i_pull_request i = false -> a ∈ i_assignees i ->
         ∃ i2, issues w2 !! k = Some i2
           ∧ if bool_decide (filter (fun x => x ≠ a) (i_assignees i) = [])
             then i_assignees i2 = [a] ∧ k ∈ l
             else i_assignees i2 = filter (fun x => x ≠ a) (i_assignees i) ∧ k ∉ l)
    ∧ (¬ LinkedSpec.readable (default [] body) -> c = 0 ∧ l = [] ∧ w2 = w).
Proof.
  intros Hf a body.
  destruct (extract_linked_issues_outcome body w)
    as [(Hr & linked & E & Hnd & Hl)|[Hr E]].
  2:{ exists 0, w, [], w.
      rewrite (unassign_linked_issues_unread pr w _ E).
      by rewrite (reassign_issues_to_author_unread _ _ _ _ _ E). }
  destruct (unassign_linked_issues_linked pr w linked E Hnd)
    as (ks & w1 & E1 & _ & Hq & _ & Hp1 & Hn1 & Hm1 & Hi1).
  fold a in Hq, Hi1.
  destruct (Hq Hf) as [-> Hf1].
  assert (same_order w w1) as Ho.
  { pose proof (StaleFacts.keeps_unassign_linked_issues pr same_order
                  (OpFacts.same_order_closed _) OpFacts.same_order_closed_issues w) as H.
    by rewrite E1 in H. }
  destruct (reassign_loop_quiet n a w1 linked Hnd [] w1)
    as (w2 & E2 & _ & _ & Hi2); auto.
  exists (Z.of_nat (length (List.filter (held a w) linked))), w1,
         (List.filter (unclaimed w1) linked), w2.
  split; [done|]. split.
  { rewrite (reassign_issues_to_author_linked _ _ _ _ linked); [done|].
    by apply (extract_linked_issues_same_order body w w1). }
  split; [|done].
  intros _ k i Hk Hi Hpr Ha. apply Hl in Hk.
  assert (held a w k = true) as Hheld.
  { unfold held. rewrite Hi, Hpr. by rewrite bool_decide_true. }
  assert (issues w1 !! k = Some (released a i)) as Hk1.
  { rewrite Hi1, bool_decide_true, Hi; [done|].
    apply list_elem_of_In, filter_In. split; [by apply list_elem_of_In|done]. }
  assert (unclaimed w1 k
          = bool_decide (filter (fun x => x ≠ a) (i_assignees i) = [])) as Hu.
  { unfold unclaimed. rewrite Hk1. simpl. by rewrite Hpr. }
  rewrite Hi2, Hk1.
  destruct (bool_decide (filter (fun x => x ≠ a) (i_assignees i) = [])) eqn:Hd.
  - assert (k ∈ List.filter (unclaimed w1) linked) as Hin.
    { apply list_elem_of_In, filter_In. split; [by apply list_elem_of_In|done]. }
    rewrite bool_decide_true by done. eexists. split; [reflexivity|]. by split.
  - assert (k ∉ List.filter (unclaimed w1) linked) as Hin.
    { intros Hin. apply list_elem_of_In, filter_In in Hin as [_ Hin]. congruence. }
    rewrite bool_decide_false by done. eexists. split; [reflexivity|]. by split.
Qed.

End RoundTrip.

(** ** The theorems at work on sample worlds *)

Module Witnesses.
Import Text Linked Tracker Event Runs StalePRBot StaleSpec ReopenSpec LinkedSpec Samples.
Import TrackerFacts LinkedFacts StaleFacts ReopenFacts ReassignFacts ActivityFacts.
Import ActivityCare.

Lemma nobody_said marker labels commits : ¬ bot_said marker (pull7 labels commits []).
Proof. intros (c & Hin & _). simpl in Hin. by apply elem_of_nil in Hin. Qed.

Lemma handle_contributor_activity_abort_witness :
  ∃ w', PRActivityBot.handle_contributor_activity (comment_event "alice")
          (world quiet7 [] 20 []) = (Ok false, w')
        ∧ untouched (world quiet7 [] 20 []) w'.
Proof.
  apply (handle_contributor_activity_abort
           (comment_event "alice") (comment_payload "alice") 7 "alice" quiet7).
  - reflexivity.
  - reflexivity.
  - reflexivity.
  - reflexivity.
  - right. vm_compute. intros H. by apply elem_of_nil in H.
Defined.

Lemma get_days_since_activity_spec_witness :
  get_days_since_activity (pr7 busy7) (Some 1000) (world busy7 [] 10 [])
  = (Ok 7, skip 2 (world busy7 [] 10 [])).
Proof.
  rewrite (get_days_since_activity_spec (pr7 busy7) busy7 1000 (world busy7 [] 10 [])).
  - reflexivity.
  - reflexivity.
  - reflexivity.
Defined.

Lemma tier_selection_witness :
  fires close_stale_pr (pr7 quiet7) 61 0 (world quiet7 [] 61 [])
        (process_pr 0 (pr7 quiet7) (world quiet7 [] 61 []))
  ∧ fires mark_pr_stale (pr7 quiet7) 20 0 (skip 2 (world quiet7 [] 20 []))
          (process_pr 0 (pr7 quiet7) (world quiet7 [] 20 []))
  ∧ fires send_stale_warning (pr7 quiet7) 10 0 (skip 2 (world quiet7 [] 10 []))
          (process_pr 0 (pr7 quiet7) (world quiet7 [] 10 []))
  ∧ idle 0 (world quiet7 [] 3 []) (process_pr 0 (pr7 quiet7) (world quiet7 [] 3 []))
  ∧ idle 0 (world (pull7 [] [] [stale_notice]) [] 20 [])
         (process_pr 0 (pr7 quiet7) (world (pull7 [] [] [stale_notice]) [] 20 [])).
Proof.
  split; [|split; [|split; [|split]]].
  - apply (tier_selection 0 (pr7 quiet7) 1000 61 (world quiet7 [] 61 [])
             (world quiet7 [] 61 []) (world quiet7 [] 61 [])); [reflexivity|reflexivity|lia].
  - apply (tier_selection 0 (pr7 quiet7) 1000 20 (world quiet7 [] 20 [])
             (world quiet7 [] 20 []) (world quiet7 [] 20 []) eq_refl eq_refl)
      with (p := quiet7); [lia|reflexivity|reflexivity|].
    split; apply nobody_said.
  - apply (tier_selection 0 (pr7 quiet7) 1000 10 (world quiet7 [] 10 [])
             (world quiet7 [] 10 []) (world quiet7 [] 10 []) eq_refl eq_refl)
      with (p := quiet7); [lia|reflexivity|reflexivity|].
    split; apply nobody_said.
  - apply (tier_selection 0 (pr7 quiet7) 1000 3 (world quiet7 [] 3 [])
             (world quiet7 [] 3 []) (world quiet7 [] 3 []) eq_refl eq_refl). lia.
  - destruct (tier_selection 0 (pr7 quiet7) 1000 20
                (world (pull7 [] [] [stale_notice]) [] 20 [])
                (world (pull7 [] [] [stale_notice]) [] 20 [])
                (world (pull7 [] [] [stale_notice]) [] 20 []) eq_refl eq_refl)
      as (_ & H & _).
    apply (H ltac:(lia) (pull7 [] [] [stale_notice]) eq_refl eq_refl).
    left. exists stale_notice. split; [by left|]. split; [reflexivity|].
    by exists (of_string "marked as "), (of_string ".").
Defined.

Lemma stale_bot_spares_unreviewed_witness :
  (∀ c pr, pr_number pr = 8 ->
     ∃ w', process_pr c pr (world quiet7 ["alice"%string] 61 []) = (Ok c, w')
           ∧ untouched (world quiet7 ["alice"%string] 61 []) w')
  ∧ spares 8 (world quiet7 ["alice"%string] 61 [])
           (snd (run {| StalePRBot.client := true |} (world quiet7 ["alice"%string] 61 []))).
Proof.
  apply (stale_bot_spares_unreviewed _ 8 pull8).
  - reflexivity.
  - intros r Hr. simpl in Hr. by apply elem_of_nil in Hr.
Defined.

Lemma no_tier_without_activity_data_witness :
  (∃ w2, get_days_since_activity (pr7 quiet7) (Some 1000)
           (world quiet7 [] 61 [None; Some (GithubException 502)])
         = (Ok 0, w2)
         ∧ untouched (world quiet7 [] 61 [None; Some (GithubException 502)]) w2)
  ∧ idle 0 (world quiet7 [] 61 [None; Some (GithubException 502)])
         (process_pr 0 (pr7 quiet7)
            (world quiet7 [] 61 [None; None; Some (GithubException 502)])).
Proof.
  apply (no_tier_without_activity_data 0 (pr7 quiet7) (Some 1000)
           (world quiet7 [] 61 [None; None; Some (GithubException 502)])
           (world quiet7 [] 61 [None; Some (GithubException 502)])).
  - reflexivity.
  - right. right. left. exists (GithubException 502). reflexivity.
Defined.

Lemma guards_bypassed_when_listing_fails_witness :
  has_bot_comment (pr7 quiet7) "stale"
    (world (pull7 [] [] [stale_notice]) [] 20
       [Some (GithubException 502); Some (GithubException 502)])
  = (Ok false, skip 1 (world (pull7 [] [] [stale_notice]) [] 20
                         [Some (GithubException 502); Some (GithubException 502)]))
  ∧ ∃ rest, log (snd (process_pr 0 (pr7 quiet7)
               (world (pull7 [] [] [stale_notice]) [] 20
                  [None; None; None; Some (GithubException 502);
                   Some (GithubException 502)])))
            = PrComment 7 (unassign_message "alice" 20) :: rest.
Proof.
  destruct (guards_bypassed_when_listing_fails 0 (pr7 quiet7) (pull7 [] [] [stale_notice])
           1000 20
           (world (pull7 [] [] [stale_notice]) [] 20
              [None; None; None; Some (GithubException 502); Some (GithubException 502)])
           (world (pull7 [] [] [stale_notice]) [] 20
              [None; None; Some (GithubException 502); Some (GithubException 502)])
           (world (pull7 [] [] [stale_notice]) [] 20
              [Some (GithubException 502); Some (GithubException 502)])
           (GithubException 502) (GithubException 502) []
           eq_refl eq_refl ltac:(lia) eq_refl eq_refl) as (H1 & _ & H3).
  split; [apply H1|]. apply (H3 eq_refl).
Defined.

(** A warning on day 10 keeps the bot from unassigning on day 20. *)
Example warning_then_nothing :
  let after_warning :=
    snd (process_pr 0 (pr7 quiet7) (world quiet7 ["alice"%string] 10 [])) in
  let later := set_now (1000 + 20 * day) after_warning in
  log after_warning = [PrComment 7 (warning_message "alice" 10)]
  ∧ idle 0 later (process_pr 0 (pr7 quiet7) later).
Proof.
  split; [reflexivity|]. eexists. split; [reflexivity|]. by repeat split.
Qed.

(** The extractor on sample bodies: the numbers come in the order of the
    interpreter's set; white space, digits and letter case are those of
    Unicode. *)
Example extract_linked_issues_samples :
  let w := world quiet7 [] 0 [] in
  extract_linked_issues (Some two_references) w = (Ok [12; 5], w)
  ∧ extract_linked_issues (Some exotic_references) w = (Ok [12; 5], w)
  ∧ extract_linked_issues (Some (Unicode.of_string "fix#4, close # 6, prefix #3")) w
    = (Ok [3], w)
  ∧ extract_linked_issues
      (Some (Unicode.of_string "closes #100, fixed #36 resolved #4 CLOSED #36")) w
    = (Ok [100; 4; 36], w)
  ∧ fst (extract_linked_issues (Some long_reference) w) = Raise ValueError.
Proof. cbv zeta. repeat apply conj; reflexivity. Qed.

(** C4, as the specification has it, fails: a reference written with 4301
    digits makes the extractor raise [ValueError], where the claim has it
    return a collection for every body. *)
Lemma extracts_as_specified_fails : ¬ extracts_as_specified.
Proof.
  intros H.
  destruct (H (Some long_reference) (world quiet7 [] 0 [])) as (l & E & _).
  apply (f_equal fst) in E. vm_compute in E. discriminate E.
Qed.

(** An issue whose only assignee is already the author: the specification
    has it reassigned and welcomed, the code leaves it alone. *)
Lemma already_assigned_is_left_alone :
  specified "alice" (world quiet7 ["alice"%string] 0 []) 12 = true
  ∧ PRReopenBot.reassign_issues_to_author 7 "alice" (Some (Unicode.of_string "fixes #12"))
      (world quiet7 ["alice"%string] 0 [])
    = (Ok [], world quiet7 ["alice"%string] 0 []).
Proof. split; reflexivity. Qed.

(** C3, as the specification has it, fails: for the issue above it promises
    a reassignment and the number in the result. *)
Lemma reassigns_as_specified_fails : ¬ reassigns_as_specified.
Proof.
  intros H.
  destruct (H (world quiet7 ["alice"%string] 0 []) 7 "alice"%string
              (Some (Unicode.of_string "fixes #12")) [12] eq_refl eq_refl)
    as (w' & E & _).
  apply (f_equal fst) in E. vm_compute in E. discriminate E.
Qed.

Lemma reassign_issues_to_author_spec_witness :
  ∃ w', PRReopenBot.reassign_issues_to_author 7 "alice"
          (Some (Unicode.of_string "fixes #12")) (world quiet7 [] 0 [])
        = (Ok [12], w')
    ∧ log w' = [AddAssignee 12 "alice";
                IssueComment 12 (PRReopenBot.welcome_message "alice" 7)].
Proof.
  destruct (reassign_issues_to_author_spec (world quiet7 [] 0 []) 7 "alice"
              (Some (Unicode.of_string "fixes #12")) eq_refl)
    as [(linked & w' & E & _ & _ & E' & Hl & _)|[E _]]; [|discriminate E].
  injection E as <-. exists w'. split; [exact E'|exact Hl].
Defined.

(** Two linked issues are taken in the order of the interpreter's set. *)
Example reassignment_in_set_order :
  ∃ w', PRReopenBot.reassign_issues_to_author 7 "alice" (Some two_references)
          (with_issue5 (world quiet7 [] 0 []))
        = (Ok [12; 5], w')
    ∧ log w' = [AddAssignee 12 "alice";
                IssueComment 12 (PRReopenBot.welcome_message "alice" 7);
                AddAssignee 5 "alice";
                IssueComment 5 (PRReopenBot.welcome_message "alice" 7)].
Proof. eexists. split; reflexivity. Qed.

(** A reference that [int] cannot read: nothing is reassigned. *)
Example unreadable_body_reassigns_nothing :
  PRReopenBot.reassign_issues_to_author 7 "alice"
    (Some (Unicode.of_string "fixes #12 " ++ long_reference)%list) (world quiet7 [] 0 [])
  = (Ok [], world quiet7 [] 0 []).
Proof.
  apply (reassign_issues_to_author_unread _ _ _ _ ValueError).
  match goal with |- extract_linked_issues ?b ?w = _ =>
    destruct (extract_linked_issues_cases b w) as [(l & E & _)|E]; [|exact E]
  end.
  apply (f_equal fst) in E. vm_compute in E. discriminate E.
Qed.

(** An issue assigned to someone else is not touched and not returned. *)
Example assigned_to_bob_is_skipped :
  PRReopenBot.reassign_issues_to_author 7 "alice" (Some (Unicode.of_string "fixes #12"))
    (world quiet7 ["bob"%string] 0 [])
  = (Ok [], world quiet7 ["bob"%string] 0 []).
Proof. reflexivity. Qed.

(** C9, as the specification has it, fails: when the comments cannot be
    listed at all, the inactivity is taken to be 0 days and no tier runs. *)
Lemma guards_bypassed_as_specified_fails : ¬ guards_bypassed_as_specified.
Proof.
  intros H.
  destruct (H 0 7 (pull7 [] [] [stale_notice]) 1000 20
              (world (pull7 [] [] [stale_notice]) [] 20
                 [None; None; Some (GithubException 502);
                  Some (GithubException 502); Some (GithubException 502)])
              eq_refl eq_refl eq_refl ltac:(lia)
              ltac:(by eexists _, _, _)) as (rest & E).
  vm_compute in E. discriminate E.
Qed.

(** Reopening with the stale label on and the issue taken: the label goes,
    nothing is assigned, the result is false. *)
Example label_removal_alone_is_false :
  ∃ w', PRReopenBot.run reopen_event (world (pull7 ["stale"%string] [] []) ["bob"%string] 0 [])
        = (Ok false, w')
        ∧ log w' = [PrRemoveLabel 7 "stale"].
Proof. eexists. split; reflexivity. Qed.

(** Reopening with the issue free: it is assigned, the result is true. *)
Example reopening_reassigns :
  ∃ w', PRReopenBot.run reopen_event (world quiet7 [] 0 []) = (Ok true, w')
        ∧ log w' = [AddAssignee 12 "alice";
                    IssueComment 12 (PRReopenBot.welcome_message "alice" 7)].
Proof. eexists. split; reflexivity. Qed.

(** The author comments on a stale pull request: label removed, issue
    assigned, encouragement posted. *)
Example activity_on_stale_pull_request :
  ∃ w', PRActivityBot.run (comment_event "alice")
          (world (pull7 ["stale"%string] [] []) [] 20 [])
        = (Ok true, w')
        ∧ log w' = [PrRemoveLabel 7 "stale"; AddAssignee 12 "alice";
                    PrComment 7 (PRActivityBot.encouragement_message "alice")].
Proof. eexists. split; reflexivity. Qed.

End Witnesses.

(** ** The further properties at work on sample worlds *)

Module MoreWitnesses.
Import Text Linked Tracker Event Runs StalePRBot StaleSpec ReopenSpec LinkedSpec.
Import Samples MoreSamples Effects Footprints TrackerFacts LinkedFacts.
Import UnassignFacts TierFacts StaleRun GuardFacts LabelFacts TwiceFacts ActivityRun.
Import RoundTrip.

(** The warning goes through; a failing call leaves nothing. *)
Lemma send_stale_warning_steps_witness :
  send_stale_warning (pr7 quiet7) 10 (world quiet7 ["alice"%string] 10 [])
  = (Ok true, commented 7 (warning_message "alice" 10) quiet7
                (world quiet7 ["alice"%string] 10 []))
  ∧ send_stale_warning (pr7 quiet7) 10 (world quiet7 ["alice"%string] 10 [Some bad_gateway])
    = (Ok false, world quiet7 ["alice"%string] 10 []).
Proof.
  split.
  - exact (send_stale_warning_steps (pr7 quiet7) quiet7 10
             (world quiet7 ["alice"%string] 10 []) eq_refl).
  - exact (send_stale_warning_steps (pr7 quiet7) quiet7 10
             (world quiet7 ["alice"%string] 10 [Some bad_gateway]) eq_refl).
Defined.

(** Closing raises after the comment was posted: the comment stays, the
    pull request stays open, alice keeps issue 12. *)
Lemma close_stale_pr_steps_witness :
  close_stale_pr (pr7 quiet7) 61 (world quiet7 ["alice"%string] 61 [None; Some bad_gateway])
  = (Ok false, commented 7 (close_message "alice" 61) quiet7
                 (world quiet7 ["alice"%string] 61 [])).
Proof.
  destruct (close_stale_pr_steps (pr7 quiet7) quiet7 61
              (world quiet7 ["alice"%string] 61 [None; Some bad_gateway]) eq_refl)
    as (c & w3 & _ & E).
  exact E.
Defined.

(** Adding the label raises: the result is true all the same and the pull
    request has no label. *)
Lemma mark_pr_stale_steps_witness :
  ∃ w', mark_pr_stale (pr7 quiet7) 20
          (world quiet7 ["alice"%string] 20 [None; None; None; Some bad_gateway])
        = (Ok true, w')
    ∧ pr_labels <$> pulls w' !! 7 = Some []
    ∧ log w' = [PrComment 7 (unassign_message "alice" 20); RemoveAssignee 12 "alice"].
Proof.
  destruct (mark_pr_stale_steps (pr7 quiet7) quiet7 20
              (world quiet7 ["alice"%string] 20 [None; None; None; Some bad_gateway]) eq_refl)
    as (c & w2 & E2 & E).
  match type of E2 with
  | ?m = _ => assert (w2 = snd m) as -> by (by rewrite E2)
  end.
  eexists. split; [exact E|]. split; reflexivity.
Defined.

Lemma stale_run_spares_closed_witness :
  spares 9 (with_pull9 (world quiet7 ["alice"%string] 61 []))
         (snd (run {| client := true |} (with_pull9 (world quiet7 ["alice"%string] 61 [])))).
Proof.
  apply (stale_run_spares_closed _ 9).
  intros p Hp. vm_compute in Hp. injection Hp as <-. discriminate.
Defined.

(** On day 20 the warning of day 10 holds the unassign tier back. *)
Lemma posted_comment_holds_tiers_back_witness :
  idle 0 (world (pull7 [] [] [warning_note]) ["alice"%string] 20 [])
       (process_pr 0 (pr7 quiet7) (world (pull7 [] [] [warning_note]) ["alice"%string] 20 [])).
Proof.
  destruct (posted_comment_holds_tiers_back 0 (pr7 quiet7) (pull7 [] [] [warning_note])
              1000 20
              (world (pull7 [] [] [warning_note]) ["alice"%string] 20 [])
              (world (pull7 [] [] [warning_note]) ["alice"%string] 20 [])
              (world (pull7 [] [] [warning_note]) ["alice"%string] 20 [])
              warning_note "alice" 10 eq_refl eq_refl eq_refl eq_refl
              ltac:(by left) eq_refl) as (H & _ & _).
  apply H; [reflexivity|lia].
Defined.

(** When only the first scan of the unassign tier raises, the second still
    finds the warning of day 10 and holds the tier back. *)
Example second_guard_still_applies :
  let w := world (pull7 [] [] [warning_note]) ["alice"%string] 20
             [None; None; None; Some bad_gateway] in
  idle 0 w (process_pr 0 (pr7 quiet7) w).
Proof. eexists. split; [reflexivity|]. by repeat split. Qed.

(** Run with the token of a user, the bot does not see its own warning. *)
Lemma own_comment_unseen_unless_bot_witness :
  ∃ w' p', send_stale_warning (pr7 quiet7) 10
             (as_alice (world quiet7 ["alice"%string] 10 [])) = (Ok true, w')
    ∧ pulls w' !! 7 = Some p'
    ∧ length (pr_comments p') = 1%nat
    ∧ ∀ marker, bot_said marker p' ↔ bot_said marker quiet7.
Proof.
  apply (own_comment_unseen_unless_bot (pr7 quiet7) quiet7 10
           (as_alice (world quiet7 ["alice"%string] 10 []))).
  - reflexivity.
  - reflexivity.
  - discriminate.
  - by left.
Defined.

Lemma reassign_issues_to_author_twice_witness :
  ∃ l w', PRReopenBot.reassign_issues_to_author 7 "alice"
            (Some (Unicode.of_string "fixes #12")) (world quiet7 [] 0 []) = (Ok l, w')
    ∧ unclaimed w' 12 = false
    ∧ PRReopenBot.reassign_issues_to_author 7 "alice"
        (Some (Unicode.of_string "fixes #12")) w'
      = (Ok [], w').
Proof.
  destruct (reassign_issues_to_author_twice 7 "alice"
              (Some (Unicode.of_string "fixes #12")) (world quiet7 [] 0 []) eq_refl)
    as (l & w' & E & Hu & _ & E').
  destruct (extract_linked_issues_ok_readable
              (Some (Unicode.of_string "fixes #12")) (world quiet7 [] 0 []) [12] eq_refl)
    as (Hr & _ & Hl).
  exists l, w'. split; [exact E|]. split; [|exact E'].
  apply (Hu Hr). apply Hl. by left.
Defined.

(** Alice comments on her stale pull request while issue 12 is free. *)
Lemma handle_contributor_activity_success_witness :
  ∃ w', PRActivityBot.handle_contributor_activity (comment_event "alice")
          (world (pull7 ["stale"%string] [] []) [] 20 []) = (Ok true, w')
    ∧ log w' = [PrRemoveLabel 7 "stale"; AddAssignee 12 "alice";
                PrComment 7 (PRActivityBot.encouragement_message "alice")].
Proof.
  destruct (handle_contributor_activity_success
              (comment_event "alice") (comment_payload "alice") 7 "alice"
              (pull7 ["stale"%string] [] [])
              (world (pull7 ["stale"%string] [] []) [] 20 [])
              eq_refl eq_refl ltac:(lia) eq_refl ltac:(discriminate) eq_refl eq_refl
              ltac:(by left) eq_refl)
    as [(linked & w' & E0 & _ & _ & E & Hl & _)|[E0 _]]; [|discriminate E0].
  injection E0 as <-.
  exists w'. split; [exact E|]. rewrite Hl. reflexivity.
Defined.

(** With a reference that [int] cannot read, the label goes and that is
    all. *)
Example activity_with_unreadable_body :
  let p := set_pr_body_sample long_reference (pull7 ["stale"%string] [] []) in
  let w := set_pulls (insert 7 p) (world quiet7 [] 20 []) in
  PRActivityBot.handle_contributor_activity (comment_event "alice") w
  = (Ok false, unlabelled 7 "stale" p w).
Proof. reflexivity. Qed.

(** Issue 12 held by alice alone comes back to her; shared with bob, it
    stays with bob. *)
Lemma unassign_then_reassign_witness :
  (∃ c w1 l w2,
     unassign_linked_issues (pr7 quiet7) (world quiet7 ["alice"%string] 20 []) = (Ok c, w1)
     ∧ PRReopenBot.reassign_issues_to_author 7 "alice"
         (Some (Unicode.of_string "Fixes #12")) w1
       = (Ok l, w2)
     ∧ ∃ i2, issues w2 !! 12 = Some i2 ∧ i_assignees i2 = ["alice"%string] ∧ 12 ∈ l)
  ∧ (∃ c w1 l w2,
       unassign_linked_issues (pr7 quiet7)
         (world quiet7 ["alice"%string; "bob"%string] 20 []) = (Ok c, w1)
       ∧ PRReopenBot.reassign_issues_to_author 7 "alice"
           (Some (Unicode.of_string "Fixes #12")) w1
         = (Ok l, w2)
       ∧ ∃ i2, issues w2 !! 12 = Some i2 ∧ i_assignees i2 = ["bob"%string] ∧ 12 ∉ l).
Proof.
  destruct (extract_linked_issues_ok_readable
              (pr_body (fetched (pr7 quiet7))) (world quiet7 [] 0 []) [12] eq_refl)
    as (Hr & _ & Hl).
  assert (links (pr_body (fetched (pr7 quiet7))) 12) as Hlinked
    by (apply Hl; by left).
  split.
  - destruct (unassign_then_reassign (pr7 quiet7) 7
                (world quiet7 ["alice"%string] 20 []) eq_refl)
      as (c & w1 & l & w2 & E1 & E2 & H & _).
    exists c, w1, l, w2. split; [exact E1|]. split; [exact E2|].
    destruct (H Hr 12 (issue12 ["alice"%string]) Hlinked eq_refl eq_refl ltac:(by left))
      as (i2 & Hi2 & Hif).
    exists i2. split; [exact Hi2|]. exact Hif.
  - destruct (unassign_then_reassign (pr7 quiet7) 7
                (world quiet7 ["alice"%string; "bob"%string] 20 []) eq_refl)
      as (c & w1 & l & w2 & E1 & E2 & H & _).
    exists c, w1, l, w2. split; [exact E1|]. split; [exact E2|].
    destruct (H Hr 12 (issue12 ["alice"%string; "bob"%string]) Hlinked eq_refl eq_refl
                ltac:(by left)) as (i2 & Hi2 & Hif).
    exists i2. split; [exact Hi2|]. exact Hif.
Defined.

(** The warning of the bot leaves the count of days where it was. *)
Lemma notice_is_not_activity_witness :
  ∃ d, get_days_since_activity (pr7 quiet7) (Some 1000) (world quiet7 [] 10 [])
       = (Ok d, skip 2 (world quiet7 [] 10 []))
    ∧ get_days_since_activity (pr7 quiet7) (Some 1000)
        (commented 7 (warning_message "alice" 10) quiet7 (world quiet7 [] 10 []))
      = (Ok d, skip 2 (commented 7 (warning_message "alice" 10) quiet7
                         (world quiet7 [] 10 []))).
Proof.
  apply (notice_is_not_activity (pr7 quiet7) quiet7 1000 (warning_message "alice" 10)
           (world quiet7 [] 10 [])).
  - reflexivity.
  - reflexivity.
  - discriminate.
Defined.

End MoreWitnesses.
